(** * Caching and outbound-throttling layer of the travel assistant

    A shallow embedding of [src/my_app/agents/common/utils.py]
    ([RateLimiter], [TTLCache]) and of the get-or-fetch functions of
    [src/my_app/agents/common/weather.py], followed by the properties the
    specification states about them. The embedding goes on with the code
    around them: the report functions of [weather.py], the
    [WeatherCodeTranslator] of [common.py], and [get_timezone],
    [get_local_time] and [get_local_time_info] of [time_utils.py]; the
    development ends with further properties of all of this code.

    Conventions of the embedding:
    - [time.time()] readings are integers (ticks of the clock, in whatever
      resolution the clock has); additions and comparisons of timestamps
      are exact;
    - a Python exception is a value of [exn]; a call returns an [outcome]
      together with the state it leaves behind, so that a raise in the
      middle of a method keeps the mutations done before it;
    - [collections.OrderedDict] is an association list, oldest entry first;
      the plain [dict] of expiration times is a [gmap];
    - what the standard library and [pytz] compute (the text of a float,
      [datetime] parsing and formatting, the list of time zones) is a
      section variable of the functions that use it. *)

From Stdlib Require Import ZArith QArith String List Lia.
From stdpp Require Import gmap strings list pretty sorting.

Close Scope Q_scope.
Local Open Scope Z_scope.

Set Default Proof Using "Type".
Set Warnings "-register-all".

(** ** Python exceptions and results *)

Inductive exn : Type :=
| KeyError
| IndexError
| StopIteration
| AttributeError
| TypeError
| ValueError (msg : string)
| RequestException (msg : string)
| GeocodingError (msg : string)
| WeatherAPIError (msg : string).

Inductive outcome (A : Type) : Type :=
| Ok (a : A)
| Raise (e : exn).

Arguments Ok {A} a.
Arguments Raise {A} e.

(** ** [collections.OrderedDict] *)

Module OrderedDict.
Section ops.
Context {K : Type} `{EqDecision K} {V : Type}.

(** [key in d] *)
Definition contains (key : K) (d : list (K * V)) : bool :=
  bool_decide (key ∈ d.*1).

(** [d[key]]; [None] stands for the [KeyError] *)
Fixpoint getitem (key : K) (d : list (K * V)) : option V :=
  match d with
  | [] => None
  | (k, v) :: d' => if decide (key = k) then Some v else getitem key d'
  end.

(** [del d[key]] *)
Definition delitem (key : K) (d : list (K * V)) : list (K * V) :=
  filter (λ p, p.1 ≠ key) d.

(** [d[key] = value]: an existing key keeps its position, a new key goes
    to the end *)
Fixpoint setitem (key : K) (value : V) (d : list (K * V)) : list (K * V) :=
  match d with
  | [] => [(key, value)]
  | (k, v) :: d' =>
      if decide (key = k) then (k, value) :: d'
      else (k, v) :: setitem key value d'
  end.

(** [d.move_to_end(key)]; [None] stands for the [KeyError] *)
Definition move_to_end (key : K) (d : list (K * V)) : option (list (K * V)) :=
  match getitem key d with
  | Some v => Some (delitem key d ++ [(key, v)])
  | None => None
  end.

(** [next(iter(d))]; [None] stands for [StopIteration] *)
Definition first (d : list (K * V)) : option K :=
  match d with
  | [] => None
  | (k, _) :: _ => Some k
  end.

(** [len(d)] *)
Definition len (d : list (K * V)) : Z := Z.of_nat (length d).
End ops.
End OrderedDict.

(** ** [class TTLCache] *)

Module TTLCache.
Section defs.
Context {K : Type} `{Countable K} {V : Type}.

Record t : Type := mk {
  max_items : Z;
  cache : list (K * V);
  expirations : gmap K Z
}.

(** [TTLCache(max_items)] *)
Definition init (n : Z) : t :=
  {| max_items := n; cache := []; expirations := ∅ |}.

(** [_remove_key(key)] *)
Definition _remove_key (c : t) (key : K) : t :=
  {| max_items := max_items c;
     cache := if OrderedDict.contains key (cache c)
              then OrderedDict.delitem key (cache c) else cache c;
     expirations := delete key (expirations c) |}.

(** [get(key, ttl)], where [now] is the reading of [time.time()].
    [Ok None] is Python's [None]; the values of [V] are the Python objects
    other than [None]. *)
Definition get (c : t) (key : K) (ttl : Z) (now : Z) : outcome (option V) * t :=
  if negb (OrderedDict.contains key (cache c)) then (Ok None, c)
  else
    match expirations c !! key with
    | None => (Raise KeyError, c)
    | Some expiry =>
        if bool_decide (now > expiry) then (Ok None, _remove_key c key)
        else
          match OrderedDict.move_to_end key (cache c) with
          | None => (Raise KeyError, c)
          | Some d =>
              let c' := {| max_items := max_items c; cache := d;
                           expirations := expirations c |} in
              match OrderedDict.getitem key d with
              | Some v => (Ok (Some v), c')
              | None => (Raise KeyError, c')
              end
          end
    end.

(** [set(key, value, ttl)], where [now] is the reading of [time.time()] *)
Definition set (c : t) (key : K) (value : V) (ttl : Z) (now : Z) : outcome unit * t :=
  let evicted :=
    if bool_decide (OrderedDict.len (cache c) >= max_items c)
       && negb (OrderedDict.contains key (cache c))
    then
      match OrderedDict.first (cache c) with
      | None => Raise StopIteration
      | Some oldest_key => Ok (_remove_key c oldest_key)
      end
    else Ok c in
  match evicted with
  | Raise e => (Raise e, c)
  | Ok c1 =>
      let d := OrderedDict.setitem key value (cache c1) in
      let e := <[key := now + ttl]> (expirations c1) in
      match OrderedDict.move_to_end key d with
      | None =>
          (Raise KeyError,
           {| max_items := max_items c; cache := d; expirations := e |})
      | Some d' =>
          (Ok (), {| max_items := max_items c; cache := d'; expirations := e |})
      end
  end.

(** [clear()] *)
Definition clear (c : t) : t :=
  {| max_items := max_items c; cache := []; expirations := ∅ |}.

(** [size()] *)
Definition size (c : t) : Z := OrderedDict.len (cache c).

(** A client's call on the cache, with the clock reading it happens at *)
Inductive op : Type :=
| Get (key : K) (ttl : Z) (now : Z)
| Set_ (key : K) (value : V) (ttl : Z) (now : Z)
| Clear.

(** The cache after a call, whether the call returned or raised *)
Definition step (c : t) (o : op) : t :=
  match o with
  | Get key ttl now => (get c key ttl now).2
  | Set_ key value ttl now => (set c key value ttl now).2
  | Clear => clear c
  end.

Definition run (c : t) (ops : list op) : t := foldl step c ops.

(** Keys tracked by the recency-ordered map *)
Definition keys (c : t) : list K := (cache c).*1.
End defs.

Arguments t K {_ _} V.
Arguments op K V : clear implicits.
End TTLCache.

(** ** The clock: [time.time()] and [time.sleep()]

    Every call on the clock takes some time: the [n]-th call adds the
    latency [lat n] to the current time. A reading is the time at which the
    call returns; a sleep returns no earlier than the requested duration
    after it was called. With [lat] constantly [0] this is a test clock
    that only sleeping advances. *)

Module Clock.
Record t : Type := mk {
  now : Z;
  lat : nat → Z;
  calls : nat;
  slept : list Z
}.

(** [time.time()] *)
Definition time (c : t) : Z * t :=
  let n := now c + lat c (calls c) in
  (n, {| now := n; lat := lat c; calls := S (calls c); slept := slept c |}).

(** [time.sleep(secs)] *)
Definition sleep (secs : Z) (c : t) : t :=
  {| now := now c + secs + lat c (calls c); lat := lat c;
     calls := S (calls c); slept := slept c ++ [secs] |}.

Definition init (start : Z) (l : nat → Z) : t :=
  {| now := start; lat := l; calls := 0; slept := [] |}.
End Clock.

(** ** [class RateLimiter] *)

Module RateLimiter.
Record t : Type := mk {
  rps : Q;
  window_sec : Z;
  events : list Z
}.

(** [RateLimiter(rps, window_sec)] *)
Definition init (r : Q) (w : Z) : t :=
  {| rps := r; window_sec := w; events := [] |}.

(** Python's [int(x)] on a number: truncation towards zero *)
Definition int (x : Q) : Z := Qnum x ÷ Z.pos (Qden x).

(** [while self.events and self.events[0] < cutoff: self.events.popleft()] *)
Fixpoint prune (cutoff : Z) (ev : list Z) : list Z :=
  match ev with
  | [] => []
  | e :: ev' => if bool_decide (e < cutoff) then prune cutoff ev' else ev
  end.

Definition with_events (l : t) (ev : list Z) : t :=
  {| rps := rps l; window_sec := window_sec l; events := ev |}.

(** [self.events.append(time.time())] *)
Definition record (l : t) (ev : list Z) (clk : Clock.t) : outcome unit * t * Clock.t :=
  let '(stamp, clk) := Clock.time clk in
  (Ok (), with_events l (ev ++ [stamp]), clk).

(** [wait()] *)
Definition wait (l : t) (clk : Clock.t) : outcome unit * t * Clock.t :=
  if Qle_bool (rps l) 0 then (Ok (), l, clk)
  else
    let '(now, clk) := Clock.time clk in
    let cutoff := now - window_sec l in
    let ev := prune cutoff (events l) in
    if bool_decide (Z.of_nat (length ev) >= int (rps l)) then
      match ev with
      | [] => (Raise IndexError, with_events l ev, clk)
      | oldest :: _ =>
          let sleep_for := oldest + window_sec l - now in
          if bool_decide (sleep_for > 0) then
            let clk := Clock.sleep sleep_for clk in
            let '(now, clk) := Clock.time clk in
            let cutoff := now - window_sec l in
            let ev := prune cutoff ev in
            record l ev clk
          else record l ev clk
      end
    else record l ev clk.

(** Sequential callers of one limiter. [admitted] is the history of all
    admission timestamps the limiter recorded, including those it has
    pruned since; [raised] collects the exceptions of the calls. *)
Record session : Type := mk_session {
  limiter : t;
  clock : Clock.t;
  admitted : list Z;
  raised : list exn
}.

Definition start (l : t) (clk : Clock.t) : session :=
  {| limiter := l; clock := clk; admitted := []; raised := [] |}.

Definition call (s : session) : session :=
  let '(r, l, clk) := wait (limiter s) (clock s) in
  match r with
  | Ok _ =>
      {| limiter := l; clock := clk;
         admitted :=
           if Qle_bool (rps l) 0 then admitted s
           else admitted s ++ option_list (last (events l));
         raised := raised s |}
  | Raise e =>
      {| limiter := l; clock := clk; admitted := admitted s;
         raised := raised s ++ [e] |}
  end.

Definition calls (n : nat) (s : session) : session := Nat.iter n call s.

(** Number of timestamps of [ev] in the closed window [[lo, hi]] *)
Definition count_in (lo hi : Z) (ev : list Z) : Z :=
  Z.of_nat (length (filter (λ e, lo ≤ e ≤ hi) ev)).
End RateLimiter.

(** ** Decoded JSON bodies and the Python operations applied to them *)

Module Json.
Inductive t : Type :=
| Null
| Bool (b : bool)
| Num (x : Q)
| Str (s : string)
| Arr (items : list t)
| Obj (fields : list (string * t)).

(** [bool(x)], the test of [if x:] and [if not x:] *)
Definition truthy (x : t) : bool :=
  match x with
  | Null => false
  | Bool b => b
  | Num q => negb (Qeq_bool q 0)
  | Str s => negb (bool_decide (s = ""))
  | Arr items => negb (bool_decide (items = []))
  | Obj fields => negb (bool_decide (fields = []))
  end.

Fixpoint lookup_field (name : string) (fields : list (string * t)) : option t :=
  match fields with
  | [] => None
  | (n, v) :: fields' =>
      if decide (name = n) then Some v else lookup_field name fields'
  end.

(** [x[0]] *)
Definition index0 (x : t) : outcome t :=
  match x with
  | Arr (item :: _) => Ok item
  | Arr [] => Raise IndexError
  | Str (String c _) => Ok (Str (String c EmptyString))
  | Str EmptyString => Raise IndexError
  | Obj _ => Raise KeyError
  | _ => Raise TypeError
  end.

(** [x[name]] for a string [name] *)
Definition item (x : t) (name : string) : outcome t :=
  match x with
  | Obj fields =>
      match lookup_field name fields with
      | Some v => Ok v
      | None => Raise KeyError
      end
  | _ => Raise TypeError
  end.

(** [x.get(name, dflt)] *)
Definition get (x : t) (name : string) (dflt : t) : outcome t :=
  match x with
  | Obj fields => Ok (default dflt (lookup_field name fields))
  | _ => Raise AttributeError
  end.
End Json.

(** ** [class Config] *)

Module Config.
Record t : Type := mk {
  GEOCODE_TTL : Z;
  WEATHER_TTL : Z;
  FORECAST_TTL : Z;
  RATE_LIMIT_RPS : Q;
  RL_WINDOW_SEC : Z;
  MAX_CACHE_ITEMS : Z
}.

(** The values used when the environment sets none, with the second as
    the unit of time *)
Definition default : t :=
  {| GEOCODE_TTL := 3600; WEATHER_TTL := 300; FORECAST_TTL := 900;
     RATE_LIMIT_RPS := 5%Q; RL_WINDOW_SEC := 1; MAX_CACHE_ITEMS := 1000 |}.
End Config.

(** ** The get-or-fetch functions of [weather.py] *)

Module Weather.

(** What [session.get(url, params=...)] followed by
    [response.raise_for_status()] and [response.json()] gives: either a
    [requests.RequestException] (the session has given up, its retries
    included, or the status is an error status), with its text, or the
    decoded body. *)
Inductive response : Type :=
| Failed (text : string)
| Body (data : Json.t).

Record request : Type := mk_request {
  url : string;
  params : list (string * Json.t)
}.

(** The module-level objects of [weather.py] and [utils.py], the clock
    and the network. [net n] is what the [n]-th request sent gets. *)
Record world : Type := mk {
  geocode_cache : TTLCache.t string (Q * Q);
  weather_cache : TTLCache.t string Json.t;
  forecast_cache : TTLCache.t string Json.t;
  rate_limiter : RateLimiter.t;
  clock : Clock.t;
  net : nat → response;
  sent : list request
}.

(** Computations on the world that return or raise *)
Definition M (A : Type) : Type := world → outcome A * world.

Definition ret {A} (a : A) : M A := λ w, (Ok a, w).
Definition raise {A} (e : exn) : M A := λ w, (Raise e, w).
Definition bind {A B} (m : M A) (k : A → M B) : M B :=
  λ w, match m w with
       | (Ok a, w') => k a w'
       | (Raise e, w') => (Raise e, w')
       end.

(** [try: m  except ... as e: handler e]; [handler e = None] when no
    [except] clause matches [e] *)
Definition try_except {A} (m : M A) (handler : exn → option (M A)) : M A :=
  λ w, match m w with
       | (Ok a, w') => (Ok a, w')
       | (Raise e, w') =>
           match handler e with
           | Some h => h w'
           | None => (Raise e, w')
           end
       end.

Definition lift {A} (r : outcome A) : M A := λ w, (r, w).

Declare Scope py_scope.
Delimit Scope py_scope with py.
Notation "x <- m ; k" := (bind m (λ x, k))
  (at level 20, m at level 100, k at level 200, only parsing) : py_scope.
Notation "' pat <- m ; k" := (bind m (λ x, match x with pat => k end))
  (at level 20, pat pattern, m at level 100, k at level 200, only parsing) : py_scope.
Notation "m ;; k" := (bind m (λ _, k))
  (at level 100, k at level 200, right associativity, only parsing) : py_scope.
Local Open Scope py_scope.

(** [str(e)] *)
Definition str_exn (e : exn) : string :=
  match e with
  | KeyError => "KeyError"
  | IndexError => "list index out of range"
  | StopIteration => ""
  | AttributeError => "AttributeError"
  | TypeError => "TypeError"
  | ValueError msg | RequestException msg
  | GeocodingError msg | WeatherAPIError msg => msg
  end.

(** [bool(cached)] for what [TTLCache.get] returned *)
Definition truthy_json (cached : option Json.t) : bool :=
  match cached with
  | None => false
  | Some x => Json.truthy x
  end.

(** [cache.get(key, ttl)]: the clock is read when the key is in the
    ordered map *)
Definition cache_get {V} (c : TTLCache.t string V) (key : string) (ttl : Z)
    (clk : Clock.t) : outcome (option V) * TTLCache.t string V * Clock.t :=
  if OrderedDict.contains key (TTLCache.cache c) then
    let '(now, clk) := Clock.time clk in
    let '(r, c) := TTLCache.get c key ttl now in
    (r, c, clk)
  else
    let '(r, c) := TTLCache.get c key ttl (Clock.now clk) in
    (r, c, clk).

(** [cache.set(key, value, ttl)]: the clock is read unless the eviction
    raised *)
Definition cache_set {V} (c : TTLCache.t string V) (key : string) (value : V)
    (ttl : Z) (clk : Clock.t) : outcome unit * TTLCache.t string V * Clock.t :=
  let '(now, clk') := Clock.time clk in
  match TTLCache.set c key value ttl now with
  | (Raise StopIteration, c) => (Raise StopIteration, c, clk)
  | (r, c) => (r, c, clk')
  end.

Definition geocode_get (key : string) (ttl : Z) : M (option (Q * Q)) :=
  λ w, let '(r, c, clk) := cache_get (geocode_cache w) key ttl (clock w) in
       (r, mk c (weather_cache w) (forecast_cache w) (rate_limiter w) clk
             (net w) (sent w)).

Definition geocode_set (key : string) (value : Q * Q) (ttl : Z) : M unit :=
  λ w, let '(r, c, clk) := cache_set (geocode_cache w) key value ttl (clock w) in
       (r, mk c (weather_cache w) (forecast_cache w) (rate_limiter w) clk
             (net w) (sent w)).

Definition weather_get (key : string) (ttl : Z) : M (option Json.t) :=
  λ w, let '(r, c, clk) := cache_get (weather_cache w) key ttl (clock w) in
       (r, mk (geocode_cache w) c (forecast_cache w) (rate_limiter w) clk
             (net w) (sent w)).

Definition weather_set (key : string) (value : Json.t) (ttl : Z) : M unit :=
  λ w, let '(r, c, clk) := cache_set (weather_cache w) key value ttl (clock w) in
       (r, mk (geocode_cache w) c (forecast_cache w) (rate_limiter w) clk
             (net w) (sent w)).

Definition forecast_get (key : string) (ttl : Z) : M (option Json.t) :=
  λ w, let '(r, c, clk) := cache_get (forecast_cache w) key ttl (clock w) in
       (r, mk (geocode_cache w) (weather_cache w) c (rate_limiter w) clk
             (net w) (sent w)).

Definition forecast_set (key : string) (value : Json.t) (ttl : Z) : M unit :=
  λ w, let '(r, c, clk) := cache_set (forecast_cache w) key value ttl (clock w) in
       (r, mk (geocode_cache w) (weather_cache w) c (rate_limiter w) clk
             (net w) (sent w)).

(** [rate_limiter.wait()] *)
Definition rate_limiter_wait : M unit :=
  λ w, let '(r, l, clk) := RateLimiter.wait (rate_limiter w) (clock w) in
       (r, mk (geocode_cache w) (weather_cache w) (forecast_cache w) l clk
             (net w) (sent w)).

(** [response = session.get(url, params=params, ...)],
    [response.raise_for_status()], [data = response.json()] *)
Definition fetch (u : string) (ps : list (string * Json.t)) : M Json.t :=
  λ w, let w' := mk (geocode_cache w) (weather_cache w) (forecast_cache w)
                    (rate_limiter w) (clock w) (net w)
                    (sent w ++ [mk_request u ps]) in
       match net w (length (sent w)) with
       | Failed text => (Raise (RequestException text), w')
       | Body data => (Ok data, w')
       end.

(** The clauses [except requests.RequestException as e] and
    [except (requests.RequestException, ValueError, IndexError) as e] *)
Definition is_RequestException (e : exn) : bool :=
  match e with RequestException _ => true | _ => false end.

Definition is_Request_Value_Index (e : exn) : bool :=
  match e with
  | RequestException _ | ValueError _ | IndexError => true
  | _ => false
  end.

Section functions.
(** Python's [float(s)] on a string ([None]: [ValueError]) and the
    text of a float in an f-string *)
Variable float_of_str : string → option Q.
Variable str_of_float : Q → string.
Variable cfg : Config.t.

(** [float(x)] *)
Definition float (x : Json.t) : outcome Q :=
  match x with
  | Json.Str s =>
      match float_of_str s with
      | Some q => Ok q
      | None => Raise (ValueError ("could not convert string to float: " +:+ s))
      end
  | Json.Num q => Ok q
  | Json.Bool b => Ok (if b then 1%Q else 0%Q)
  | _ => Raise TypeError
  end.

Definition units_param (metric other : string) (units : string) : Json.t :=
  Json.Str (if decide (units = "metric") then metric else other).

Definition get_coordinates (city : string) : M (Q * Q) :=
  let cache_key := "geo_" +:+ city in
  cached <- geocode_get cache_key (Config.GEOCODE_TTL cfg);
  match cached with
  | Some coords => ret coords   (* [if cached:] a tuple of two items is true *)
  | None =>
      rate_limiter_wait;;
      let params := [("q", Json.Str city); ("format", Json.Str "json");
                     ("limit", Json.Num 1%Q)] in
      try_except
        (data <- fetch "https://nominatim.openstreetmap.org/search" params;
         if negb (Json.truthy data)
         then raise (GeocodingError ("无法找到城市: " +:+ city))
         else
           place <- lift (Json.index0 data);
           lat_item <- lift (Json.item place "lat");
           lat <- lift (float lat_item);
           place <- lift (Json.index0 data);
           lon_item <- lift (Json.item place "lon");
           lon <- lift (float lon_item);
           geocode_set cache_key (lat, lon) (Config.GEOCODE_TTL cfg);;
           ret (lat, lon))
        (λ e, if is_Request_Value_Index e
              then Some (raise (GeocodingError ("获取城市坐标失败: " +:+ str_exn e)))
              else None)
  end.

Definition get_current_weather (lat lon : Q) (units : string) : M Json.t :=
  let cache_key :=
    "weather_" +:+ str_of_float lat +:+ "_" +:+ str_of_float lon
               +:+ "_" +:+ units in
  cached <- weather_get cache_key (Config.WEATHER_TTL cfg);
  if truthy_json cached then ret (default Json.Null cached)
  else
    rate_limiter_wait;;
    let params :=
      [("latitude", Json.Num lat); ("longitude", Json.Num lon);
       ("current_weather", Json.Str "true");
       ("temperature_unit", units_param "celsius" "fahrenheit" units);
       ("windspeed_unit", units_param "kmh" "mph" units)] in
    try_except
      (data <- fetch "https://api.open-meteo.com/v1/forecast" params;
       weather_data <- lift (Json.get data "current_weather" (Json.Obj []));
       weather_set cache_key weather_data (Config.WEATHER_TTL cfg);;
       ret weather_data)
      (λ e, if is_RequestException e
            then Some (raise (WeatherAPIError ("获取天气数据失败: " +:+ str_exn e)))
            else None).

Definition get_weather_forecast (lat lon : Q) (days : Z) (units : string) : M Json.t :=
  let cache_key :=
    "forecast_" +:+ str_of_float lat +:+ "_" +:+ str_of_float lon
                +:+ "_" +:+ pretty days +:+ "_" +:+ units in
  cached <- forecast_get cache_key (Config.FORECAST_TTL cfg);
  if truthy_json cached then ret (default Json.Null cached)
  else
    rate_limiter_wait;;
    let params :=
      [("latitude", Json.Num lat); ("longitude", Json.Num lon);
       ("forecast_days", Json.Num (inject_Z days));
       ("daily", Json.Arr [Json.Str "temperature_2m_max";
                           Json.Str "temperature_2m_min";
                           Json.Str "weathercode"]);
       ("hourly", Json.Arr [Json.Str "temperature_2m"; Json.Str "weathercode";
                            Json.Str "windspeed_10m";
                            Json.Str "relativehumidity_2m"]);
       ("temperature_unit", units_param "celsius" "fahrenheit" units);
       ("windspeed_unit", units_param "kmh" "mph" units)] in
    try_except
      (data <- fetch "https://api.open-meteo.com/v1/forecast" params;
       forecast_set cache_key data (Config.FORECAST_TTL cfg);;
       ret data)
      (λ e, if is_RequestException e
            then Some (raise (WeatherAPIError ("获取天气预报失败: " +:+ str_exn e)))
            else None).
End functions.

(** The world at import time: empty caches and limiter *)
Definition init (cfg : Config.t) (clk : Clock.t) (n : nat → response) : world :=
  {| geocode_cache := TTLCache.init (Config.MAX_CACHE_ITEMS cfg);
     weather_cache := TTLCache.init (Config.MAX_CACHE_ITEMS cfg);
     forecast_cache := TTLCache.init (Config.MAX_CACHE_ITEMS cfg);
     rate_limiter := RateLimiter.init (Config.RATE_LIMIT_RPS cfg)
                                      (Config.RL_WINDOW_SEC cfg);
     clock := clk; net := n; sent := [] |}.
End Weather.

(** ** [class WeatherCodeTranslator] of [common.py] *)

Module WeatherCodeTranslator.

(** A [dict] literal, as the list of its items *)
Fixpoint dict_get {K : Type} `{EqDecision K} {V : Type}
    (key : K) (d : list (K * V)) : option V :=
  match d with
  | [] => None
  | (k, v) :: d' => if decide (key = k) then Some v else dict_get key d'
  end.

Definition WEATHER_CODES : list (Z * string) :=
  [(0, "Clear sky"); (1, "Mainly clear"); (2, "Partly cloudy"); (3, "Overcast");
   (45, "Fog"); (48, "Depositing rime fog");
   (51, "Light drizzle"); (53, "Moderate drizzle"); (55, "Dense drizzle");
   (56, "Light freezing drizzle"); (57, "Dense freezing drizzle");
   (61, "Slight rain"); (63, "Moderate rain"); (65, "Heavy rain");
   (66, "Light freezing rain"); (67, "Heavy freezing rain");
   (71, "Slight snow fall"); (73, "Moderate snow fall"); (75, "Heavy snow fall");
   (77, "Snow grains");
   (80, "Slight rain showers"); (81, "Moderate rain showers");
   (82, "Violent rain showers");
   (85, "Slight snow showers"); (86, "Heavy snow showers");
   (95, "Thunderstorm"); (96, "Thunderstorm with slight hail");
   (99, "Thunderstorm with heavy hail")].

Definition TRANSLATIONS : list (string * list (Z * string)) :=
  [("zh",
    [(0, "晴空"); (1, "多云转晴"); (2, "多云"); (3, "阴");
     (45, "雾"); (48, "霜雾");
     (51, "小毛毛雨"); (53, "中毛毛雨"); (55, "大毛毛雨");
     (56, "小冻雨"); (57, "大冻雨");
     (61, "小雨"); (63, "中雨"); (65, "大雨");
     (66, "小冻雨"); (67, "大冻雨");
     (71, "小雪"); (73, "中雪"); (75, "大雪"); (77, "米雪");
     (80, "小阵雨"); (81, "中阵雨"); (82, "大阵雨");
     (85, "小阵雪"); (86, "大阵雪");
     (95, "雷暴"); (96, "雷暴伴小冰雹"); (99, "雷暴伴大冰雹")])].

(** The integer a decoded value is equal to, which is what the lookup of
    the value in a [dict] with integer keys goes by: a number without
    fractional part, [True] as [1] and [False] as [0]; [None] for a
    value equal to no integer; a list or a dict is unhashable. *)
Definition int_key (code : Json.t) : outcome (option Z) :=
  match code with
  | Json.Num q =>
      Ok (if decide (Z.rem (Qnum q) (Z.pos (Qden q)) = 0)
          then Some (Qnum q ÷ Z.pos (Qden q)) else None)
  | Json.Bool b => Ok (Some (if b then 1 else 0))
  | Json.Null | Json.Str _ => Ok None
  | Json.Arr _ | Json.Obj _ => Raise TypeError
  end.

Section format.
(** [str(x)] for a decoded value that is not a string *)
Variable str_of_json : Json.t → string.

(** [f"{x}"] *)
Definition fstr (x : Json.t) : string :=
  match x with
  | Json.Str s => s
  | _ => str_of_json x
  end.

(** [get_weather_text(code, language)] *)
Definition get_weather_text (code : Json.t) (language : string) : outcome string :=
  let translated :=
    (* [language in cls.TRANSLATIONS and code in cls.TRANSLATIONS[language]] *)
    match dict_get language TRANSLATIONS with
    | None => Ok None
    | Some table =>
        match int_key code with
        | Raise e => Raise e
        | Ok None => Ok None
        | Ok (Some z) => Ok (dict_get z table)
        end
    end in
  match translated with
  | Raise e => Raise e
  | Ok (Some text) => Ok text
  | Ok None =>
      let unknown := "Unknown code " +:+ fstr code in
      match int_key code with
      | Raise e => Raise e
      | Ok None => Ok unknown
      | Ok (Some z) => Ok (default unknown (dict_get z WEATHER_CODES))
      end
  end.
End format.
End WeatherCodeTranslator.

(** ** The report functions of [weather.py] *)

Module WeatherReport.
Import Weather.
Local Open Scope py_scope.

(** The line feed of ["\n"] *)
Definition nl : string := String (Ascii.ascii_of_nat 10) EmptyString.

Section functions.
Variable float_of_str : string → option Q.
Variable str_of_float : Q → string.
Variable str_of_json : Json.t → string.
Variable cfg : Config.t.

(** [format_weather_report(weather_data, city, language)] *)
Definition format_weather_report (weather_data : Json.t) (city language : string)
    : outcome string :=
  match Json.get weather_data "temperature" (Json.Str "N/A") with
  | Raise e => Raise e
  | Ok temperature =>
  match Json.get weather_data "weathercode" (Json.Num 0) with
  | Raise e => Raise e
  | Ok weather_code =>
  match Json.get weather_data "windspeed" (Json.Str "N/A") with
  | Raise e => Raise e
  | Ok windspeed =>
  match Json.get weather_data "winddirection" (Json.Str "N/A") with
  | Raise e => Raise e
  | Ok winddirection =>
  match WeatherCodeTranslator.get_weather_text str_of_json weather_code language with
  | Raise e => Raise e
  | Ok weather_text =>
      let f := WeatherCodeTranslator.fstr str_of_json in
      if decide (language = "zh") then
        Ok (city +:+ "的当前天气:" +:+ nl
            +:+ "- 温度: " +:+ f temperature +:+ "°" +:+ nl
            +:+ "- 天气状况: " +:+ weather_text +:+ nl
            +:+ "- 风速: " +:+ f windspeed +:+ " km/h" +:+ nl
            +:+ "- 风向: " +:+ f winddirection +:+ "°")
      else
        Ok ("Current weather in " +:+ city +:+ ":" +:+ nl
            +:+ "- Temperature: " +:+ f temperature +:+ "°" +:+ nl
            +:+ "- Weather: " +:+ weather_text +:+ nl
            +:+ "- Wind speed: " +:+ f windspeed +:+ " km/h" +:+ nl
            +:+ "- Wind direction: " +:+ f winddirection +:+ "°")
  end end end end end.

(** [get_current_weather_info(city, units, language)]; the [except
    Exception] clause logs and raises the exception again *)
Definition get_current_weather_info (city units language : string) : M string :=
  try_except
    (coords <- get_coordinates float_of_str cfg city;
     weather_data <- get_current_weather str_of_float cfg coords.1 coords.2 units;
     lift (format_weather_report weather_data city language))
    (λ e, Some (raise e)).
End functions.
End WeatherReport.

(** ** [get_timezone] of [time_utils.py] *)

Module TimeUtils.

(** The module-level objects: those of [weather.py] and [utils.py] (the
    limiter, the clock and the network are the same objects) and the
    cache of time zones. *)
Record world : Type := mk {
  base : Weather.world;
  timezone_cache : TTLCache.t string string
}.

Definition M (A : Type) : Type := world → outcome A * world.

Definition ret {A} (a : A) : M A := λ w, (Ok a, w).
Definition bind {A B} (m : M A) (k : A → M B) : M B :=
  λ w, match m w with
       | (Ok a, w') => k a w'
       | (Raise e, w') => (Raise e, w')
       end.
Definition try_except {A} (m : M A) (handler : exn → option (M A)) : M A :=
  λ w, match m w with
       | (Ok a, w') => (Ok a, w')
       | (Raise e, w') =>
           match handler e with
           | Some h => h w'
           | None => (Raise e, w')
           end
       end.
Definition lift {A} (r : outcome A) : M A := λ w, (r, w).

(** A computation on the objects of [weather.py] *)
Definition on_base {A} (m : Weather.M A) : M A :=
  λ w, let '(r, b) := m (base w) in (r, mk b (timezone_cache w)).

Definition with_clock (b : Weather.world) (clk : Clock.t) : Weather.world :=
  Weather.mk (Weather.geocode_cache b) (Weather.weather_cache b)
    (Weather.forecast_cache b) (Weather.rate_limiter b) clk
    (Weather.net b) (Weather.sent b).

Definition timezone_get (key : string) (ttl : Z) : M (option string) :=
  λ w, let '(r, c, clk) :=
         Weather.cache_get (timezone_cache w) key ttl (Weather.clock (base w)) in
       (r, mk (with_clock (base w) clk) c).

Definition timezone_set (key value : string) (ttl : Z) : M unit :=
  λ w, let '(r, c, clk) :=
         Weather.cache_set (timezone_cache w) key value ttl
           (Weather.clock (base w)) in
       (r, mk (with_clock (base w) clk) c).

Notation "x <- m ; k" := (bind m (λ x, k))
  (at level 20, m at level 100, k at level 200, only parsing) : py_scope.
Notation "m ;; k" := (bind m (λ _, k))
  (at level 100, k at level 200, right associativity, only parsing) : py_scope.
Local Open Scope py_scope.

(** [round(x)] of a float: the nearest integer, the even one of the two
    when [x] is half-way *)
Definition round (x : Q) : Z :=
  let n := Qnum x in
  let d := Z.pos (Qden x) in
  let floor := n `div` d in
  let rest := n `mod` d in
  if bool_decide (2 * rest < d) then floor
  else if bool_decide (2 * rest > d) then floor + 1
  else if Z.even floor then floor else floor + 1.

(** [estimated_offset = round(lon / 15)] and
    [f"Etc/GMT{'-' if estimated_offset > 0 else '+'}{abs(estimated_offset)}"].
    The quotient of the two floats is a half-integer only when the exact
    quotient is, so it rounds as the exact quotient does. *)
Definition estimated_offset (lon : Q) : Z := round (lon / 15)%Q.

Definition estimated_timezone (lon : Q) : string :=
  "Etc/GMT" +:+ (if bool_decide (estimated_offset lon > 0) then "-" else "+")
            +:+ pretty (Z.abs (estimated_offset lon)).

(** [bool(cached)] for what the cache of time zones returned *)
Definition truthy_str (cached : option string) : bool :=
  match cached with
  | None => false
  | Some s => negb (bool_decide (s = ""))
  end.

Section functions.
Variable str_of_float : Q → string.
(** [pytz.all_timezones] *)
Variable all_timezones : list string.

Definition get_timezone (lat lon : Q) : M string :=
  let cache_key := "tz_" +:+ str_of_float lat +:+ "_" +:+ str_of_float lon in
  cached <- timezone_get cache_key 3600;
  if truthy_str cached then ret (default "" cached)
  else
    on_base Weather.rate_limiter_wait;;
    let params :=
      [("latitude", Json.Num lat); ("longitude", Json.Num lon);
       ("timezone", Json.Str "auto");
       ("hourly", Json.Arr [Json.Str "temperature_2m"]);
       ("forecast_days", Json.Num 1%Q)] in
    try_except
      (data <- on_base (Weather.fetch "https://api.open-meteo.com/v1/forecast" params);
       timezone <- lift (Json.get data "timezone" (Json.Str "UTC"));
       let timezone :=
         (* [if timezone not in pytz.all_timezones:] *)
         match timezone with
         | Json.Str s =>
             if bool_decide (s ∈ all_timezones) then s else estimated_timezone lon
         | _ => estimated_timezone lon
         end in
       timezone_set cache_key timezone 3600;;
       ret timezone)
      (λ e, if Weather.is_RequestException e
            then Some (ret (estimated_timezone lon))
            else None).
End functions.
End TimeUtils.

(** ** The forecast report of [weather.py] *)

Module ForecastReport.
Import Weather.
Local Open Scope py_scope.

(** Sequencing of results that may be exceptions *)
Definition and_then {A B : Type} (r : outcome A) (k : A → outcome B) : outcome B :=
  match r with
  | Ok a => k a
  | Raise e => Raise e
  end.

Notation "x <~ r ; k" := (and_then r (λ x, k))
  (at level 20, r at level 100, k at level 200, only parsing) : py_scope.

Section functions.
Variable float_of_str : string → option Q.
Variable str_of_float : Q → string.
Variable str_of_json : Json.t → string.
Variable cfg : Config.t.
(** The characters of a [str], each one as a [str] *)
Variable chars : string → list string.
(** [datetime.fromisoformat] and [strftime] *)
Variable datetime : Type.
Variable fromisoformat : Json.t → outcome datetime.
Variable strftime : datetime → string → string.

(** [len(x)]; the fields of an object are the items of the [dict], each
    key once *)
Definition len (x : Json.t) : outcome Z :=
  match x with
  | Json.Arr items => Ok (Z.of_nat (length items))
  | Json.Str s => Ok (Z.of_nat (length (chars s)))
  | Json.Obj fields => Ok (Z.of_nat (length fields))
  | _ => Raise TypeError
  end.

(** What [for ... in x] goes through *)
Definition iter (x : Json.t) : outcome (list Json.t) :=
  match x with
  | Json.Arr items => Ok items
  | Json.Str s => Ok (Json.Str <$> chars s)
  | Json.Obj fields => Ok ((λ f, Json.Str f.1) <$> fields)
  | _ => Raise TypeError
  end.

(** [x[i]] for an integer [0 <= i] *)
Definition index (x : Json.t) (i : Z) : outcome Json.t :=
  match x with
  | Json.Arr items =>
      match items !! Z.to_nat i with
      | Some v => Ok v
      | None => Raise IndexError
      end
  | Json.Str s =>
      match chars s !! Z.to_nat i with
      | Some c => Ok (Json.Str c)
      | None => Raise IndexError
      end
  | Json.Obj _ => Raise KeyError
  | _ => Raise TypeError
  end.

(** [xs[i] if i < len(xs) else dflt] *)
Definition index_or (xs : Json.t) (i : Z) (dflt : Json.t) : outcome Json.t :=
  n <~ len xs;
  if bool_decide (i < n) then index xs i else Ok dflt.

(** One round of the loop of [format_forecast_report]: what it adds to
    the report *)
Definition day_block (temperatures_max temperatures_min weathercodes : Json.t)
    (language : string) (i : Z) (date_str : Json.t) : outcome string :=
  date <~ fromisoformat date_str;
  max_temp <~ index_or temperatures_max i (Json.Str "N/A");
  min_temp <~ index_or temperatures_min i (Json.Str "N/A");
  weather_code <~ index_or weathercodes i (Json.Num 0);
  weather_text <~ WeatherCodeTranslator.get_weather_text str_of_json
                    weather_code language;
  let f := WeatherCodeTranslator.fstr str_of_json in
  if decide (language = "zh") then
    Ok (strftime date "%Y年%m月%d日" +:+ ":" +:+ WeatherReport.nl
        +:+ "  - 最高温度: " +:+ f max_temp +:+ "°" +:+ WeatherReport.nl
        +:+ "  - 最低温度: " +:+ f min_temp +:+ "°" +:+ WeatherReport.nl
        +:+ "  - 天气状况: " +:+ weather_text +:+ WeatherReport.nl
        +:+ WeatherReport.nl)
  else
    Ok (strftime date "%B %d, %Y" +:+ ":" +:+ WeatherReport.nl
        +:+ "  - High: " +:+ f max_temp +:+ "°" +:+ WeatherReport.nl
        +:+ "  - Low: " +:+ f min_temp +:+ "°" +:+ WeatherReport.nl
        +:+ "  - Weather: " +:+ weather_text +:+ WeatherReport.nl
        +:+ WeatherReport.nl).

(** [for i, date_str in enumerate(dates): ... report += ...], from the
    index [i] on *)
Fixpoint day_blocks (temperatures_max temperatures_min weathercodes : Json.t)
    (language : string) (i : Z) (dates : list Json.t) (report : string)
    : outcome string :=
  match dates with
  | [] => Ok report
  | date_str :: dates' =>
      block <~ day_block temperatures_max temperatures_min weathercodes
                 language i date_str;
      day_blocks temperatures_max temperatures_min weathercodes language
        (i + 1) dates' (report +:+ block)
  end.

(** [format_forecast_report(forecast_data, city, language)] *)
Definition format_forecast_report (forecast_data : Json.t) (city language : string)
    : outcome string :=
  daily <~ Json.get forecast_data "daily" (Json.Obj []);
  temperatures_max <~ Json.get daily "temperature_2m_max" (Json.Arr []);
  temperatures_min <~ Json.get daily "temperature_2m_min" (Json.Arr []);
  weathercodes <~ Json.get daily "weathercode" (Json.Arr []);
  dates <~ Json.get daily "time" (Json.Arr []);
  n <~ len dates;
  let report :=
    if decide (language = "zh")
    then city +:+ "的" +:+ pretty n +:+ "天天气预报:"
         +:+ WeatherReport.nl +:+ WeatherReport.nl
    else pretty n +:+ "-day weather forecast for " +:+ city +:+ ":"
         +:+ WeatherReport.nl +:+ WeatherReport.nl in
  days <~ iter dates;
  day_blocks temperatures_max temperatures_min weathercodes language 0 days report.

(** [get_weather_forecast_info(city, days, units, language)]; the
    [except Exception] clause logs and raises the exception again *)
Definition get_weather_forecast_info (city : string) (days : Z)
    (units language : string) : M string :=
  try_except
    (coords <- get_coordinates float_of_str cfg city;
     forecast_data <- get_weather_forecast str_of_float cfg coords.1 coords.2
                        days units;
     lift (format_forecast_report forecast_data city language))
    (λ e, Some (raise e)).
End functions.
End ForecastReport.

(** ** [get_local_time] and [get_local_time_info] of [time_utils.py] *)

Module TimeReport.
Import TimeUtils.
Local Open Scope py_scope.

Section functions.
Variable float_of_str : string → option Q.
Variable str_of_float : Q → string.
Variable cfg : Config.t.
Variable all_timezones : list string.
(** [pytz.timezone] ([None] for [UnknownTimeZoneError]), [pytz.UTC], and
    [datetime.now(tz)] at an instant of the clock *)
Variable tzinfo : Type.
Variable datetime : Type.
Variable timezone : string → option tzinfo.
Variable UTC : tzinfo.
Variable now : Z → tzinfo → datetime.
(** [format_time_report(local_time, city, language)] *)
Variable format_time_report : datetime → string → string → string.

(** [get_local_time(timezone_str)] *)
Definition get_local_time (timezone_str : string) : M datetime :=
  λ w, let instant := Clock.now (Weather.clock (base w)) in
       match timezone timezone_str with
       | Some tz => (Ok (now instant tz), w)
       | None => (Ok (now instant UTC), w)
       end.

(** [get_local_time_info(city, language)]; the [except Exception] clause
    logs and raises the exception again *)
Definition get_local_time_info (city language : string) : M string :=
  try_except
    (coords <- on_base (Weather.get_coordinates float_of_str cfg city);
     timezone_str <- get_timezone str_of_float all_timezones coords.1 coords.2;
     local_time <- get_local_time timezone_str;
     ret (format_time_report local_time city language))
    (λ e, Some (lift (Raise e))).
End functions.
End TimeReport.

(** * Vocabulary of the properties *)

(** The Python class of an exception *)
Definition class_of (e : exn) : string :=
  match e with
  | KeyError => "KeyError"
  | IndexError => "IndexError"
  | StopIteration => "StopIteration"
  | AttributeError => "AttributeError"
  | TypeError => "TypeError"
  | ValueError _ => "ValueError"
  | RequestException _ => "RequestException"
  | GeocodingError _ => "GeocodingError"
  | WeatherAPIError _ => "WeatherAPIError"
  end.

(** ** The cache *)

Section TTLCache_vocabulary.
Context {K : Type} `{Countable K} {V : Type}.
Implicit Types (c : TTLCache.t K V) (k key : K) (v value : V).
Implicit Types (ttl now : Z) (o : TTLCache.op K V).

(** The state a [set] leaves when it starts from [c1], which is the cache
    itself or the cache without its oldest key. *)
Definition written c c1 key value ttl now : TTLCache.t K V :=
  {| TTLCache.max_items := TTLCache.max_items c;
     TTLCache.cache :=
       OrderedDict.delitem key (TTLCache.cache c1) ++ [(key, value)];
     TTLCache.expirations := <[key := now + ttl]> (TTLCache.expirations c1) |}.

(** The ordered map and the expiration map track the same keys. *)
Definition consistent c : Prop :=
  list_to_set (TTLCache.keys c) =@{gset K} dom (TTLCache.expirations c).

(** The call is on the key [k], or on all keys *)
Definition concerns (k : K) (o : TTLCache.op K V) : Prop :=
  match o with
  | TTLCache.Get key _ _ => key = k
  | TTLCache.Set_ key _ _ _ => key = k
  | TTLCache.Clear => True
  end.

(** The cache holds the entry of [k] with value [v] and expiry [e]. *)
Definition holds (c : TTLCache.t K V) (k : K) (v : V) (e : Z) : Prop :=
  OrderedDict.getitem k (TTLCache.cache c) = Some v
  ∧ TTLCache.expirations c !! k = Some e.

(** No key is twice in the ordered map, and the capacity is respected. *)
Definition bounded c : Prop :=
  NoDup (TTLCache.keys c) ∧ TTLCache.size c ≤ TTLCache.max_items c.

(** To say what "least recently used" means, the calls are numbered and
    each key remembers the number of the last call that used it: a [set]
    that returned or a [get] that returned a value. *)
Definition touched c o : option K :=
  match o with
  | TTLCache.Get key ttl now =>
      match (TTLCache.get c key ttl now).1 with
      | Ok (Some _) => Some key
      | _ => None
      end
  | TTLCache.Set_ key value ttl now =>
      match (TTLCache.set c key value ttl now).1 with
      | Ok _ => Some key
      | Raise _ => None
      end
  | TTLCache.Clear => None
  end.

Record tracked : Type := mk_tracked {
  state : TTLCache.t K V;
  tick : nat;
  used : gmap K nat
}.

Definition track_step (s : tracked) o : tracked :=
  {| state := TTLCache.step (state s) o;
     tick := S (tick s);
     used := match touched (state s) o with
             | Some key => <[key := tick s]> (used s)
             | None => used s
             end |}.

Definition track (n : Z) (ops : list (TTLCache.op K V)) : tracked :=
  foldl track_step {| state := TTLCache.init n; tick := 0; used := ∅ |} ops.

(** [k1] was last used before [k2] *)
Definition older (u : gmap K nat) (k1 k2 : K) : Prop :=
  ∃ t1 t2, u !! k1 = Some t1 ∧ u !! k2 = Some t2 ∧ (t1 < t2)%nat.

(** The ordered map lists its keys from the least to the most recently
    used. *)
Definition by_recency (s : tracked) : Prop :=
  StronglySorted (older (used s)) (TTLCache.keys (state s))
  ∧ ∀ k, k ∈ TTLCache.keys (state s) → ∃ t, used s !! k = Some t ∧ (t < tick s)%nat.
End TTLCache_vocabulary.

Arguments tracked K {_ _} V.

(** ** The rate limiter *)

(** What the deque [ev] and the history [hist] of admissions satisfy at
    time [now]: the deque is the end of the history, what is no longer in
    the deque is older than the window, nothing is in the future, the
    deque is in the order of time, and no closed window of width [w] holds
    more than [m] admissions. *)
Definition window_inv (m w : Z) (ev : list Z) (now : Z) (hist : list Z) : Prop :=
  (∃ old, hist = old ++ ev ∧ Forall (λ e, e < now - w) old)
  ∧ Forall (λ e, e ≤ now) hist
  ∧ StronglySorted Z.le ev
  ∧ ∀ τ, RateLimiter.count_in (τ - w) τ hist ≤ m.

(** The fields that calls do not change, and the invariant *)
Definition admitting (q : Q) (w : Z) (lt : nat → Z) (s : RateLimiter.session) : Prop :=
  RateLimiter.rps (RateLimiter.limiter s) = q
  ∧ RateLimiter.window_sec (RateLimiter.limiter s) = w
  ∧ Clock.lat (RateLimiter.clock s) = lt
  ∧ RateLimiter.raised s = []
  ∧ window_inv (RateLimiter.int q) w
      (RateLimiter.events (RateLimiter.limiter s))
      (Clock.now (RateLimiter.clock s)) (RateLimiter.admitted s).

(** ** The get-or-fetch functions *)

(** The limiter is switched off or lets at least one event per window
    through. *)
Definition limiter_admits (w : Weather.world) : Prop :=
  (RateLimiter.rps (Weather.rate_limiter w) <= 0)%Q
  ∨ (1 <= RateLimiter.rps (Weather.rate_limiter w))%Q.

(** Every entry of [c'] is an entry of [c]. *)
Definition nothing_new {V : Type} (c c' : TTLCache.t string V) : Prop :=
  ∀ k v, OrderedDict.getitem k (TTLCache.cache c') = Some v →
         OrderedDict.getitem k (TTLCache.cache c) = Some v.

(** The call returned without sending a request or touching the limiter. *)
Definition served_from_cache {A : Type} (w : Weather.world)
    (res : outcome A * Weather.world) : Prop :=
  (∃ a, res.1 = Ok a)
  ∧ Weather.sent res.2 = Weather.sent w
  ∧ Weather.rate_limiter res.2 = Weather.rate_limiter w.

(** The call sent one request and raised [e]; its cache (the one [proj]
    selects) is what the lookup of [key] left: nothing is written. *)
Definition failed_without_write {A V : Type}
    (proj : Weather.world → TTLCache.t string V) (key : string) (e : exn)
    (w : Weather.world) (res : outcome A * Weather.world) : Prop :=
  res.1 = Raise e
  ∧ length (Weather.sent res.2) = S (length (Weather.sent w))
  ∧ (∃ ttl now, proj res.2 = (TTLCache.get (proj w) key ttl now).2)
  ∧ nothing_new (proj w) (proj res.2)
  ∧ (key ∉ TTLCache.keys (proj w) → proj res.2 = proj w).

(** ** Concrete worlds for the scenarios *)

(** Stand-ins for Python's [float(s)] and float formatting, enough to run
    the functions on the inputs of the scenarios. *)
Definition sample_float_of_str (s : string) : option Q :=
  if decide (s = "48.85") then Some (4885 # 100)%Q
  else if decide (s = "2.35") then Some (235 # 100)%Q
  else None.

Definition sample_str_of_float (x : Q) : string :=
  pretty (Qnum x) +:+ "/" +:+ pretty (Z.pos (Qden x)).

(** A weather service that answers 200 with a body that has no
    ["current_weather"] field *)
Definition net_no_current_weather (n : nat) : Weather.response :=
  Weather.Body (Json.Obj [("latitude", Json.Num (4885 # 100)%Q)]).

(** A geocoding service that answers the first request and is down
    afterwards *)
Definition net_one_answer (n : nat) : Weather.response :=
  match n with
  | O => Weather.Body
           (Json.Arr [Json.Obj [("lat", Json.Str "48.85"); ("lon", Json.Str "2.35")]])
  | S _ => Weather.Failed "timeout"
  end.

(** A clock on which the first three calls take one second each and the
    later ones five thousand *)
Definition slow_after_three (i : nat) : Z := if (i <? 3)%nat then 1 else 5000.

(** What holds of a session on a clock that never runs backwards: the
    limiter keeps its window, timestamps are in the past and the history
    is in the order of time, and every sleep was positive and at most one
    window long. *)
Definition timely (w : Z) (lt : nat → Z) (s : RateLimiter.session) : Prop :=
  RateLimiter.window_sec (RateLimiter.limiter s) = w
  ∧ Clock.lat (RateLimiter.clock s) = lt
  ∧ Forall (λ e, e ≤ Clock.now (RateLimiter.clock s))
      (RateLimiter.events (RateLimiter.limiter s))
  ∧ Forall (λ e, e ≤ Clock.now (RateLimiter.clock s)) (RateLimiter.admitted s)
  ∧ StronglySorted Z.le (RateLimiter.admitted s)
  ∧ Forall (λ d, 0 < d ≤ w) (Clock.slept (RateLimiter.clock s)).

(** What one get-or-fetch call may do to the world besides its own cache:
    it sends nothing, or it sends one request to [u] after the limiter
    has let it through. *)
Definition at_most_one_request {A : Type} (u : string) (w : Weather.world)
    (res : outcome A * Weather.world) : Prop :=
  Weather.net res.2 = Weather.net w
  ∧ (Weather.sent res.2 = Weather.sent w
     ∨ ∃ ps clk l clk',
         Weather.sent res.2 = Weather.sent w ++ [Weather.mk_request u ps]
         ∧ RateLimiter.wait (Weather.rate_limiter w) clk = (Ok (), l, clk')
         ∧ Weather.rate_limiter res.2 = l).


(** The calls a client makes on [weather.py], and what a sequence of them
    raises and leaves *)
Inductive api_call : Type :=
| Coordinates (city : string)
| Current_weather (lat lon : Q) (units : string)
| Forecast (lat lon : Q) (days : Z) (units : string).

Definition raised_by {A : Type} (r : outcome A) : option exn :=
  match r with
  | Ok _ => None
  | Raise e => Some e
  end.

Definition perform (float_of_str : string → option Q) (str_of_float : Q → string)
    (cfg : Config.t) (c : api_call) (w : Weather.world) : option exn * Weather.world :=
  match c with
  | Coordinates city =>
      let res := Weather.get_coordinates float_of_str cfg city w in
      (raised_by res.1, res.2)
  | Current_weather lat lon units =>
      let res := Weather.get_current_weather str_of_float cfg lat lon units w in
      (raised_by res.1, res.2)
  | Forecast lat lon days units =>
      let res := Weather.get_weather_forecast str_of_float cfg lat lon days units w in
      (raised_by res.1, res.2)
  end.

Fixpoint perform_all (float_of_str : string → option Q) (str_of_float : Q → string)
    (cfg : Config.t) (cs : list api_call) (w : Weather.world)
    : list (option exn) * Weather.world :=
  match cs with
  | [] => ([], w)
  | c :: cs' =>
      let '(r, w1) := perform float_of_str str_of_float cfg c w in
      let '(rs, w2) := perform_all float_of_str str_of_float cfg cs' w1 in
      (r :: rs, w2)
  end.

(** The addresses of the two services *)
Definition geocoder_url : string := "https://nominatim.openstreetmap.org/search".
Definition weather_url : string := "https://api.open-meteo.com/v1/forecast".

(** A stand-in for Python's [str] on decoded values, enough for the
    scenarios *)
Definition sample_str_of_json (x : Json.t) : string :=
  match x with
  | Json.Null => "None"
  | Json.Bool true => "True"
  | Json.Bool false => "False"
  | Json.Num q => sample_str_of_float q
  | Json.Str s => s
  | Json.Arr _ => "[...]"
  | Json.Obj _ => "{...}"
  end.





(** The first line of a forecast report for [n] days *)
Definition forecast_header (city language : string) (n : Z) : string :=
  if decide (language = "zh")
  then city +:+ "的" +:+ pretty n +:+ "天天气预报:"
       +:+ WeatherReport.nl +:+ WeatherReport.nl
  else pretty n +:+ "-day weather forecast for " +:+ city +:+ ":"
       +:+ WeatherReport.nl +:+ WeatherReport.nl.

(** The lines of one day of a forecast report *)
Definition forecast_day (language date_zh date_en max_temp min_temp weather_text : string)
    : string :=
  if decide (language = "zh") then
    date_zh +:+ ":" +:+ WeatherReport.nl
    +:+ "  - 最高温度: " +:+ max_temp +:+ "°" +:+ WeatherReport.nl
    +:+ "  - 最低温度: " +:+ min_temp +:+ "°" +:+ WeatherReport.nl
    +:+ "  - 天气状况: " +:+ weather_text +:+ WeatherReport.nl
    +:+ WeatherReport.nl
  else
    date_en +:+ ":" +:+ WeatherReport.nl
    +:+ "  - High: " +:+ max_temp +:+ "°" +:+ WeatherReport.nl
    +:+ "  - Low: " +:+ min_temp +:+ "°" +:+ WeatherReport.nl
    +:+ "  - Weather: " +:+ weather_text +:+ WeatherReport.nl
    +:+ WeatherReport.nl.

(** * Properties *)

(** ** Facts about the ordered dictionary *)

Section OrderedDict_facts.
Context {K : Type} `{EqDecision K} {V : Type}.
Implicit Types (d : list (K * V)) (k key : K) (v : V).

Lemma contains_true key d : OrderedDict.contains key d = true ↔ key ∈ d.*1.
Proof. unfold OrderedDict.contains. apply bool_decide_eq_true. Qed.

Lemma contains_false key d : OrderedDict.contains key d = false ↔ key ∉ d.*1.
Proof. unfold OrderedDict.contains. apply bool_decide_eq_false. Qed.

Lemma keys_delitem key d :
  (OrderedDict.delitem key d).*1 = filter (λ k, k ≠ key) d.*1.
Proof.
  unfold OrderedDict.delitem. induction d as [|[k v] d IH]; [done|].
  rewrite fmap_cons; simpl. rewrite !filter_cons; simpl.
  repeat case_decide; try done; csimpl; by rewrite IH.
Qed.

Lemma delitem_absent key d : key ∉ d.*1 → OrderedDict.delitem key d = d.
Proof.
  unfold OrderedDict.delitem. induction d as [|[k v] d IH]; [done|].
  rewrite fmap_cons, not_elem_of_cons; simpl. intros [Hne Hd].
  rewrite filter_cons_True by (simpl; congruence). by rewrite IH.
Qed.

Lemma not_elem_of_keys_delitem key d : key ∉ (OrderedDict.delitem key d).*1.
Proof. rewrite keys_delitem, list_elem_of_filter. tauto. Qed.

Lemma elem_of_keys_delitem k key d :
  k ∈ (OrderedDict.delitem key d).*1 ↔ k ≠ key ∧ k ∈ d.*1.
Proof. by rewrite keys_delitem, list_elem_of_filter. Qed.

Lemma delitem_app key d1 d2 :
  OrderedDict.delitem key (d1 ++ d2) =
  OrderedDict.delitem key d1 ++ OrderedDict.delitem key d2.
Proof. apply filter_app. Qed.

Lemma delitem_idemp key d :
  OrderedDict.delitem key (OrderedDict.delitem key d) = OrderedDict.delitem key d.
Proof. apply delitem_absent, not_elem_of_keys_delitem. Qed.

Lemma getitem_None key d : OrderedDict.getitem key d = None ↔ key ∉ d.*1.
Proof.
  induction d as [|[k v] d IH]; simpl.
  - split; [intros _; apply not_elem_of_nil|done].
  - rewrite not_elem_of_cons. destruct (decide (key = k)); [|tauto].
    split; [done|tauto].
Qed.

Lemma getitem_is_Some key d : is_Some (OrderedDict.getitem key d) ↔ key ∈ d.*1.
Proof.
  rewrite <-not_eq_None_Some, getitem_None.
  split; [apply dec_stable|tauto].
Qed.

Lemma getitem_app_last key v d :
  key ∉ d.*1 → OrderedDict.getitem key (d ++ [(key, v)]) = Some v.
Proof.
  induction d as [|[k v'] d IH]; simpl.
  - intros _. by rewrite decide_True.
  - rewrite not_elem_of_cons. intros [Hne Hd]. rewrite decide_False by done. auto.
Qed.

Lemma getitem_app_other k key v d :
  k ≠ key → OrderedDict.getitem k (d ++ [(key, v)]) = OrderedDict.getitem k d.
Proof.
  intros Hne. induction d as [|[k' v'] d IH]; simpl.
  - by rewrite decide_False.
  - by rewrite IH.
Qed.

Lemma getitem_delitem_other k key d :
  k ≠ key → OrderedDict.getitem k (OrderedDict.delitem key d) = OrderedDict.getitem k d.
Proof.
  intros Hne. unfold OrderedDict.delitem.
  induction d as [|[k' v'] d IH]; [done|].
  rewrite filter_cons; simpl. destruct (decide (k' ≠ key)) as [Hk|Hk]; simpl.
  - by rewrite IH.
  - apply dec_stable in Hk. subst k'. by rewrite decide_False.
Qed.

Lemma getitem_setitem key v d :
  OrderedDict.getitem key (OrderedDict.setitem key v d) = Some v.
Proof.
  induction d as [|[k v'] d IH]; simpl.
  - by rewrite decide_True.
  - destruct (decide (key = k)) as [->|Hne]; simpl.
    + by rewrite decide_True.
    + by rewrite decide_False.
Qed.

Lemma delitem_setitem key v d :
  OrderedDict.delitem key (OrderedDict.setitem key v d) = OrderedDict.delitem key d.
Proof.
  unfold OrderedDict.delitem. induction d as [|[k v'] d IH]; simpl.
  - by rewrite filter_cons_False by (simpl; tauto).
  - destruct (decide (key = k)) as [->|Hne].
    + by rewrite !filter_cons_False by (simpl; tauto).
    + rewrite !filter_cons_True by (simpl; congruence). by rewrite IH.
Qed.

Lemma move_to_end_setitem key v d :
  OrderedDict.move_to_end key (OrderedDict.setitem key v d)
  = Some (OrderedDict.delitem key d ++ [(key, v)]).
Proof.
  unfold OrderedDict.move_to_end. by rewrite getitem_setitem, delitem_setitem.
Qed.

Lemma delitem_head key v d :
  key ∉ d.*1 → OrderedDict.delitem key ((key, v) :: d) = d.
Proof.
  intros Hd. unfold OrderedDict.delitem.
  rewrite filter_cons_False by (simpl; tauto). by apply delitem_absent.
Qed.

Lemma length_delitem key d :
  NoDup d.*1 → key ∈ d.*1 → S (length (OrderedDict.delitem key d)) = length d.
Proof.
  induction d as [|[k v] d IH]; simpl.
  - intros _ Hin. by apply elem_of_nil in Hin.
  - rewrite NoDup_cons, elem_of_cons. intros [Hk Hd] Hin.
    destruct (decide (key = k)) as [->|Hne].
    + by rewrite delitem_head.
    + unfold OrderedDict.delitem in *.
      rewrite filter_cons_True by (simpl; congruence). simpl.
      rewrite IH; [done..|]. by destruct Hin.
Qed.

Lemma NoDup_keys_delitem key d : NoDup d.*1 → NoDup (OrderedDict.delitem key d).*1.
Proof. rewrite keys_delitem. apply NoDup_filter. Qed.

Lemma NoDup_keys_move key v d :
  NoDup d.*1 → NoDup (OrderedDict.delitem key d ++ [(key, v)]).*1.
Proof.
  intros Hd. rewrite fmap_app, NoDup_app. split_and!.
  - by apply NoDup_keys_delitem.
  - intros k Hk. simpl. rewrite list_elem_of_singleton. intros ->.
    by apply not_elem_of_keys_delitem in Hk.
  - simpl. apply NoDup_singleton.
Qed.
End OrderedDict_facts.


(** ** The cache: what [set] and [get] do *)

Section TTLCache_facts.
Context {K : Type} `{Countable K} {V : Type}.
Implicit Types (c : TTLCache.t K V) (k key : K) (v value : V).
Implicit Types (ttl now storedAt : Z).

Lemma set_without_eviction c key value ttl now :
  TTLCache.size c < TTLCache.max_items c ∨ key ∈ TTLCache.keys c →
  TTLCache.set c key value ttl now = (Ok (), written c c key value ttl now).
Proof.
  intros Hroom. unfold TTLCache.set, written.
  assert (bool_decide (OrderedDict.len (TTLCache.cache c) >= TTLCache.max_items c)
          && negb (OrderedDict.contains key (TTLCache.cache c)) = false) as ->.
  { apply andb_false_iff. destruct Hroom as [Hlt|Hin].
    - left. apply bool_decide_eq_false. unfold TTLCache.size in Hlt. lia.
    - right. apply negb_false_iff. by apply contains_true. }
  by rewrite move_to_end_setitem.
Qed.

Lemma set_with_eviction c key value ttl now k0 v0 rest :
  TTLCache.cache c = (k0, v0) :: rest →
  TTLCache.max_items c ≤ TTLCache.size c →
  key ∉ TTLCache.keys c →
  TTLCache.set c key value ttl now
  = (Ok (), written c (TTLCache._remove_key c k0) key value ttl now).
Proof.
  intros Hc Hfull Hnew. unfold TTLCache.set, written.
  rewrite bool_decide_eq_true_2 by (unfold TTLCache.size in Hfull; lia).
  apply contains_false in Hnew as ->. simpl. rewrite Hc at 1. simpl.
  by rewrite move_to_end_setitem.
Qed.

Lemma set_on_empty_full c key value ttl now :
  TTLCache.cache c = [] → TTLCache.max_items c ≤ 0 →
  TTLCache.set c key value ttl now = (Raise StopIteration, c).
Proof.
  intros Hc Hmax. unfold TTLCache.set. rewrite Hc. simpl.
  rewrite bool_decide_eq_true_2; [done|]. unfold OrderedDict.len. simpl. lia.
Qed.

(** [set] returns, from [c] or from [c] without its oldest key, or raises
    [StopIteration] and leaves the cache alone. *)
Lemma set_cases c key value ttl now :
  ((TTLCache.size c < TTLCache.max_items c ∨ key ∈ TTLCache.keys c)
     ∧ TTLCache.set c key value ttl now = (Ok (), written c c key value ttl now))
  ∨ (∃ k0 v0 rest, TTLCache.cache c = (k0, v0) :: rest
       ∧ TTLCache.max_items c ≤ TTLCache.size c ∧ (key ∉ TTLCache.keys c)
       ∧ TTLCache.set c key value ttl now
         = (Ok (), written c (TTLCache._remove_key c k0) key value ttl now))
  ∨ (TTLCache.cache c = [] ∧ TTLCache.max_items c ≤ 0
       ∧ TTLCache.set c key value ttl now = (Raise StopIteration, c)).
Proof.
  destruct (decide (key ∈ TTLCache.keys c)) as [Hin|Hnew].
  { left. split; [by right|]. apply set_without_eviction. by right. }
  destruct (decide (TTLCache.size c < TTLCache.max_items c)) as [Hlt|Hfull].
  { left. split; [by left|]. apply set_without_eviction. by left. }
  right. destruct (TTLCache.cache c) as [|[k0 v0] rest] eqn:Hc.
  - right. assert (TTLCache.max_items c ≤ 0).
    { unfold TTLCache.size, OrderedDict.len in Hfull. rewrite Hc in Hfull.
      simpl in Hfull. lia. }
    split_and!; [done..|]. by apply set_on_empty_full.
  - left. exists k0, v0, rest. split_and!; [done|lia|done|].
    apply set_with_eviction with v0 rest; [done|lia|done].
Qed.

Lemma set_Ok_written c key value ttl now c' :
  TTLCache.set c key value ttl now = (Ok (), c') →
  ∃ c1, c' = written c c1 key value ttl now.
Proof.
  intros Hset.
  destruct (set_cases c key value ttl now)
    as [[_ Heq]|[(k0 & v0 & rest & _ & _ & _ & Heq)|(_ & _ & Heq)]];
    rewrite Heq in Hset; simplify_eq; eauto.
Qed.

Lemma remove_key_keys c key :
  TTLCache.keys (TTLCache._remove_key c key) = filter (λ k, k ≠ key) (TTLCache.keys c).
Proof.
  unfold TTLCache.keys, TTLCache._remove_key. simpl.
  destruct (OrderedDict.contains key (TTLCache.cache c)) eqn:Hin.
  - apply keys_delitem.
  - apply contains_false in Hin. rewrite <-keys_delitem. by rewrite delitem_absent.
Qed.

Lemma remove_key_cache c key :
  TTLCache.cache (TTLCache._remove_key c key) = OrderedDict.delitem key (TTLCache.cache c).
Proof.
  unfold TTLCache._remove_key. simpl.
  destruct (OrderedDict.contains key (TTLCache.cache c)) eqn:Hin; [done|].
  apply contains_false in Hin. by rewrite delitem_absent.
Qed.

Lemma get_absent c key ttl now :
  key ∉ TTLCache.keys c → TTLCache.get c key ttl now = (Ok None, c).
Proof.
  intros Hk. unfold TTLCache.get. by apply contains_false in Hk as ->.
Qed.

Lemma get_expired c key ttl now expiry :
  key ∈ TTLCache.keys c → TTLCache.expirations c !! key = Some expiry →
  now > expiry →
  TTLCache.get c key ttl now = (Ok None, TTLCache._remove_key c key).
Proof.
  intros Hk He Hlate. unfold TTLCache.get.
  apply contains_true in Hk as ->. simpl. rewrite He.
  by rewrite bool_decide_eq_true_2.
Qed.

(** A hit returns the value and moves the entry to the young end. *)
Lemma get_hit c key ttl now expiry :
  key ∈ TTLCache.keys c → TTLCache.expirations c !! key = Some expiry →
  now ≤ expiry →
  ∃ v, OrderedDict.getitem key (TTLCache.cache c) = Some v
    ∧ TTLCache.get c key ttl now
      = (Ok (Some v),
         {| TTLCache.max_items := TTLCache.max_items c;
            TTLCache.cache :=
              OrderedDict.delitem key (TTLCache.cache c) ++ [(key, v)];
            TTLCache.expirations := TTLCache.expirations c |}).
Proof.
  intros Hk He Hfresh. unfold TTLCache.get.
  pose proof Hk as Hk'. apply contains_true in Hk' as ->. simpl. rewrite He.
  rewrite bool_decide_eq_false_2 by lia.
  apply getitem_is_Some in Hk as [v Hv]. exists v. split; [done|].
  unfold OrderedDict.move_to_end. rewrite Hv.
  by rewrite getitem_app_last by apply not_elem_of_keys_delitem.
Qed.

Lemma written_keys c c1 key value ttl now :
  key ∈ TTLCache.keys (written c c1 key value ttl now).
Proof.
  unfold TTLCache.keys, written. simpl. rewrite fmap_app, elem_of_app.
  right. simpl. apply list_elem_of_singleton. done.
Qed.

Lemma get_written_hit c c1 key value ttl now o t :
  t ≤ now + ttl →
  TTLCache.get (written c c1 key value ttl now) key o t
  = (Ok (Some value), written c c1 key value ttl now).
Proof.
  intros Hfresh.
  destruct (get_hit (written c c1 key value ttl now) key o t (now + ttl))
    as (v & Hv & Hget); [apply written_keys|apply lookup_insert_eq|done|].
  rewrite Hget. unfold written in *. simpl in *.
  rewrite getitem_app_last in Hv by apply not_elem_of_keys_delitem.
  injection Hv as <-.
  rewrite delitem_app, delitem_idemp. unfold OrderedDict.delitem at 2.
  rewrite filter_cons_False by (simpl; tauto). by rewrite app_nil_r.
Qed.

Lemma get_written_expired c c1 key value ttl now o t :
  now + ttl < t →
  TTLCache.get (written c c1 key value ttl now) key o t
  = (Ok None, TTLCache._remove_key (written c c1 key value ttl now) key).
Proof.
  intros Hlate.
  apply get_expired with (now + ttl); [apply written_keys|apply lookup_insert_eq|lia].
Qed.
End TTLCache_facts.

(** ** Calls on other keys *)

Section TTLCache_other_keys.
Context {K : Type} `{Countable K} {V : Type}.
Implicit Types (c : TTLCache.t K V) (k key : K) (v value : V).
Implicit Types (ttl now e : Z) (o : TTLCache.op K V).

Lemma holds_written c c1 key value ttl now :
  holds (written c c1 key value ttl now) key value (now + ttl).
Proof.
  split; simpl.
  - apply getitem_app_last, not_elem_of_keys_delitem.
  - apply lookup_insert_eq.
Qed.

Lemma holds_written_other c c1 k v e key value ttl now :
  key ≠ k → holds c1 k v e → holds (written c c1 key value ttl now) k v e.
Proof.
  intros Hne [Hv He]. split; simpl.
  - by rewrite getitem_app_other, getitem_delitem_other.
  - by rewrite lookup_insert_ne.
Qed.

Lemma holds_remove_other c k v e key :
  key ≠ k → holds c k v e → holds (TTLCache._remove_key c key) k v e.
Proof.
  intros Hne [Hv He]. split.
  - by rewrite remove_key_cache, getitem_delitem_other.
  - simpl. by rewrite lookup_delete_ne.
Qed.

Lemma holds_keys c k v e : holds c k v e → k ∈ TTLCache.keys c.
Proof. intros [Hv _]. apply getitem_is_Some. by exists v. Qed.

(** A call on another key keeps the entry of [k] or evicts it. *)
Lemma holds_step c k v e o :
  ¬ concerns k o → holds c k v e →
  holds (TTLCache.step c o) k v e ∨ k ∉ TTLCache.keys (TTLCache.step c o).
Proof.
  intros Hother Hk. destruct o as [key ttl now|key value ttl now|]; simpl in *.
  - left. unfold TTLCache.get. repeat case_match; simpl; try done.
    + by apply holds_remove_other.
    + unfold OrderedDict.move_to_end in *. case_match; simplify_eq.
      destruct Hk as [Hv He]. split; simpl; [|done].
      by rewrite getitem_app_other, getitem_delitem_other.
    + unfold OrderedDict.move_to_end in *. case_match; simplify_eq.
      destruct Hk as [Hv He]. split; simpl; [|done].
      by rewrite getitem_app_other, getitem_delitem_other.
  - destruct (set_cases c key value ttl now)
      as [[_ ->]|[(k0 & v0 & rest & _ & _ & _ & ->)|(_ & _ & ->)]]; cbn [snd].
    + left. by apply holds_written_other.
    + destruct (decide (k0 = k)) as [->|Hne].
      * right. unfold TTLCache.keys, written. cbn [TTLCache.cache].
        rewrite fmap_app, elem_of_app, elem_of_keys_delitem, remove_key_cache,
          elem_of_keys_delitem. simpl. rewrite list_elem_of_singleton.
        intros [(_ & Hk0 & _)|Hk0]; congruence.
      * left. by apply holds_written_other, holds_remove_other.
    + by left.
  - tauto.
Qed.

(** A call on another key does not bring [k] back. *)
Lemma absent_step c k o :
  ¬ concerns k o → k ∉ TTLCache.keys c → k ∉ TTLCache.keys (TTLCache.step c o).
Proof.
  intros Hother Hk. destruct o as [key ttl now|key value ttl now|]; simpl in *.
  - unfold TTLCache.get. repeat case_match; simpl; try done.
    + rewrite remove_key_keys, list_elem_of_filter. tauto.
    + unfold OrderedDict.move_to_end in *. case_match; simplify_eq.
      unfold TTLCache.keys in *. simpl.
      rewrite fmap_app, elem_of_app, elem_of_keys_delitem. simpl.
      rewrite list_elem_of_singleton. intros [[_ ?]|?]; congruence.
    + unfold OrderedDict.move_to_end in *. case_match; simplify_eq.
      unfold TTLCache.keys in *. simpl.
      rewrite fmap_app, elem_of_app, elem_of_keys_delitem. simpl.
      rewrite list_elem_of_singleton. intros [[_ ?]|?]; congruence.
  - destruct (set_cases c key value ttl now)
      as [[_ ->]|[(k0 & v0 & rest & _ & _ & _ & ->)|(_ & _ & ->)]]; cbn [snd];
      [| |done].
    + unfold TTLCache.keys in *. simpl.
      rewrite fmap_app, elem_of_app, elem_of_keys_delitem. simpl.
      rewrite list_elem_of_singleton. intros [[_ ?]|?]; congruence.
    + unfold TTLCache.keys, written in *. cbn [TTLCache.cache].
      rewrite fmap_app, elem_of_app, elem_of_keys_delitem, remove_key_cache,
        elem_of_keys_delitem. simpl.
      rewrite list_elem_of_singleton. intros [(_ & _ & ?)|?]; congruence.
  - tauto.
Qed.

Lemma absent_run c k (ops : list (TTLCache.op K V)) :
  Forall (λ o, ¬ concerns k o) ops → k ∉ TTLCache.keys c →
  k ∉ TTLCache.keys (TTLCache.run c ops).
Proof.
  intros Hops. revert c. induction Hops as [|o ops Ho _ IH]; intros c Hk; simpl.
  - done.
  - by apply IH, absent_step.
Qed.

Lemma holds_run c k v e (ops : list (TTLCache.op K V)) :
  Forall (λ o, ¬ concerns k o) ops → holds c k v e →
  holds (TTLCache.run c ops) k v e ∨ k ∉ TTLCache.keys (TTLCache.run c ops).
Proof.
  intros Hops. revert c. induction Hops as [|o ops Ho Hops IH]; intros c Hk; simpl.
  - by left.
  - destruct (holds_step c k v e o Ho Hk) as [Hk'|Hgone]; [by apply IH|].
    right. by apply absent_run.
Qed.

Lemma get_holds c k v e ttl now :
  holds c k v e →
  (now ≤ e → (TTLCache.get c k ttl now).1 = Ok (Some v))
  ∧ (e < now → TTLCache.get c k ttl now = (Ok None, TTLCache._remove_key c k)).
Proof.
  intros Hk. pose proof (holds_keys _ _ _ _ Hk) as Hin. destruct Hk as [Hv He].
  split.
  - intros Hfresh.
    destruct (get_hit c k ttl now e Hin He Hfresh) as (v' & Hv' & ->).
    simpl. congruence.
  - intros Hlate. apply get_expired with e; [done..|lia].
Qed.
End TTLCache_other_keys.

(** ** Expiry *)

(** C1, as the code has it: after [set(k, v, t)] at time [storedAt] has
    returned, and after any calls that are on other keys, [k] is either
    still in the cache or was evicted to make room. While it is there,
    [get(k)] returns [v] at every time [now] with
    [storedAt <= now <= storedAt + t], the instant [storedAt + t]
    included; at every [now > storedAt + t] it returns [None] and removes
    the entry from the ordered map and from the expiration map, after
    which every [get(k)] returns [None]. Once evicted, [k] is absent.
    Right after the [set], [k] is in the cache and a [get] that returns
    [v] leaves the cache as it is. *)
Theorem C1_get_after_set {K : Type} `{Countable K} {V : Type}
    (c c' : TTLCache.t K V) (k : K) (v : V) (t storedAt : Z)
    (ops : list (TTLCache.op K V)) :
  TTLCache.set c k v t storedAt = (Ok (), c') →
  Forall (λ o, ¬ concerns k o) ops →
  let c'' := TTLCache.run c' ops in
  ∀ o now,
    (k ∈ TTLCache.keys c'' →
       (storedAt ≤ now ≤ storedAt + t →
          (TTLCache.get c'' k o now).1 = Ok (Some v))
       ∧ (storedAt + t < now →
          let purged := TTLCache._remove_key c'' k in
          TTLCache.get c'' k o now = (Ok None, purged)
          ∧ (k ∉ TTLCache.keys purged)
          ∧ TTLCache.expirations purged !! k = None
          ∧ ∀ o' now', TTLCache.get purged k o' now' = (Ok None, purged)))
    ∧ (k ∉ TTLCache.keys c'' → TTLCache.get c'' k o now = (Ok None, c''))
    ∧ k ∈ TTLCache.keys c'
    ∧ (storedAt ≤ now ≤ storedAt + t →
         TTLCache.get c' k o now = (Ok (Some v), c')).
Proof.
  intros Hset Hops c'' o now. apply set_Ok_written in Hset as [c1 ->].
  split_and!.
  - intros Hin.
    destruct (holds_run _ k v (storedAt + t) ops Hops (holds_written c c1 k v t storedAt))
      as [Hk|Hgone]; [|done].
    fold c'' in Hk. destruct (get_holds c'' k v (storedAt + t) o now Hk)
      as [Hfresh Hexpired].
    split; [intros [_ ?]; by apply Hfresh|].
    intros Hlate purged.
    assert (k ∉ TTLCache.keys purged) as Hpurged.
    { unfold purged. rewrite remove_key_keys, list_elem_of_filter. tauto. }
    split_and!.
    + by apply Hexpired.
    + done.
    + apply lookup_delete_eq.
    + intros o' now'. by apply get_absent.
  - intros Hgone. by apply get_absent.
  - apply written_keys.
  - intros [_ Hfresh]. by apply get_written_hit.
Qed.

Lemma C1_get_after_set_witness :
  TTLCache.set (TTLCache.init 2) "paris" 21%nat 300 1000
  = (Ok (), written (TTLCache.init 2) (TTLCache.init 2) "paris" 21%nat 300 1000)
  ∧ Forall (λ o, ¬ concerns "paris" o) [TTLCache.Set_ "rome" 25%nat 300 1100]
  ∧ (TTLCache.get
       (TTLCache.run
          (written (TTLCache.init 2) (TTLCache.init 2) "paris" 21%nat 300 1000)
          [TTLCache.Set_ "rome" 25%nat 300 1100])
       "paris" 60 1300).1
    = Ok (Some 21%nat).
Proof.
  assert (TTLCache.set (TTLCache.init 2) "paris" 21%nat 300 1000
          = (Ok (), written (TTLCache.init 2) (TTLCache.init 2) "paris" 21%nat 300 1000))
    as Hset by (vm_compute; reflexivity).
  assert (Forall (λ o, ¬ concerns "paris" o) [TTLCache.Set_ "rome" 25%nat 300 1100])
    as Hops by (repeat constructor; simpl; discriminate).
  split_and!; [exact Hset|exact Hops|].
  refine (proj1 (proj1 (C1_get_after_set _ _ _ _ _ _ _ Hset Hops 60 1300) _) _).
  - vm_compute. apply elem_of_cons. by left.
  - lia.
Defined.

(** C1 as the specification words it fails at the instant
    [now = storedAt + t]: the entry written at 1000 with a ttl of 300 is
    still returned at 1300. *)
Lemma C1_entry_present_at_expiry_instant :
  let c := (TTLCache.set (TTLCache.init (K:=string) (V:=nat) 2) "paris" 21%nat 300 1000).2 in
  1000 + 300 ≤ 1300
  ∧ (TTLCache.get c "paris" 300 1300).1 = Ok (Some 21%nat)
  ∧ (TTLCache.get c "paris" 300 1300).1 ≠ Ok None
  ∧ "paris" ∈ TTLCache.keys (TTLCache.get c "paris" 300 1300).2.
Proof. vm_compute. split_and!; [discriminate|reflexivity|discriminate|]. set_solver. Qed.

(** C4: [get] does not look at its [ttl] argument. Two reads of one key
    in one state at one time return the same result and leave the same
    state whatever ttl each passes, and whether an entry written by
    [set(k, v, t)] at [storedAt] is expired at [now] is decided by
    [storedAt + t] alone. *)
Theorem C4_read_time_ttl_ignored {K : Type} `{Countable K} {V : Type}
    (c : TTLCache.t K V) (k : K) (o1 o2 now : Z) :
  TTLCache.get c k o1 now = TTLCache.get c k o2 now
  ∧ ∀ v t storedAt c',
      TTLCache.set c k v t storedAt = (Ok (), c') →
      ((TTLCache.get c' k o1 now).1 = Ok None ↔ storedAt + t < now)
      ∧ ((TTLCache.get c' k o1 now).1 = Ok (Some v) ↔ now ≤ storedAt + t).
Proof.
  split; [reflexivity|].
  intros v t storedAt c' Hset. apply set_Ok_written in Hset as [c1 ->].
  destruct (decide (now ≤ storedAt + t)) as [Hfresh|Hlate].
  - rewrite get_written_hit by done. simpl. split; split; try done; lia.
  - rewrite get_written_expired by lia. simpl. split; split; try done; lia.
Qed.

Lemma C4_read_time_ttl_ignored_witness :
  TTLCache.get (TTLCache.init (K:=string) (V:=nat) 2) "paris" 1 1000
  = TTLCache.get (TTLCache.init 2) "paris" 100000 1000
  ∧ ((TTLCache.get (written (TTLCache.init 2) (TTLCache.init 2) "paris" 21%nat 300 900)
        "paris" 1 1000).1 = Ok (Some 21%nat) ↔ 1000 ≤ 900 + 300).
Proof.
  destruct (C4_read_time_ttl_ignored (TTLCache.init (K:=string) (V:=nat) 2)
              "paris" 1 100000 1000) as [Hsame Hset].
  split; [exact Hsame|].
  refine (proj2 (Hset 21%nat 300 900 _ _)). vm_compute. reflexivity.
Defined.

(** ** Invariants of the cache *)

Section TTLCache_invariants.
Context {K : Type} `{Countable K} {V : Type}.
Implicit Types (c : TTLCache.t K V) (k key : K) (v value : V).
Implicit Types (ttl now : Z) (o : TTLCache.op K V).

Lemma consistent_init n : consistent (TTLCache.init (K:=K) (V:=V) n).
Proof. unfold consistent. simpl. by rewrite dom_empty_L. Qed.

Lemma consistent_remove_key c key :
  consistent c → consistent (TTLCache._remove_key c key).
Proof.
  unfold consistent. intros Hc. rewrite remove_key_keys. simpl.
  rewrite dom_delete_L, <-Hc. apply set_eq. intros k.
  rewrite elem_of_list_to_set, list_elem_of_filter, elem_of_difference,
    elem_of_list_to_set, elem_of_singleton. tauto.
Qed.

Lemma keys_moved key v (d : list (K * V)) :
  list_to_set (OrderedDict.delitem key d ++ [(key, v)]).*1
  =@{gset K} {[key]} ∪ list_to_set d.*1.
Proof.
  apply set_eq. intros k.
  rewrite elem_of_list_to_set, fmap_app, elem_of_app, elem_of_keys_delitem,
    elem_of_union, elem_of_singleton, elem_of_list_to_set. simpl.
  rewrite list_elem_of_singleton. destruct (decide (k = key)); tauto.
Qed.

Lemma consistent_written c c1 key value ttl now :
  consistent c1 → consistent (written c c1 key value ttl now).
Proof.
  unfold consistent, written, TTLCache.keys. simpl. intros Hc.
  by rewrite keys_moved, dom_insert_L, Hc.
Qed.

Lemma consistent_lookup c key :
  consistent c → key ∈ TTLCache.keys c → is_Some (TTLCache.expirations c !! key).
Proof.
  unfold consistent. intros Hc Hk. apply elem_of_dom. rewrite <-Hc.
  by apply elem_of_list_to_set.
Qed.

(** With the two maps in agreement a [get] is a miss, a purge or a hit. *)
Lemma get_cases c key ttl now :
  consistent c →
  ((key ∉ TTLCache.keys c) ∧ TTLCache.get c key ttl now = (Ok None, c))
  ∨ (∃ expiry, key ∈ TTLCache.keys c
       ∧ TTLCache.expirations c !! key = Some expiry ∧ expiry < now
       ∧ TTLCache.get c key ttl now = (Ok None, TTLCache._remove_key c key))
  ∨ (∃ expiry v, key ∈ TTLCache.keys c
       ∧ TTLCache.expirations c !! key = Some expiry ∧ now ≤ expiry
       ∧ OrderedDict.getitem key (TTLCache.cache c) = Some v
       ∧ TTLCache.get c key ttl now
         = (Ok (Some v),
            {| TTLCache.max_items := TTLCache.max_items c;
               TTLCache.cache :=
                 OrderedDict.delitem key (TTLCache.cache c) ++ [(key, v)];
               TTLCache.expirations := TTLCache.expirations c |})).
Proof.
  intros Hc. destruct (decide (key ∈ TTLCache.keys c)) as [Hk|Hk].
  - right. destruct (consistent_lookup c key Hc Hk) as [expiry He].
    destruct (decide (now ≤ expiry)) as [Hfresh|Hlate].
    + right. destruct (get_hit c key ttl now expiry) as (v & Hv & Hget); [done..|].
      by exists expiry, v.
    + left. exists expiry. split_and!; [done|done|lia|].
      apply get_expired with expiry; [done|done|lia].
  - left. split; [done|]. by apply get_absent.
Qed.

Lemma consistent_step c o : consistent c → consistent (TTLCache.step c o).
Proof.
  intros Hc. destruct o as [key ttl now|key value ttl now|]; simpl.
  - destruct (get_cases c key ttl now Hc)
      as [[_ ->]|[(e & _ & _ & _ & ->)|(e & v & Hk & _ & _ & _ & ->)]]; simpl.
    + done.
    + by apply consistent_remove_key.
    + unfold consistent, TTLCache.keys in *. simpl. rewrite keys_moved, <-Hc.
      apply (elem_of_list_to_set (C:=gset K)) in Hk.
      apply set_eq. intros k. rewrite elem_of_union, elem_of_singleton.
      split; [by intros [->|?]|by right].
  - destruct (set_cases c key value ttl now)
      as [[_ ->]|[(k0 & v0 & rest & _ & _ & _ & ->)|(_ & _ & ->)]]; simpl.
    + by apply consistent_written.
    + by apply consistent_written, consistent_remove_key.
    + done.
  - unfold consistent. simpl. by rewrite dom_empty_L.
Qed.

Lemma consistent_run c ops : consistent c → consistent (TTLCache.run c ops).
Proof.
  revert c. induction ops as [|o ops IH]; intros c Hc; simpl; [done|].
  by apply IH, consistent_step.
Qed.

Lemma max_items_step c o :
  TTLCache.max_items (TTLCache.step c o) = TTLCache.max_items c.
Proof.
  destruct o as [key ttl now|key value ttl now|]; simpl; [| |done].
  - unfold TTLCache.get. repeat case_match; done.
  - destruct (set_cases c key value ttl now)
      as [[_ ->]|[(k0 & v0 & rest & _ & _ & _ & ->)|(_ & _ & ->)]]; done.
Qed.

Lemma size_moved key v (d : list (K * V)) :
  NoDup d.*1 → key ∈ d.*1 →
  length (OrderedDict.delitem key d ++ [(key, v)]) = length d.
Proof.
  intros Hd Hk. rewrite length_app. simpl.
  rewrite <-(length_delitem key d) by done. lia.
Qed.

Lemma bounded_remove_key c key : bounded c → bounded (TTLCache._remove_key c key).
Proof.
  unfold bounded, TTLCache.size, TTLCache.keys, OrderedDict.len.
  rewrite remove_key_cache. simpl. intros [Hd Hsz]. split.
  - by apply NoDup_keys_delitem.
  - pose proof (length_filter (λ p : K * V, p.1 ≠ key) (TTLCache.cache c)).
    unfold OrderedDict.delitem. lia.
Qed.

Lemma bounded_step c o : bounded c → bounded (TTLCache.step c o).
Proof.
  intros [Hd Hsz]. destruct o as [key ttl now|key value ttl now|]; simpl.
  - unfold TTLCache.get. repeat case_match; simpl; try done.
    + by apply bounded_remove_key.
    + unfold OrderedDict.move_to_end in *. case_match; simplify_eq.
      unfold bounded, TTLCache.size, TTLCache.keys, OrderedDict.len in *. simpl.
      split; [by apply NoDup_keys_move|].
      rewrite size_moved; [done..|]. by apply getitem_is_Some.
    + unfold OrderedDict.move_to_end in *. case_match; simplify_eq.
      unfold bounded, TTLCache.size, TTLCache.keys, OrderedDict.len in *. simpl.
      split; [by apply NoDup_keys_move|].
      rewrite size_moved; [done..|]. by apply getitem_is_Some.
  - destruct (set_cases c key value ttl now)
      as [[Hroom ->]|[(k0 & v0 & rest & Hc & Hfull & Hnew & ->)|(_ & _ & ->)]].
    + unfold bounded, TTLCache.size, TTLCache.keys, OrderedDict.len in *. simpl.
      split; [by apply NoDup_keys_move|].
      destruct (decide (key ∈ (TTLCache.cache c).*1)) as [Hk|Hk].
      * by rewrite size_moved.
      * rewrite delitem_absent by done. rewrite length_app. simpl.
        destruct Hroom as [Hlt|Hin]; [lia|done].
    + unfold bounded, written, TTLCache.size, TTLCache.keys, OrderedDict.len in *.
      cbn [snd TTLCache.cache TTLCache.max_items].
      rewrite remove_key_cache, Hc. rewrite Hc in Hd, Hnew, Hfull, Hsz.
      rewrite fmap_cons in Hd. apply NoDup_cons in Hd as [Hk0 Hrest].
      rewrite fmap_cons, not_elem_of_cons in Hnew. destruct Hnew as [Hne Hnew].
      rewrite delitem_head by done. simpl in *.
      rewrite delitem_absent by done. split.
      * rewrite fmap_app, NoDup_app. split_and!; [done| |apply NoDup_singleton].
        intros k Hk. simpl. rewrite list_elem_of_singleton. by intros ->.
      * rewrite length_app. simpl in *. lia.
    + done.
  - unfold bounded, TTLCache.size, TTLCache.keys, OrderedDict.len in *. simpl.
    split; [apply NoDup_nil_2|]. lia.
Qed.
End TTLCache_invariants.

Section TTLCache_reachable.
Context {K : Type} `{Countable K} {V : Type}.
Implicit Types (c : TTLCache.t K V) (ops : list (TTLCache.op K V)).

Lemma bounded_run c ops : bounded c → bounded (TTLCache.run c ops).
Proof.
  revert c. induction ops as [|o ops IH]; intros c Hc; simpl; [done|].
  by apply IH, bounded_step.
Qed.

Lemma max_items_run c ops :
  TTLCache.max_items (TTLCache.run c ops) = TTLCache.max_items c.
Proof.
  revert c. induction ops as [|o ops IH]; intros c; simpl; [done|].
  by rewrite IH, max_items_step.
Qed.

Lemma bounded_init n : 0 ≤ n → bounded (TTLCache.init (K:=K) (V:=V) n).
Proof.
  intros Hn. split; [apply NoDup_nil_2|]. unfold TTLCache.size, OrderedDict.len.
  simpl. lia.
Qed.

Lemma reachable_invariants n ops :
  0 ≤ n →
  let c := TTLCache.run (TTLCache.init n) ops in
  consistent c ∧ bounded c ∧ TTLCache.max_items c = n.
Proof.
  intros Hn c. split_and!.
  - apply consistent_run, consistent_init.
  - by apply bounded_run, bounded_init.
  - apply max_items_run.
Qed.
End TTLCache_reachable.

(** ** Capacity *)

(** C2: with [max_items >= 1], in every state [c] reached from the empty
    cache by [get], [set] and [clear] calls the size is at most
    [max_items]; every further [set] returns and leaves at most
    [max_items] entries; and when it adds a key that is not in the cache
    while the cache is at capacity, what it leaves is the old content
    without its first (oldest) entry, and nothing else removed, followed by
    the new entry. *)
Theorem C2_capacity {K : Type} `{Countable K} {V : Type}
    (n : Z) (ops : list (TTLCache.op K V)) :
  1 ≤ n →
  let c := TTLCache.run (TTLCache.init n) ops in
  TTLCache.size c ≤ n
  ∧ ∀ k v ttl now,
      ∃ c', TTLCache.set c k v ttl now = (Ok (), c')
        ∧ TTLCache.size c' ≤ n
        ∧ (k ∉ TTLCache.keys c → n ≤ TTLCache.size c →
           ∃ k0 v0 rest,
             TTLCache.cache c = (k0, v0) :: rest
             ∧ TTLCache.cache c' = rest ++ [(k, v)]
             ∧ TTLCache.expirations c'
               = <[k := now + ttl]> (delete k0 (TTLCache.expirations c))
             ∧ TTLCache.size c' = TTLCache.size c).
Proof.
  intros Hn c.
  destruct (reachable_invariants n ops) as (Hcons & Hb & Hmax); [lia|].
  fold c in Hcons, Hb, Hmax. split; [destruct Hb; lia|].
  intros k v ttl now.
  pose proof (bounded_step c (TTLCache.Set_ k v ttl now) Hb) as [_ Hsz].
  rewrite max_items_step, Hmax in Hsz. simpl in Hsz.
  destruct (set_cases c k v ttl now)
    as [[Hroom Hset]|[(k0 & v0 & rest & Hc & Hfull & Hnew & Hset)|(Hc & Hzero & _)]].
  - rewrite Hset in *. eexists. split_and!; [done..|].
    intros Hk Hfull. destruct Hroom; [lia|done].
  - rewrite Hset in *. eexists. split_and!; [done..|]. intros _ _.
    exists k0, v0, rest. destruct Hb as [Hd Hle].
    unfold TTLCache.keys in Hd, Hnew. rewrite Hc in Hd, Hnew.
    rewrite fmap_cons in Hd. apply NoDup_cons in Hd as [Hk0 _].
    rewrite fmap_cons, not_elem_of_cons in Hnew. destruct Hnew as [Hne Hnew].
    unfold written, TTLCache.size, OrderedDict.len.
    cbn [TTLCache.cache TTLCache.expirations].
    rewrite remove_key_cache, Hc, delitem_head, delitem_absent by done.
    split_and!; [done..|]. rewrite length_app. simpl. lia.
  - lia.
Qed.

Lemma C2_capacity_witness :
  1 ≤ 2
  ∧ TTLCache.size
      (TTLCache.run (TTLCache.init 2)
         [TTLCache.Set_ "a" 1%nat 300 0; TTLCache.Set_ "b" 2%nat 300 1;
          TTLCache.Get "a" 300 2; TTLCache.Set_ "c" 3%nat 300 3]) ≤ 2.
Proof.
  split; [lia|].
  refine (proj1 (C2_capacity 2
    [TTLCache.Set_ "a" 1%nat 300 0; TTLCache.Set_ "b" 2%nat 300 1;
     TTLCache.Get "a" 300 2; TTLCache.Set_ "c" 3%nat 300 3] _)). lia.
Defined.

(** ** Agreement of the two maps *)



(** ** Recency *)

Section TTLCache_recency.
Context {K : Type} `{Countable K} {V : Type}.
Implicit Types (c : TTLCache.t K V) (k key : K) (v value : V).
Implicit Types (ttl now : Z) (o : TTLCache.op K V).

Lemma state_foldl (s : tracked K V) (ops : list (TTLCache.op K V)) :
  state (foldl track_step s ops) = TTLCache.run (state s) ops.
Proof.
  revert s. induction ops as [|o ops IH]; intros s; simpl; [done|]. by rewrite IH.
Qed.

Lemma state_track n (ops : list (TTLCache.op K V)) : state (track n ops) = TTLCache.run (TTLCache.init n) ops.
Proof. apply state_foldl. Qed.

Lemma StronglySorted_filter_2 {A} (R : relation A) (P : A → Prop)
    `{∀ x, Decision (P x)} (l : list A) :
  StronglySorted R l → StronglySorted R (filter P l).
Proof.
  induction 1 as [|x l Hl IH Hx]; [constructor|].
  rewrite filter_cons. destruct (decide (P x)); [|done].
  constructor; [done|]. apply Forall_forall. intros y Hy.
  apply list_elem_of_filter in Hy as [_ Hy]. rewrite Forall_forall in Hx. auto.
Qed.

Lemma StronglySorted_weaken {A} (R R' : relation A) (l : list A) :
  (∀ x y, x ∈ l → y ∈ l → R x y → R' x y) →
  StronglySorted R l → StronglySorted R' l.
Proof.
  intros HR Hl. induction Hl as [|x l Hl IH Hx]; [constructor|].
  constructor.
  - apply IH. intros y z Hy Hz. apply HR; by right.
  - rewrite Forall_forall in *. intros y Hy. apply HR; [by left|by right|auto].
Qed.

(** What a call does to the order of the keys *)
Lemma keys_step c o :
  consistent c →
  match touched c o with
  | Some key =>
      ∃ l, (l = TTLCache.keys c ∨ ∃ k0, l = filter (λ k, k ≠ k0) (TTLCache.keys c))
           ∧ TTLCache.keys (TTLCache.step c o) = filter (λ k, k ≠ key) l ++ [key]
  | None =>
      TTLCache.keys (TTLCache.step c o) = TTLCache.keys c
      ∨ (∃ k0, TTLCache.keys (TTLCache.step c o) = filter (λ k, k ≠ k0) (TTLCache.keys c))
      ∨ TTLCache.keys (TTLCache.step c o) = []
  end.
Proof.
  intros Hc. destruct o as [key ttl now|key value ttl now|]; simpl.
  - destruct (get_cases c key ttl now Hc)
      as [[_ ->]|[(e & _ & _ & _ & ->)|(e & v & _ & _ & _ & _ & ->)]]; simpl.
    + by left.
    + right. left. exists key. apply remove_key_keys.
    + exists (TTLCache.keys c). split; [by left|].
      unfold TTLCache.keys. simpl. by rewrite fmap_app, keys_delitem.
  - destruct (set_cases c key value ttl now)
      as [[_ ->]|[(k0 & v0 & rest & _ & _ & _ & ->)|(_ & _ & ->)]]; simpl.
    + exists (TTLCache.keys c). split; [by left|].
      unfold TTLCache.keys. simpl. by rewrite fmap_app, keys_delitem.
    + exists (TTLCache.keys (TTLCache._remove_key c k0)). split.
      * right. exists k0. apply remove_key_keys.
      * unfold TTLCache.keys at 1, written. cbn [TTLCache.cache].
        by rewrite fmap_app, keys_delitem.
    + by left.
  - right. by right.
Qed.

Lemma by_recency_step (s : tracked K V) o :
  consistent (state s) → by_recency s → by_recency (track_step s o).
Proof.
  intros Hc [Hsorted Hused]. pose proof (keys_step (state s) o Hc) as Hkeys.
  unfold by_recency, track_step. simpl.
  destruct (touched (state s) o) as [key|].
  - destruct Hkeys as (l & Hl & ->).
    assert (StronglySorted (older (used s)) l ∧ ∀ k, k ∈ l → k ∈ TTLCache.keys (state s))
      as [Hls Hsub].
    { destruct Hl as [->|[k0 ->]]; [done|]. split.
      - by apply StronglySorted_filter_2.
      - intros k Hk. by apply list_elem_of_filter in Hk as [_ Hk]. }
    split.
    + apply StronglySorted_app. split_and!.
      * intros k1 k2 Hk1 Hk2. apply list_elem_of_singleton in Hk2 as ->.
        apply list_elem_of_filter in Hk1 as [Hne Hk1].
        destruct (Hused k1 (Hsub _ Hk1)) as (t1 & Ht1 & Hlt).
        exists t1, (tick s). by rewrite lookup_insert_ne, lookup_insert_eq.
      * apply StronglySorted_weaken with (older (used s));
          [|by apply StronglySorted_filter_2].
        intros k1 k2 Hk1 Hk2 (t1 & t2 & Ht1 & Ht2 & Hlt).
        apply list_elem_of_filter in Hk1 as [Hne1 _].
        apply list_elem_of_filter in Hk2 as [Hne2 _].
        exists t1, t2. by rewrite !lookup_insert_ne.
      * repeat constructor.
    + intros k Hk. apply elem_of_app in Hk as [Hk|Hk].
      * apply list_elem_of_filter in Hk as [Hne Hk].
        destruct (Hused k (Hsub _ Hk)) as (t & Ht & Hlt).
        exists t. rewrite lookup_insert_ne by done. split; [done|lia].
      * apply list_elem_of_singleton in Hk as ->. exists (tick s).
        rewrite lookup_insert_eq. split; [done|lia].
  - assert (StronglySorted (older (used s)) (TTLCache.keys (TTLCache.step (state s) o))
            ∧ ∀ k, k ∈ TTLCache.keys (TTLCache.step (state s) o)
                   → k ∈ TTLCache.keys (state s)) as [Hls Hsub].
    { destruct Hkeys as [->|[[k0 ->]| ->]]; [done| |].
      - split; [by apply StronglySorted_filter_2|].
        intros k Hk. by apply list_elem_of_filter in Hk as [_ Hk].
      - split; [constructor|]. intros k Hk. by apply elem_of_nil in Hk. }
    split; [done|]. intros k Hk. destruct (Hused k (Hsub _ Hk)) as (t & Ht & Hlt).
    exists t. split; [done|lia].
Qed.

Lemma by_recency_foldl (s : tracked K V) (ops : list (TTLCache.op K V)) :
  consistent (state s) → by_recency s → by_recency (foldl track_step s ops).
Proof.
  revert s. induction ops as [|o ops IH]; intros s Hc Hs; simpl; [done|].
  apply IH.
  - simpl. by apply consistent_step.
  - by apply by_recency_step.
Qed.

Lemma by_recency_track n (ops : list (TTLCache.op K V)) : by_recency (track n ops).
Proof.
  apply by_recency_foldl; simpl.
  - apply consistent_init.
  - split; [constructor|]. intros k Hk. by apply elem_of_nil in Hk.
Qed.

(** The first key of the ordered map is older than every other key. *)
Lemma first_is_oldest (s : tracked K V) k0 :
  by_recency s → OrderedDict.first (TTLCache.cache (state s)) = Some k0 →
  ∀ k, k ∈ TTLCache.keys (state s) → k ≠ k0 → older (used s) k0 k.
Proof.
  intros [Hsorted _] Hfirst k Hk Hne. unfold TTLCache.keys in *.
  destruct (TTLCache.cache (state s)) as [|[k0' v0] rest]; [done|].
  simpl in Hfirst. injection Hfirst as ->. rewrite fmap_cons in *. simpl in *.
  apply StronglySorted_cons in Hsorted as [Hall _].
  rewrite Forall_forall in Hall. apply Hall.
  apply elem_of_cons in Hk as [?|?]; [congruence|done].
Qed.
End TTLCache_recency.

(** ** The eviction scenario of the specification *)

Ltac od_norm :=
  unfold OrderedDict.delitem;
  repeat (progress (rewrite ?filter_cons, ?filter_nil; cbn [fst app]);
          repeat (case_decide; try (congruence || tauto))).

Section scenario.
Context {K : Type} `{Countable K} {V : Type}.
Implicit Types (a b c : K) (va vb vc : V).

Lemma scenario_set_a a va ttl_a t1 :
  TTLCache.set (TTLCache.init 2) a va ttl_a t1
  = (Ok (), TTLCache.mk 2 [(a, va)] (<[a := t1 + ttl_a]> ∅)).
Proof. by rewrite set_without_eviction by (left; reflexivity). Qed.

Lemma scenario_set_b a b va vb ttl_b t2 (e : gmap K Z) :
  a ≠ b →
  TTLCache.set (TTLCache.mk 2 [(a, va)] e) b vb ttl_b t2
  = (Ok (), TTLCache.mk 2 [(a, va); (b, vb)] (<[b := t2 + ttl_b]> e)).
Proof.
  intros Hab. rewrite set_without_eviction by (left; reflexivity).
  unfold written. simpl. by od_norm.
Qed.

Lemma scenario_get_a a b va vb o t3 expiry (e : gmap K Z) :
  a ≠ b → e !! a = Some expiry → t3 ≤ expiry →
  TTLCache.get (TTLCache.mk 2 [(a, va); (b, vb)] e) a o t3
  = (Ok (Some va), TTLCache.mk 2 [(b, vb); (a, va)] e).
Proof.
  intros Hab He Hfresh.
  destruct (get_hit (TTLCache.mk 2 [(a, va); (b, vb)] e) a o t3 expiry)
    as (v & Hv & ->); [|done..|].
  - unfold TTLCache.keys. simpl. apply elem_of_cons. by left.
  - simpl in Hv. rewrite decide_True in Hv by done. injection Hv as <-.
    simpl. by od_norm.
Qed.

Lemma scenario_set_c a b c va vb vc ttl_c t4 (e : gmap K Z) :
  a ≠ b → a ≠ c → b ≠ c →
  TTLCache.set (TTLCache.mk 2 [(b, vb); (a, va)] e) c vc ttl_c t4
  = (Ok (), TTLCache.mk 2 [(a, va); (c, vc)] (<[c := t4 + ttl_c]> (delete b e))).
Proof.
  intros Hab Hac Hbc.
  rewrite (set_with_eviction _ c vc ttl_c t4 b vb [(a, va)]); [|done..|].
  - unfold written. rewrite remove_key_cache. simpl. by od_norm.
  - unfold TTLCache.keys. simpl. rewrite !not_elem_of_cons.
    split_and!; [congruence..|apply not_elem_of_nil].
Qed.
End scenario.

Lemma filter_absent {K : Type} `{EqDecision K} (key : K) (l : list K) :
  key ∉ l → filter (λ k, k ≠ key) l = l.
Proof.
  induction l as [|k l IH]; [done|]. rewrite not_elem_of_cons. intros [Hne Hl].
  rewrite filter_cons_True by congruence. by rewrite IH.
Qed.

(** C3: with [max_items = 2] and distinct keys [a], [b], [c], the calls
    [set(a)], [set(b)], [get(a)], [set(c)], where [a] is not expired when
    it is read (whatever the ttl of the others), return [a]'s value at the
    read and leave exactly [a] and [c], in this order, in both maps: [b] is
    evicted. In general, in a state reached from a fresh cache, the ordered
    map lists its keys from the least to the most recently used; a [get]
    that returns a value leaves its key last, more recently used than every
    other key; and a [set] of a new key on a full cache removes the first
    key, which is less recently used than every other key, whatever the
    expiration times are. *)
Theorem C3_lru_order {K : Type} `{Countable K} {V : Type}
    (a b c : K) (va vb vc : V) (ttl_a ttl_b ttl_c o t1 t2 t3 t4 : Z)
    (n : Z) (ops : list (TTLCache.op K V)) :
  a ≠ b → a ≠ c → b ≠ c → t3 ≤ t1 + ttl_a →
  (let s2 := TTLCache.run (TTLCache.init 2)
               [TTLCache.Set_ a va ttl_a t1; TTLCache.Set_ b vb ttl_b t2] in
   let s3 := (TTLCache.get s2 a o t3).2 in
   let s4 := (TTLCache.set s3 c vc ttl_c t4).2 in
   (TTLCache.get s2 a o t3).1 = Ok (Some va)
   ∧ (TTLCache.set s3 c vc ttl_c t4).1 = Ok ()
   ∧ s4 = TTLCache.run (TTLCache.init 2)
            [TTLCache.Set_ a va ttl_a t1; TTLCache.Set_ b vb ttl_b t2;
             TTLCache.Get a o t3; TTLCache.Set_ c vc ttl_c t4]
   ∧ TTLCache.cache s4 = [(a, va); (c, vc)]
   ∧ TTLCache.expirations s4 !! a = Some (t1 + ttl_a)
   ∧ TTLCache.expirations s4 !! b = None
   ∧ TTLCache.expirations s4 !! c = Some (t4 + ttl_c))
  ∧ (let s := track n ops in
     by_recency s
     ∧ (∀ k ttl now v,
          (TTLCache.get (state s) k ttl now).1 = Ok (Some v) →
          let s' := track_step s (TTLCache.Get k ttl now) in
          last (TTLCache.keys (state s')) = Some k
          ∧ ∀ k', k' ∈ TTLCache.keys (state s') → k' ≠ k → older (used s') k' k)
     ∧ (∀ k v ttl now k0,
          OrderedDict.first (TTLCache.cache (state s)) = Some k0 →
          k ∉ TTLCache.keys (state s) →
          TTLCache.max_items (state s) ≤ TTLCache.size (state s) →
          (∀ k', k' ∈ TTLCache.keys (state s) → k' ≠ k0 → older (used s) k0 k')
          ∧ TTLCache.keys (TTLCache.set (state s) k v ttl now).2
            = filter (λ k', k' ≠ k0) (TTLCache.keys (state s)) ++ [k])).
Proof.
  intros Hab Hac Hbc Hfresh. split.
  - unfold TTLCache.run. cbn [foldl TTLCache.step].
    rewrite scenario_set_a. cbn [snd].
    rewrite scenario_set_b by done. cbn [snd].
    rewrite (scenario_get_a a b va vb o t3 (t1 + ttl_a))
      by (done || by rewrite lookup_insert_ne, lookup_insert_eq).
    cbn [fst snd]. rewrite scenario_set_c by done. cbn [fst snd TTLCache.cache
      TTLCache.expirations].
    split_and!; [done..| | |].
    + by rewrite lookup_insert_ne, lookup_delete_ne, lookup_insert_ne,
        lookup_insert_eq.
    + rewrite lookup_insert_ne by done. apply lookup_delete_eq.
    + apply lookup_insert_eq.
  - intros s. pose proof (by_recency_track n ops) as Hrec. fold s in Hrec.
    assert (consistent (state s)) as Hcons.
    { unfold s. rewrite state_track. apply consistent_run, consistent_init. }
    split_and!; [done| |].
    + intros k ttl now v Hhit s'.
      pose proof (by_recency_step s (TTLCache.Get k ttl now) Hcons Hrec)
        as [Hsorted _]. fold s' in Hsorted.
      pose proof (keys_step (state s) (TTLCache.Get k ttl now) Hcons) as Hkeys.
      simpl in Hkeys. rewrite Hhit in Hkeys. destruct Hkeys as (l & _ & Hkeys).
      change (TTLCache.keys (state s') = filter (λ k0, k0 ≠ k) l ++ [k]) in Hkeys.
      rewrite Hkeys in *. split; [apply last_snoc|].
      intros k' Hk' Hne. apply elem_of_app in Hk' as [Hk'|Hk'].
      * apply StronglySorted_app_1_elem_of with (filter (λ k0, k0 ≠ k) l) [k];
          [done..|]. by apply list_elem_of_singleton.
      * by apply list_elem_of_singleton in Hk'.
    + intros k v ttl now k0 Hfirst Hnew Hfull. split.
      * by apply first_is_oldest.
      * destruct (TTLCache.cache (state s)) as [|[k0' v0] rest] eqn:Hc; [done|].
        simpl in Hfirst. injection Hfirst as ->.
        rewrite (set_with_eviction _ k v ttl now k0 v0 rest) by done.
        unfold TTLCache.keys at 1, written. cbn [snd TTLCache.cache].
        rewrite fmap_app, keys_delitem. fold (TTLCache.keys (TTLCache._remove_key (state s) k0)).
        rewrite remove_key_keys. simpl. f_equal.
        apply filter_absent. rewrite list_elem_of_filter. tauto.
Qed.

Lemma C3_lru_order_witness :
  "a" ≠ "b" ∧ "a" ≠ "c" ∧ "b" ≠ "c" ∧ 20 ≤ 0 + 300
  ∧ TTLCache.cache
      (TTLCache.set
         (TTLCache.get
            (TTLCache.run (TTLCache.init 2)
               [TTLCache.Set_ "a" 1%nat 300 0; TTLCache.Set_ "b" 2%nat 300 10])
            "a" 300 20).2
         "c" 3%nat 300 30).2
    = [("a", 1%nat); ("c", 3%nat)].
Proof.
  assert ("a" ≠ "b") as Hab by discriminate.
  assert ("a" ≠ "c") as Hac by discriminate.
  assert ("b" ≠ "c") as Hbc by discriminate.
  assert (20 ≤ 0 + 300) as Hfresh by lia.
  split_and!; [done..|].
  pose proof (C3_lru_order "a" "b" "c" 1%nat 2%nat 3%nat 300 300 300 300 0 10 20 30
                2 [] Hab Hac Hbc Hfresh) as [Hscenario _].
  exact (proj1 (proj2 (proj2 (proj2 Hscenario)))).
Defined.

(** ** The rate limiter *)

Section RateLimiter_facts.
Implicit Types (l : RateLimiter.t) (clk : Clock.t) (ev dropped : list Z).
Implicit Types (q : Q) (w now cutoff stamp lo hi : Z).

Lemma int_lower_bound q : (1 <= q)%Q → 1 ≤ RateLimiter.int q.
Proof.
  unfold Qle, RateLimiter.int. simpl. intros Hq.
  apply Z.quot_le_lower_bound; lia.
Qed.


Lemma int_fraction q : (0 < q)%Q → (q < 1)%Q → RateLimiter.int q = 0.
Proof.
  unfold Qlt, RateLimiter.int. simpl. intros Hpos Hlt.
  apply Z.quot_small. lia.
Qed.

Lemma rps_positive q : (1 <= q)%Q → Qle_bool q 0 = false.
Proof.
  intros Hq. destruct (Qle_bool q 0) eqn:Hb; [|done].
  apply Qle_bool_iff in Hb. unfold Qle in *. simpl in *. lia.
Qed.

(** The loop drops a prefix of old timestamps and stops at the first one
    that is not old. *)
Lemma prune_split cutoff ev :
  ∃ dropped, ev = dropped ++ RateLimiter.prune cutoff ev
    ∧ Forall (λ e, e < cutoff) dropped
    ∧ match RateLimiter.prune cutoff ev with
      | [] => True
      | e :: _ => cutoff ≤ e
      end.
Proof.
  induction ev as [|e ev (dropped & Hev & Hdropped & Hhead)]; simpl.
  - exists []. by split_and!.
  - case_bool_decide as He.
    + exists (e :: dropped). split_and!; [by rewrite Hev at 1|by constructor|done].
    + exists []. split_and!; [done|constructor|lia].
Qed.

Lemma StronglySorted_suffix dropped ev :
  StronglySorted Z.le (dropped ++ ev) → StronglySorted Z.le ev.
Proof. apply StronglySorted_app_1_r. Qed.

Lemma sorted_head_bound lo ev :
  StronglySorted Z.le ev →
  match ev with [] => True | e :: _ => lo ≤ e end →
  Forall (λ e, lo ≤ e) ev.
Proof.
  intros Hs Hhead. destruct ev as [|e ev]; [constructor|].
  apply StronglySorted_cons in Hs as [Hall _]. constructor; [done|].
  eapply Forall_impl; [exact Hall|]. simpl. intros. lia.
Qed.

Lemma count_in_app lo hi ev1 ev2 :
  RateLimiter.count_in lo hi (ev1 ++ ev2)
  = RateLimiter.count_in lo hi ev1 + RateLimiter.count_in lo hi ev2.
Proof. unfold RateLimiter.count_in. rewrite filter_app, length_app. lia. Qed.

Lemma count_in_nonneg lo hi ev : 0 ≤ RateLimiter.count_in lo hi ev.
Proof. unfold RateLimiter.count_in. lia. Qed.

Lemma count_in_outside lo hi ev :
  Forall (λ e, e < lo ∨ hi < e) ev → RateLimiter.count_in lo hi ev = 0.
Proof.
  unfold RateLimiter.count_in. induction 1 as [|e ev He _ IH]; [done|].
  rewrite filter_cons_False by lia. done.
Qed.

Lemma count_in_inside lo hi ev :
  Forall (λ e, lo ≤ e ≤ hi) ev →
  RateLimiter.count_in lo hi ev = Z.of_nat (length ev).
Proof.
  unfold RateLimiter.count_in. induction 1 as [|e ev He _ IH]; [done|].
  rewrite filter_cons_True by lia. simpl. lia.
Qed.

Lemma count_in_singleton lo hi e :
  RateLimiter.count_in lo hi [e] = if bool_decide (lo ≤ e ≤ hi) then 1 else 0.
Proof.
  unfold RateLimiter.count_in. rewrite filter_cons, filter_nil.
  case_decide; case_bool_decide; done.
Qed.

(** Timestamps of [ev] from [lo] on *)
Lemma count_in_from lo hi ev :
  RateLimiter.count_in lo hi ev ≤ Z.of_nat (length (filter (λ e, lo ≤ e) ev)).
Proof.
  unfold RateLimiter.count_in. induction ev as [|e ev IH]; [done|].
  rewrite !filter_cons. repeat case_decide; simpl; lia.
Qed.

Lemma length_from_mono lo lo' ev :
  lo ≤ lo' →
  Z.of_nat (length (filter (λ e, lo' ≤ e) ev))
  ≤ Z.of_nat (length (filter (λ e, lo ≤ e) ev)).
Proof.
  intros Hlo. induction ev as [|e ev IH]; [done|].
  rewrite !filter_cons. repeat case_decide; simpl; lia.
Qed.

Lemma length_from_suffix lo dropped ev :
  Z.of_nat (length (filter (λ e, lo ≤ e) ev))
  ≤ Z.of_nat (length (filter (λ e, lo ≤ e) (dropped ++ ev))).
Proof. rewrite filter_app, length_app. lia. Qed.

Lemma length_from_le lo ev :
  Z.of_nat (length (filter (λ e, lo ≤ e) ev)) ≤ Z.of_nat (length ev).
Proof. pose proof (length_filter (λ e, lo ≤ e) ev). lia. Qed.
End RateLimiter_facts.

Section RateLimiter_window.
Implicit Types (l : RateLimiter.t) (clk : Clock.t) (ev dropped hist : list Z).
Implicit Types (q : Q) (m w now stamp : Z) (s : RateLimiter.session).

Lemma window_inv_deque_past m w ev now hist :
  window_inv m w ev now hist → Forall (λ e, e ≤ now) ev.
Proof.
  intros ((old & -> & _) & Hpast & _). by apply Forall_app in Hpast as [_ ?].
Qed.

(** After the pruning at a reading [now1] the deque holds at most [m]
    timestamps. *)
Lemma pruned_length m w ev now hist now1 dropped ev1 :
  window_inv m w ev now hist → now ≤ now1 →
  ev = dropped ++ ev1 → Forall (λ e, now1 - w ≤ e) ev1 →
  Z.of_nat (length ev1) ≤ m.
Proof.
  intros Hinv Hnow -> Hrecent.
  pose proof (window_inv_deque_past _ _ _ _ _ Hinv) as Hpast.
  destruct Hinv as ((old & -> & _) & _ & _ & Hcount).
  specialize (Hcount now1). rewrite !count_in_app in Hcount.
  pose proof (count_in_nonneg (now1 - w) now1 old).
  pose proof (count_in_nonneg (now1 - w) now1 dropped).
  rewrite (count_in_inside _ _ ev1) in Hcount; [lia|].
  apply Forall_app in Hpast as [_ Hpast].
  rewrite Forall_forall in *. intros e He.
  specialize (Hrecent e He). specialize (Hpast e He). simpl in *. lia.
Qed.

(** Recording an admission at [stamp] keeps the invariant when fewer than
    [m] timestamps of the deque are within [w] of [stamp]. *)
Lemma admit_step m w ev now hist dropped ev' now' stamp :
  window_inv m w ev now hist → 0 < w →
  ev = dropped ++ ev' → Forall (λ e, e < now' - w) dropped →
  now ≤ now' → now' ≤ stamp →
  Z.of_nat (length (filter (λ e, stamp - w ≤ e) ev')) ≤ m - 1 →
  window_inv m w (ev' ++ [stamp]) stamp (hist ++ [stamp]).
Proof.
  intros Hinv Hw -> Hdropped Hnow Hstamp Hbound.
  pose proof (window_inv_deque_past _ _ _ _ _ Hinv) as Hdeque.
  destruct Hinv as ((old & -> & Hold) & Hpast & Hsorted & Hcount).
  apply Forall_app in Hdeque as [_ Hdeque].
  split_and!.
  - exists (old ++ dropped). split; [by rewrite <-!app_assoc|].
    apply Forall_app. split.
    + eapply Forall_impl; [exact Hold|]. simpl. intros. lia.
    + eapply Forall_impl; [exact Hdropped|]. simpl. intros. lia.
  - apply Forall_app. split.
    + eapply Forall_impl; [exact Hpast|]. simpl. intros. lia.
    + repeat constructor. lia.
  - apply StronglySorted_app. split_and!.
    + intros e1 e2 He1 He2. apply list_elem_of_singleton in He2 as ->.
      rewrite Forall_forall in Hdeque. specialize (Hdeque e1 He1). simpl in *. lia.
    + by apply StronglySorted_suffix in Hsorted.
    + repeat constructor.
  - intros τ. rewrite count_in_app, count_in_singleton. case_bool_decide as Hin.
    + rewrite !count_in_app.
      rewrite (count_in_outside _ _ old), (count_in_outside _ _ dropped).
      * pose proof (count_in_from (τ - w) τ ev').
        pose proof (length_from_mono (stamp - w) (τ - w) ev'). lia.
      * eapply Forall_impl; [exact Hdropped|]. simpl. intros. lia.
      * eapply Forall_impl; [exact Hold|]. simpl. intros. lia.
    + specialize (Hcount τ). lia.
Qed.

Lemma admitting_start q w lt start_time :
  (1 <= q)%Q →
  admitting q w lt
    (RateLimiter.start (RateLimiter.init q w) (Clock.init start_time lt)).
Proof.
  intros Hq. unfold admitting, window_inv. simpl. split_and!; try done.
  - exists []. by split.
  - constructor.
  - intros τ. unfold RateLimiter.count_in. simpl.
    pose proof (int_lower_bound q Hq). lia.
Qed.

Local Arguments RateLimiter.prune : simpl never.
Local Arguments last : simpl never.
Local Arguments app : simpl never.

Lemma admitting_call q w lt s :
  (1 <= q)%Q → 0 < w → (∀ i, 0 < lt i) →
  admitting q w lt s →
  admitting q w lt (RateLimiter.call s)
  ∧ length (RateLimiter.admitted (RateLimiter.call s))
    = S (length (RateLimiter.admitted s)).
Proof.
  intros Hq Hw Hlat (Hrps & Hwin & Hlt & Hraised & Hinv).
  destruct s as [[q' w' ev] [now lt' n slept] hist raised].
  simpl in *. subst q' w' lt' raised.
  pose proof (int_lower_bound q Hq) as Hm.
  pose proof (Hlat n) as Hl0. pose proof (Hlat (S n)) as Hl1.
  pose proof (Hlat (S (S n))) as Hl2. pose proof (Hlat (S (S (S n)))) as Hl3.
  destruct (prune_split (now + lt n - w) ev) as (dropped & Hev & Hdropped & Hhead).
  assert (StronglySorted Z.le (RateLimiter.prune (now + lt n - w) ev)) as Hsorted1.
  { destruct Hinv as (_ & _ & Hs & _). rewrite Hev in Hs.
    by apply StronglySorted_suffix in Hs. }
  pose proof (sorted_head_bound _ _ Hsorted1 Hhead) as Hrecent.
  assert (Z.of_nat (length (RateLimiter.prune (now + lt n - w) ev))
          ≤ RateLimiter.int q) as Hlen
    by (apply (pruned_length _ w ev now hist (now + lt n) dropped); [done|lia|done..]).
  unfold RateLimiter.call, RateLimiter.wait, RateLimiter.record. simpl.
  rewrite (rps_positive q Hq).
  case_bool_decide as Hfull.
  - destruct (RateLimiter.prune (now + lt n - w) ev) as [|oldest rest] eqn:Hpruned.
    { simpl in Hfull. lia. }
    case_bool_decide as Hsleep; simpl.
    + (* the caller sleeps, prunes again and records *)
      rewrite (rps_positive q Hq), last_snoc. simpl.
      remember (now + lt n + (oldest + w - (now + lt n)) + lt (S n) + lt (S (S n)))
        as now2 eqn:Hnow2.
      destruct (prune_split (now2 - w) (oldest :: rest))
        as (dropped2 & Hev2 & Hdropped2 & _).
      split; [|rewrite length_app; simpl; lia].
      unfold admitting. simpl. split_and!; try done.
      apply (admit_step _ w ev now hist (dropped ++ dropped2) _ now2);
        [done..| | |lia|lia|].
      * rewrite <-app_assoc, <-Hev2. done.
      * apply Forall_app. split; [|done].
        eapply Forall_impl; [exact Hdropped|]. simpl. intros. lia.
      * pose proof (length_from_suffix (now2 + lt (S (S (S n))) - w) dropped2
                      (RateLimiter.prune (now2 - w) (oldest :: rest))) as Hsuf.
        rewrite <-Hev2 in Hsuf. rewrite filter_cons_False in Hsuf by lia.
        pose proof (length_from_le (now2 + lt (S (S (S n))) - w) rest).
        simpl in Hlen. lia.
    + (* the oldest timestamp is exactly one window old: no sleep *)
      rewrite (rps_positive q Hq), last_snoc. simpl.
      split; [|rewrite length_app; simpl; lia].
      unfold admitting. simpl. split_and!; try done.
      apply (admit_step _ w ev now hist dropped _ (now + lt n));
        [done..|lia|lia|].
      rewrite filter_cons_False by lia.
      pose proof (length_from_le (now + lt n + lt (S n) - w) rest).
      simpl in Hlen. lia.
  - (* room in the window: record at once *)
    simpl. rewrite (rps_positive q Hq), last_snoc. simpl.
    split; [|rewrite length_app; simpl; lia].
    unfold admitting. simpl. split_and!; try done.
    apply (admit_step _ w ev now hist dropped _ (now + lt n));
      [done..|lia|lia|].
    pose proof (length_from_le (now + lt n + lt (S n) - w)
                  (RateLimiter.prune (now + lt n - w) ev)). lia.
Qed.

Lemma admitting_calls q w lt s n :
  (1 <= q)%Q → 0 < w → (∀ i, 0 < lt i) →
  admitting q w lt s →
  admitting q w lt (RateLimiter.calls n s)
  ∧ length (RateLimiter.admitted (RateLimiter.calls n s))
    = (n + length (RateLimiter.admitted s))%nat.
Proof.
  intros Hq Hw Hlat Hs. induction n as [|n [IH Hlen]]; simpl; [done|].
  destruct (admitting_call q w lt (RateLimiter.calls n s)) as [Hcall Hlen'];
    [done..|].
  split; [done|]. unfold RateLimiter.calls in *. simpl in *. lia.
Qed.
End RateLimiter_window.

(** A limiter that is switched off or has room for at least one event per
    window never raises. *)
Lemma wait_returns (l : RateLimiter.t) (clk : Clock.t) :
  (RateLimiter.rps l <= 0)%Q ∨ (1 <= RateLimiter.rps l)%Q →
  ∃ l' clk', RateLimiter.wait l clk = (Ok (), l', clk').
Proof.
  intros [Hoff|Hon]; unfold RateLimiter.wait.
  - apply Qle_bool_iff in Hoff as ->. eauto.
  - rewrite rps_positive by done. pose proof (int_lower_bound _ Hon) as Hm.
    unfold RateLimiter.record. simpl. case_bool_decide as Hfull; [|eauto].
    destruct (RateLimiter.prune _ _) as [|oldest rest]; [simpl in Hfull; lia|].
    case_bool_decide; eauto.
Qed.

Lemma wait_disabled (l : RateLimiter.t) (clk : Clock.t) :
  (RateLimiter.rps l <= 0)%Q → RateLimiter.wait l clk = (Ok (), l, clk).
Proof. intros Hoff. unfold RateLimiter.wait. by apply Qle_bool_iff in Hoff as ->. Qed.




(** C6 fails on the code for a rate strictly between 0 and 1: [int(rps)]
    is [0], the test [len(self.events) >= int(self.rps)] passes on the
    empty deque, and [self.events[0]] raises [IndexError]. *)
Theorem C6_wait_raises_for_fractional_rate (q : Q) (w : Z) (clk : Clock.t) :
  (0 < q)%Q → (q < 1)%Q →
  RateLimiter.wait (RateLimiter.init q w) clk
  = (Raise IndexError, RateLimiter.init q w, (Clock.time clk).2).
Proof.
  intros Hpos Hfrac. unfold RateLimiter.wait. simpl.
  destruct (Qle_bool q 0) eqn:Hoff.
  { apply Qle_bool_iff in Hoff. exfalso. by apply (Qlt_not_le 0 q). }
  rewrite int_fraction by done. simpl. done.
Qed.

Lemma C6_wait_raises_for_fractional_rate_witness :
  (0 < 1 # 2)%Q ∧ (1 # 2 < 1)%Q
  ∧ (RateLimiter.wait (RateLimiter.init (1 # 2) 1) (Clock.init 0 (λ _, 1))).1.1
    = Raise IndexError.
Proof.
  assert ((0 < 1 # 2)%Q) as Hpos by reflexivity.
  assert ((1 # 2 < 1)%Q) as Hfrac by reflexivity.
  split_and!; [exact Hpos|exact Hfrac|].
  by rewrite (C6_wait_raises_for_fractional_rate (1 # 2) 1 (Clock.init 0 (λ _, 1))
                Hpos Hfrac).
Defined.

(** ** The get-or-fetch functions *)

Section Weather_facts.
Variable float_of_str : string → option Q.
Variable str_of_float : Q → string.
Variable cfg : Config.t.
Implicit Types (w : Weather.world) (city units text : string) (lat lon : Q).

Lemma get_nothing_new {V : Type} (c : TTLCache.t string V) key ttl now :
  nothing_new c (TTLCache.get c key ttl now).2.
Proof.
  intros k v. unfold TTLCache.get.
  destruct (OrderedDict.contains key (TTLCache.cache c)) eqn:Hin; simpl; [|done].
  destruct (TTLCache.expirations c !! key); [|done].
  case_bool_decide.
  - simpl. rewrite Hin. destruct (decide (k = key)) as [->|Hne].
    + intros Hk. pose proof (not_elem_of_keys_delitem key (TTLCache.cache c)) as Hno.
      apply getitem_None in Hno. congruence.
    + by rewrite getitem_delitem_other.
  - unfold OrderedDict.move_to_end.
    destruct (OrderedDict.getitem key (TTLCache.cache c)) as [v0|] eqn:Hv0; [|done].
    rewrite getitem_app_last by apply not_elem_of_keys_delitem. simpl.
    destruct (decide (k = key)) as [->|Hne].
    + rewrite getitem_app_last by apply not_elem_of_keys_delitem. congruence.
    + rewrite getitem_app_other, getitem_delitem_other by done. done.
Qed.

(** On a cache whose two maps agree the lookup returns: the value of a
    fresh entry, or [None]. *)
Lemma cache_get_returns {V : Type} (c : TTLCache.t string V) key ttl clk :
  consistent c →
  ∃ r now,
    Weather.cache_get c key ttl clk
    = (Ok r, (TTLCache.get c key ttl now).2,
       if OrderedDict.contains key (TTLCache.cache c) then (Clock.time clk).2 else clk)
    ∧ (TTLCache.get c key ttl now).1 = Ok r.
Proof.
  intros Hc. unfold Weather.cache_get.
  destruct (OrderedDict.contains key (TTLCache.cache c)) eqn:Hin.
  - simpl. set (now := Clock.now clk + Clock.lat clk (Clock.calls clk)).
    destruct (get_cases c key ttl now Hc)
      as [[_ Hget]|[(e & _ & _ & _ & Hget)|(e & v & _ & _ & _ & _ & Hget)]];
      rewrite Hget; eexists _, now; rewrite Hget; done.
  - apply contains_false in Hin.
    rewrite (get_absent c key ttl (Clock.now clk) Hin).
    exists None, (Clock.now clk). by rewrite (get_absent c key ttl (Clock.now clk) Hin).
Qed.

Lemma cache_get_absent {V : Type} (c : TTLCache.t string V) key ttl clk :
  key ∉ TTLCache.keys c → Weather.cache_get c key ttl clk = (Ok None, c, clk).
Proof.
  intros Hk. unfold Weather.cache_get.
  pose proof Hk as Hk'. apply contains_false in Hk' as ->.
  by rewrite get_absent.
Qed.

(** *** Hits *)

Lemma get_coordinates_hit w city coords c clk :
  Weather.cache_get (Weather.geocode_cache w) ("geo_" +:+ city)
    (Config.GEOCODE_TTL cfg) (Weather.clock w) = (Ok (Some coords), c, clk) →
  Weather.get_coordinates float_of_str cfg city w
  = (Ok coords,
     Weather.mk c (Weather.weather_cache w) (Weather.forecast_cache w)
       (Weather.rate_limiter w) clk (Weather.net w) (Weather.sent w)).
Proof.
  intros Hget. unfold Weather.get_coordinates, Weather.bind, Weather.geocode_get.
  by rewrite Hget.
Qed.

Lemma get_current_weather_hit w lat lon units data c clk :
  Weather.cache_get (Weather.weather_cache w)
    ("weather_" +:+ str_of_float lat +:+ "_" +:+ str_of_float lon +:+ "_" +:+ units)
    (Config.WEATHER_TTL cfg) (Weather.clock w) = (Ok (Some data), c, clk) →
  Json.truthy data = true →
  Weather.get_current_weather str_of_float cfg lat lon units w
  = (Ok data,
     Weather.mk (Weather.geocode_cache w) c (Weather.forecast_cache w)
       (Weather.rate_limiter w) clk (Weather.net w) (Weather.sent w)).
Proof.
  intros Hget Htrue.
  unfold Weather.get_current_weather, Weather.bind, Weather.weather_get.
  rewrite Hget. simpl. by rewrite Htrue.
Qed.

Lemma get_weather_forecast_hit w lat lon days units data c clk :
  Weather.cache_get (Weather.forecast_cache w)
    ("forecast_" +:+ str_of_float lat +:+ "_" +:+ str_of_float lon
       +:+ "_" +:+ pretty days +:+ "_" +:+ units)
    (Config.FORECAST_TTL cfg) (Weather.clock w) = (Ok (Some data), c, clk) →
  Json.truthy data = true →
  Weather.get_weather_forecast str_of_float cfg lat lon days units w
  = (Ok data,
     Weather.mk (Weather.geocode_cache w) (Weather.weather_cache w) c
       (Weather.rate_limiter w) clk (Weather.net w) (Weather.sent w)).
Proof.
  intros Hget Htrue.
  unfold Weather.get_weather_forecast, Weather.bind, Weather.forecast_get.
  rewrite Hget. simpl. by rewrite Htrue.
Qed.

(** *** A fetch that fails *)

Lemma get_coordinates_fetch_failed w city c clk l clk' text :
  Weather.cache_get (Weather.geocode_cache w) ("geo_" +:+ city)
    (Config.GEOCODE_TTL cfg) (Weather.clock w) = (Ok None, c, clk) →
  RateLimiter.wait (Weather.rate_limiter w) clk = (Ok (), l, clk') →
  Weather.net w (length (Weather.sent w)) = Weather.Failed text →
  ∃ req,
    Weather.get_coordinates float_of_str cfg city w
    = (Raise (GeocodingError ("获取城市坐标失败: " +:+ text)),
       Weather.mk c (Weather.weather_cache w) (Weather.forecast_cache w)
         l clk' (Weather.net w) (Weather.sent w ++ [req])).
Proof.
  intros Hget Hwait Hnet. eexists.
  unfold Weather.get_coordinates, Weather.bind, Weather.geocode_get,
    Weather.rate_limiter_wait, Weather.try_except, Weather.fetch.
  rewrite Hget. simpl. rewrite Hwait. simpl. rewrite Hnet. simpl. done.
Qed.

Lemma get_current_weather_fetch_failed w lat lon units cached c clk l clk' text :
  Weather.cache_get (Weather.weather_cache w)
    ("weather_" +:+ str_of_float lat +:+ "_" +:+ str_of_float lon +:+ "_" +:+ units)
    (Config.WEATHER_TTL cfg) (Weather.clock w) = (Ok cached, c, clk) →
  Weather.truthy_json cached = false →
  RateLimiter.wait (Weather.rate_limiter w) clk = (Ok (), l, clk') →
  Weather.net w (length (Weather.sent w)) = Weather.Failed text →
  ∃ req,
    Weather.get_current_weather str_of_float cfg lat lon units w
    = (Raise (WeatherAPIError ("获取天气数据失败: " +:+ text)),
       Weather.mk (Weather.geocode_cache w) c (Weather.forecast_cache w)
         l clk' (Weather.net w) (Weather.sent w ++ [req])).
Proof.
  intros Hget Hfalse Hwait Hnet. eexists.
  unfold Weather.get_current_weather, Weather.bind, Weather.weather_get,
    Weather.rate_limiter_wait, Weather.try_except, Weather.fetch.
  rewrite Hget. simpl. rewrite Hfalse. simpl. rewrite Hwait. simpl.
  rewrite Hnet. simpl. done.
Qed.

Lemma get_weather_forecast_fetch_failed w lat lon days units cached c clk l clk' text :
  Weather.cache_get (Weather.forecast_cache w)
    ("forecast_" +:+ str_of_float lat +:+ "_" +:+ str_of_float lon
       +:+ "_" +:+ pretty days +:+ "_" +:+ units)
    (Config.FORECAST_TTL cfg) (Weather.clock w) = (Ok cached, c, clk) →
  Weather.truthy_json cached = false →
  RateLimiter.wait (Weather.rate_limiter w) clk = (Ok (), l, clk') →
  Weather.net w (length (Weather.sent w)) = Weather.Failed text →
  ∃ req,
    Weather.get_weather_forecast str_of_float cfg lat lon days units w
    = (Raise (WeatherAPIError ("获取天气预报失败: " +:+ text)),
       Weather.mk (Weather.geocode_cache w) (Weather.weather_cache w) c
         l clk' (Weather.net w) (Weather.sent w ++ [req])).
Proof.
  intros Hget Hfalse Hwait Hnet. eexists.
  unfold Weather.get_weather_forecast, Weather.bind, Weather.forecast_get,
    Weather.rate_limiter_wait, Weather.try_except, Weather.fetch.
  rewrite Hget. simpl. rewrite Hfalse. simpl. rewrite Hwait. simpl.
  rewrite Hnet. simpl. done.
Qed.

(** *** An empty result set *)

Lemma get_coordinates_not_found w city c clk l clk' data :
  Weather.cache_get (Weather.geocode_cache w) ("geo_" +:+ city)
    (Config.GEOCODE_TTL cfg) (Weather.clock w) = (Ok None, c, clk) →
  RateLimiter.wait (Weather.rate_limiter w) clk = (Ok (), l, clk') →
  Weather.net w (length (Weather.sent w)) = Weather.Body data →
  Json.truthy data = false →
  ∃ req,
    Weather.get_coordinates float_of_str cfg city w
    = (Raise (GeocodingError ("无法找到城市: " +:+ city)),
       Weather.mk c (Weather.weather_cache w) (Weather.forecast_cache w)
         l clk' (Weather.net w) (Weather.sent w ++ [req])).
Proof.
  intros Hget Hwait Hnet Hempty. eexists.
  unfold Weather.get_coordinates, Weather.bind, Weather.geocode_get,
    Weather.rate_limiter_wait, Weather.try_except, Weather.fetch.
  rewrite Hget. simpl. rewrite Hwait. simpl. rewrite Hnet. simpl.
  rewrite Hempty. simpl. done.
Qed.
End Weather_facts.

(** *** Outcomes of a get-or-fetch call *)

Section Weather_failure.
Variable float_of_str : string → option Q.
Variable str_of_float : Q → string.
Variable cfg : Config.t.
Implicit Types (w : Weather.world) (city units text : string) (lat lon : Q).

Lemma get_coordinates_failure w city text :
  consistent (Weather.geocode_cache w) → limiter_admits w →
  Weather.net w (length (Weather.sent w)) = Weather.Failed text →
  let res := Weather.get_coordinates float_of_str cfg city w in
  (served_from_cache w res
   ∨ failed_without_write Weather.geocode_cache ("geo_" +:+ city)
       (GeocodingError ("获取城市坐标失败: " +:+ text)) w res)
  ∧ Weather.weather_cache res.2 = Weather.weather_cache w
  ∧ Weather.forecast_cache res.2 = Weather.forecast_cache w.
Proof.
  intros Hc Hlim Hnet res.
  destruct (cache_get_returns (Weather.geocode_cache w) ("geo_" +:+ city)
              (Config.GEOCODE_TTL cfg) (Weather.clock w) Hc)
    as (r & now & Hget & Hr).
  destruct r as [coords|].
  - unfold res. rewrite (get_coordinates_hit _ _ _ _ _ _ _ Hget). simpl.
    split; [left|done]. split_and!; [by eexists|done..].
  - destruct (wait_returns (Weather.rate_limiter w)
                (if OrderedDict.contains ("geo_" +:+ city)
                      (TTLCache.cache (Weather.geocode_cache w))
                 then (Clock.time (Weather.clock w)).2 else Weather.clock w) Hlim)
      as (l & clk' & Hwait).
    destruct (get_coordinates_fetch_failed float_of_str cfg _ _ _ _ _ _ _
                Hget Hwait Hnet) as [req Hres].
    unfold res. rewrite Hres. simpl. split; [right|done].
    split_and!; simpl.
    + done.
    + rewrite length_app. simpl. lia.
    + by eexists _, now.
    + apply get_nothing_new.
    + intros Hk. by rewrite get_absent.
Qed.

Lemma get_current_weather_failure w lat lon units text :
  consistent (Weather.weather_cache w) → limiter_admits w →
  Weather.net w (length (Weather.sent w)) = Weather.Failed text →
  let res := Weather.get_current_weather str_of_float cfg lat lon units w in
  (served_from_cache w res
   ∨ failed_without_write Weather.weather_cache
       ("weather_" +:+ str_of_float lat +:+ "_" +:+ str_of_float lon
          +:+ "_" +:+ units)
       (WeatherAPIError ("获取天气数据失败: " +:+ text)) w res)
  ∧ Weather.geocode_cache res.2 = Weather.geocode_cache w
  ∧ Weather.forecast_cache res.2 = Weather.forecast_cache w.
Proof.
  intros Hc Hlim Hnet res.
  destruct (cache_get_returns (Weather.weather_cache w)
              ("weather_" +:+ str_of_float lat +:+ "_" +:+ str_of_float lon
                 +:+ "_" +:+ units)
              (Config.WEATHER_TTL cfg) (Weather.clock w) Hc)
    as (r & now & Hget & Hr).
  destruct (Weather.truthy_json r) eqn:Htruthy.
  - destruct r as [data|]; [|done]. simpl in Htruthy.
    unfold res. rewrite (get_current_weather_hit _ _ _ _ _ _ _ _ _ Hget Htruthy).
    simpl. split; [left|done]. split_and!; [by eexists|done..].
  - destruct (wait_returns (Weather.rate_limiter w)
                (if OrderedDict.contains
                      ("weather_" +:+ str_of_float lat +:+ "_" +:+ str_of_float lon
                         +:+ "_" +:+ units)
                      (TTLCache.cache (Weather.weather_cache w))
                 then (Clock.time (Weather.clock w)).2 else Weather.clock w) Hlim)
      as (l & clk' & Hwait).
    destruct (get_current_weather_fetch_failed str_of_float cfg _ _ _ _ _ _ _ _ _ _
                Hget Htruthy Hwait Hnet) as [req Hres].
    unfold res. rewrite Hres. simpl. split; [right|done].
    split_and!; simpl.
    + done.
    + rewrite length_app. simpl. lia.
    + by eexists _, now.
    + apply get_nothing_new.
    + intros Hk. by rewrite get_absent.
Qed.

Lemma get_weather_forecast_failure w lat lon days units text :
  consistent (Weather.forecast_cache w) → limiter_admits w →
  Weather.net w (length (Weather.sent w)) = Weather.Failed text →
  let res := Weather.get_weather_forecast str_of_float cfg lat lon days units w in
  (served_from_cache w res
   ∨ failed_without_write Weather.forecast_cache
       ("forecast_" +:+ str_of_float lat +:+ "_" +:+ str_of_float lon
          +:+ "_" +:+ pretty days +:+ "_" +:+ units)
       (WeatherAPIError ("获取天气预报失败: " +:+ text)) w res)
  ∧ Weather.geocode_cache res.2 = Weather.geocode_cache w
  ∧ Weather.weather_cache res.2 = Weather.weather_cache w.
Proof.
  intros Hc Hlim Hnet res.
  destruct (cache_get_returns (Weather.forecast_cache w)
              ("forecast_" +:+ str_of_float lat +:+ "_" +:+ str_of_float lon
                 +:+ "_" +:+ pretty days +:+ "_" +:+ units)
              (Config.FORECAST_TTL cfg) (Weather.clock w) Hc)
    as (r & now & Hget & Hr).
  destruct (Weather.truthy_json r) eqn:Htruthy.
  - destruct r as [data|]; [|done]. simpl in Htruthy.
    unfold res. rewrite (get_weather_forecast_hit _ _ _ _ _ _ _ _ _ _ Hget Htruthy).
    simpl. split; [left|done]. split_and!; [by eexists|done..].
  - destruct (wait_returns (Weather.rate_limiter w)
                (if OrderedDict.contains
                      ("forecast_" +:+ str_of_float lat +:+ "_" +:+ str_of_float lon
                         +:+ "_" +:+ pretty days +:+ "_" +:+ units)
                      (TTLCache.cache (Weather.forecast_cache w))
                 then (Clock.time (Weather.clock w)).2 else Weather.clock w) Hlim)
      as (l & clk' & Hwait).
    destruct (get_weather_forecast_fetch_failed str_of_float cfg _ _ _ _ _ _ _ _ _ _ _
                Hget Htruthy Hwait Hnet) as [req Hres].
    unfold res. rewrite Hres. simpl. split; [right|done].
    split_and!; simpl.
    + done.
    + rewrite length_app. simpl. lia.
    + by eexists _, now.
    + apply get_nothing_new.
    + intros Hk. by rewrite get_absent.
Qed.
End Weather_failure.

(** ** Scenarios on concrete worlds *)
(** C7 fails on the code for a cached value that Python takes as false.
    [get_current_weather] stores [data.get("current_weather", {})]; when
    the body has no such field the empty dict is cached, and the next
    lookup of the same key, 4 seconds into a ttl of 300, finds it, tests
    [if cached:], and goes to the limiter and the network again. *)
Theorem C7_cached_empty_payload_is_fetched_again :
  let w0 := Weather.init Config.default (Clock.init 0 (λ _, 1))
              net_no_current_weather in
  let key := "weather_" +:+ sample_str_of_float (4885 # 100)%Q +:+ "_"
               +:+ sample_str_of_float (235 # 100)%Q +:+ "_" +:+ "metric" in
  let call := Weather.get_current_weather sample_str_of_float Config.default
                (4885 # 100)%Q (235 # 100)%Q "metric" in
  let first := call w0 in
  let second := call first.2 in
  first.1 = Ok (Json.Obj [])
  ∧ length (Weather.sent first.2) = 1%nat
  ∧ TTLCache.cache (Weather.weather_cache first.2) = [(key, Json.Obj [])]
  ∧ TTLCache.expirations (Weather.weather_cache first.2) !! key = Some 303
  ∧ (Weather.cache_get (Weather.weather_cache first.2) key 300
       (Weather.clock first.2)).1.1 = Ok (Some (Json.Obj []))
  ∧ Clock.now (Weather.clock second.2) = 7
  ∧ second.1 = Ok (Json.Obj [])
  ∧ length (Weather.sent second.2) = 2%nat
  ∧ RateLimiter.events (Weather.rate_limiter first.2) = [2]
  ∧ RateLimiter.events (Weather.rate_limiter second.2) = [6].
Proof. vm_compute. split_and!; reflexivity. Qed.

(** C8, as the code has it: when the request fails after the retries of
    the session and the limiter is one that admits ([rps <= 0] or
    [rps >= 1]), each get-or-fetch function either was served from its
    cache without sending anything, or raises its domain error
    ([GeocodingError], [WeatherAPIError]) carrying the text of the
    failure, and its cache is the one the initial lookup of the key left:
    no entry is added or changed, the cache is untouched when the key was
    not in it, and the other caches are untouched. *)
Theorem C8_failed_fetch_writes_nothing
    (float_of_str : string → option Q) (str_of_float : Q → string)
    (cfg : Config.t) (w : Weather.world)
    (city units text : string) (lat lon : Q) (days : Z) :
  consistent (Weather.geocode_cache w) →
  consistent (Weather.weather_cache w) →
  consistent (Weather.forecast_cache w) →
  limiter_admits w →
  Weather.net w (length (Weather.sent w)) = Weather.Failed text →
  (let res := Weather.get_coordinates float_of_str cfg city w in
   (served_from_cache w res
    ∨ failed_without_write Weather.geocode_cache ("geo_" +:+ city)
        (GeocodingError ("获取城市坐标失败: " +:+ text)) w res)
   ∧ Weather.weather_cache res.2 = Weather.weather_cache w
   ∧ Weather.forecast_cache res.2 = Weather.forecast_cache w)
  ∧ (let res := Weather.get_current_weather str_of_float cfg lat lon units w in
     (served_from_cache w res
      ∨ failed_without_write Weather.weather_cache
          ("weather_" +:+ str_of_float lat +:+ "_" +:+ str_of_float lon
             +:+ "_" +:+ units)
          (WeatherAPIError ("获取天气数据失败: " +:+ text)) w res)
     ∧ Weather.geocode_cache res.2 = Weather.geocode_cache w
     ∧ Weather.forecast_cache res.2 = Weather.forecast_cache w)
  ∧ (let res := Weather.get_weather_forecast str_of_float cfg lat lon days units w in
     (served_from_cache w res
      ∨ failed_without_write Weather.forecast_cache
          ("forecast_" +:+ str_of_float lat +:+ "_" +:+ str_of_float lon
             +:+ "_" +:+ pretty days +:+ "_" +:+ units)
          (WeatherAPIError ("获取天气预报失败: " +:+ text)) w res)
     ∧ Weather.geocode_cache res.2 = Weather.geocode_cache w
     ∧ Weather.weather_cache res.2 = Weather.weather_cache w).
Proof.
  intros Hg Hw Hf Hlim Hnet. split_and!.
  - by apply get_coordinates_failure.
  - by apply get_current_weather_failure.
  - by apply get_weather_forecast_failure.
Qed.

Lemma C8_failed_fetch_writes_nothing_witness :
  let w := Weather.init Config.default (Clock.init 0 (λ _, 1))
             (λ _, Weather.Failed "timeout") in
  let res := Weather.get_coordinates sample_float_of_str Config.default "Paris" w in
  served_from_cache w res
  ∨ failed_without_write Weather.geocode_cache ("geo_" +:+ "Paris")
      (GeocodingError ("获取城市坐标失败: " +:+ "timeout")) w res.
Proof.
  intros w res.
  assert (consistent (Weather.geocode_cache w)) as Hg by apply consistent_init.
  assert (consistent (Weather.weather_cache w)) as Hw by apply consistent_init.
  assert (consistent (Weather.forecast_cache w)) as Hf by apply consistent_init.
  assert (limiter_admits w) as Hlim by (right; vm_compute; discriminate).
  assert (Weather.net w (length (Weather.sent w)) = Weather.Failed "timeout")
    as Hnet by reflexivity.
  exact (proj1 (proj1 (C8_failed_fetch_writes_nothing sample_float_of_str
    sample_str_of_float Config.default w "Paris" "metric" "timeout" 0 0 7
    Hg Hw Hf Hlim Hnet))).
Defined.

(** C8 as the specification words it fails when the key has an expired
    entry: the lookup that precedes the fetch deletes it, so a call whose
    fetch fails leaves a cache that differs from the one it found. Here
    the first call caches the coordinates of Paris at time 3 for 3600
    seconds; the second call, at time 5003, purges the entry, and its
    request times out. *)
Lemma C8_expired_entry_purged_before_failed_fetch :
  let w0 := Weather.init Config.default (Clock.init 0 slow_after_three)
              net_one_answer in
  let call := Weather.get_coordinates sample_float_of_str Config.default "Paris" in
  let first := call w0 in
  let second := call first.2 in
  first.1 = Ok ((4885 # 100)%Q, (235 # 100)%Q)
  ∧ TTLCache.cache (Weather.geocode_cache first.2)
    = [("geo_Paris", ((4885 # 100)%Q, (235 # 100)%Q))]
  ∧ TTLCache.expirations (Weather.geocode_cache first.2) !! "geo_Paris" = Some 3603
  ∧ second.1 = Raise (GeocodingError ("获取城市坐标失败: " +:+ "timeout"))
  ∧ TTLCache.cache (Weather.geocode_cache second.2) = []
  ∧ TTLCache.size (Weather.geocode_cache first.2) = 1
  ∧ TTLCache.size (Weather.geocode_cache second.2) = 0
  ∧ Weather.geocode_cache second.2 ≠ Weather.geocode_cache first.2.
Proof.
  vm_compute. split_and!; try reflexivity. intros Heq. discriminate Heq.
Qed.

(** C9, as the code has it: on a miss with an admitting limiter,
    [get_coordinates] raises [GeocodingError] both when the service
    answers an empty result set and when the request fails; the two
    exceptions have the same class and differ in their message only, the
    first starting with the "city not found" text followed by the city,
    the second with the "fetching the coordinates failed" text followed by
    the text of the failure. *)
Theorem C9_not_found_and_unreachable_same_class
    (float_of_str : string → option Q) (cfg : Config.t)
    (w1 w2 : Weather.world) (city text : string) (data : Json.t) :
  "geo_" +:+ city ∉ TTLCache.keys (Weather.geocode_cache w1) →
  "geo_" +:+ city ∉ TTLCache.keys (Weather.geocode_cache w2) →
  limiter_admits w1 → limiter_admits w2 →
  Weather.net w1 (length (Weather.sent w1)) = Weather.Body data →
  Json.truthy data = false →
  Weather.net w2 (length (Weather.sent w2)) = Weather.Failed text →
  ∃ e1 e2,
    (Weather.get_coordinates float_of_str cfg city w1).1 = Raise e1
    ∧ (Weather.get_coordinates float_of_str cfg city w2).1 = Raise e2
    ∧ e1 = GeocodingError ("无法找到城市: " +:+ city)
    ∧ e2 = GeocodingError ("获取城市坐标失败: " +:+ text)
    ∧ class_of e1 = "GeocodingError"
    ∧ class_of e2 = "GeocodingError"
    ∧ e1 ≠ e2.
Proof.
  intros Hmiss1 Hmiss2 Hlim1 Hlim2 Hnet1 Hempty Hnet2.
  destruct (wait_returns (Weather.rate_limiter w1) (Weather.clock w1) Hlim1)
    as (l1 & clk1 & Hwait1).
  destruct (wait_returns (Weather.rate_limiter w2) (Weather.clock w2) Hlim2)
    as (l2 & clk2 & Hwait2).
  destruct (get_coordinates_not_found float_of_str cfg w1 city _ _ _ _ data
              (cache_get_absent _ _ _ _ Hmiss1) Hwait1 Hnet1 Hempty) as [req1 Hres1].
  destruct (get_coordinates_fetch_failed float_of_str cfg w2 city _ _ _ _ text
              (cache_get_absent _ _ _ _ Hmiss2) Hwait2 Hnet2) as [req2 Hres2].
  eexists _, _. rewrite Hres1, Hres2. simpl.
  split_and!; [done..|]. intros Heq. simpl in Heq. discriminate Heq.
Qed.

Lemma C9_not_found_and_unreachable_same_class_witness :
  let w1 := Weather.init Config.default (Clock.init 0 (λ _, 1))
              (λ _, Weather.Body (Json.Arr [])) in
  let w2 := Weather.init Config.default (Clock.init 0 (λ _, 1))
              (λ _, Weather.Failed "timeout") in
  ∃ e1 e2,
    (Weather.get_coordinates sample_float_of_str Config.default "Atlantis" w1).1
    = Raise e1
    ∧ (Weather.get_coordinates sample_float_of_str Config.default "Atlantis" w2).1
      = Raise e2
    ∧ class_of e1 = "GeocodingError" ∧ class_of e2 = "GeocodingError".
Proof.
  intros w1 w2.
  assert ("geo_" +:+ "Atlantis" ∉ TTLCache.keys (Weather.geocode_cache w1))
    as Hmiss1 by apply not_elem_of_nil.
  assert ("geo_" +:+ "Atlantis" ∉ TTLCache.keys (Weather.geocode_cache w2))
    as Hmiss2 by apply not_elem_of_nil.
  assert (limiter_admits w1) as Hlim1 by (right; vm_compute; discriminate).
  assert (limiter_admits w2) as Hlim2 by (right; vm_compute; discriminate).
  destruct (C9_not_found_and_unreachable_same_class sample_float_of_str
              Config.default w1 w2 "Atlantis" "timeout" (Json.Arr [])
              Hmiss1 Hmiss2 Hlim1 Hlim2 eq_refl eq_refl eq_refl)
    as (e1 & e2 & H1 & H2 & _ & _ & Hc1 & Hc2 & _).
  by exists e1, e2.
Defined.

(** C9 as the specification words it fails: the error raised for an empty
    result set and the error raised for a request that timed out are of
    one and the same class. *)
Lemma C9_same_error_class_for_both_failures :
  let w1 := Weather.init Config.default (Clock.init 0 (λ _, 1))
              (λ _, Weather.Body (Json.Arr [])) in
  let w2 := Weather.init Config.default (Clock.init 0 (λ _, 1))
              (λ _, Weather.Failed "timeout") in
  let not_found :=
    (Weather.get_coordinates sample_float_of_str Config.default "Atlantis" w1).1 in
  let unreachable :=
    (Weather.get_coordinates sample_float_of_str Config.default "Atlantis" w2).1 in
  not_found = Raise (GeocodingError ("无法找到城市: " +:+ "Atlantis"))
  ∧ unreachable = Raise (GeocodingError ("获取城市坐标失败: " +:+ "timeout"))
  ∧ ¬ (∀ e1 e2, not_found = Raise e1 → unreachable = Raise e2 →
               class_of e1 ≠ class_of e2).
Proof.
  vm_compute. split_and!; [reflexivity..|].
  intros Hdiff. by eapply Hdiff.
Qed.

(** ** More on the cache *)

Section TTLCache_more.
Context {K : Type} `{Countable K} {V : Type}.
Implicit Types (c : TTLCache.t K V) (k key : K) (v value : V).
Implicit Types (ttl now : Z) (ops : list (TTLCache.op K V)).

Lemma written_twice c c1 key v1 t1 n1 v2 t2 n2 :
  written (written c c1 key v1 t1 n1) (written c c1 key v1 t1 n1) key v2 t2 n2
  = written c c1 key v2 t2 n2.
Proof.
  unfold written. simpl. f_equal.
  - rewrite delitem_app, delitem_idemp. unfold OrderedDict.delitem at 2.
    rewrite filter_cons_False by (simpl; tauto). by rewrite filter_nil, app_nil_r.
  - apply insert_insert_eq.
Qed.

Lemma written_size c c1 key v1 t1 n1 v2 t2 n2 :
  TTLCache.size (written c c1 key v2 t2 n2) = TTLCache.size (written c c1 key v1 t1 n1).
Proof.
  unfold TTLCache.size, OrderedDict.len, written. simpl. by rewrite !length_app.
Qed.

Lemma init_stuck n ops :
  n ≤ 0 → TTLCache.run (TTLCache.init (K:=K) (V:=V) n) ops = TTLCache.init n.
Proof.
  intros Hn. induction ops as [|o ops IH]; [done|].
  unfold TTLCache.run in *. simpl.
  assert (TTLCache.step (TTLCache.init (K:=K) (V:=V) n) o = TTLCache.init n) as ->;
    [|done].
  destruct o as [key ttl now|key value ttl now|]; simpl; [done| |done].
  by rewrite set_on_empty_full.
Qed.
End TTLCache_more.

(** X1: a second [set] of the same key replaces what the first one wrote
    and nothing else: the cache is the one the second [set] alone would
    have left, with as many entries as after the first, the key last in
    the order, its value the second value and its expiry counted from the
    second call. *)
Theorem X1_set_overwrites {K : Type} `{Countable K} {V : Type}
    (c c1 : TTLCache.t K V) (k : K) (v1 v2 : V) (t1 n1 t2 n2 : Z) :
  TTLCache.set c k v1 t1 n1 = (Ok (), c1) →
  TTLCache.set c1 k v2 t2 n2 = TTLCache.set c k v2 t2 n2
  ∧ (TTLCache.set c1 k v2 t2 n2).1 = Ok ()
  ∧ let c2 := (TTLCache.set c1 k v2 t2 n2).2 in
    TTLCache.size c2 = TTLCache.size c1
    ∧ last (TTLCache.keys c2) = Some k
    ∧ OrderedDict.getitem k (TTLCache.cache c2) = Some v2
    ∧ TTLCache.expirations c2 !! k = Some (n2 + t2)
    ∧ (∀ k', k' ≠ k →
         OrderedDict.getitem k' (TTLCache.cache c2)
         = OrderedDict.getitem k' (TTLCache.cache c1)
         ∧ TTLCache.expirations c2 !! k' = TTLCache.expirations c1 !! k').
Proof.
  intros Hset.
  assert (∃ cx, c1 = written c cx k v1 t1 n1
                ∧ TTLCache.set c k v2 t2 n2 = (Ok (), written c cx k v2 t2 n2))
    as (cx & -> & Hset2).
  { destruct (set_cases c k v1 t1 n1)
      as [[Hroom Heq]|[(k0 & v0 & rest & Hc & Hfull & Hnew & Heq)|(_ & _ & Heq)]];
      rewrite Heq in Hset; simplify_eq.
    - exists c. split; [done|]. by apply set_without_eviction.
    - exists (TTLCache._remove_key c k0). split; [done|].
      by apply set_with_eviction with v0 rest. }
  rewrite Hset2.
  rewrite (set_without_eviction (written c cx k v1 t1 n1))
    by (right; apply written_keys).
  rewrite written_twice. split_and!; [done..|]. cbn [snd].
  split_and!.
  - apply written_size.
  - unfold TTLCache.keys, written. cbn [TTLCache.cache].
    rewrite fmap_app. apply last_snoc.
  - apply getitem_app_last, not_elem_of_keys_delitem.
  - apply lookup_insert_eq.
  - intros k' Hne. unfold written. cbn [TTLCache.cache TTLCache.expirations].
    split.
    + by rewrite !getitem_app_other.
    + by rewrite !lookup_insert_ne.
Qed.

Lemma X1_set_overwrites_witness :
  TTLCache.set (TTLCache.init 2) "paris" 21%nat 300 1000
  = (Ok (), written (TTLCache.init 2) (TTLCache.init 2) "paris" 21%nat 300 1000)
  ∧ TTLCache.set
      (written (TTLCache.init 2) (TTLCache.init 2) "paris" 21%nat 300 1000)
      "paris" 19%nat 60 1100
    = TTLCache.set (TTLCache.init 2) "paris" 19%nat 60 1100.
Proof.
  assert (TTLCache.set (TTLCache.init 2) "paris" 21%nat 300 1000
          = (Ok (), written (TTLCache.init 2) (TTLCache.init 2) "paris" 21%nat 300 1000))
    as Hset by (vm_compute; reflexivity).
  split; [exact Hset|].
  exact (proj1 (X1_set_overwrites _ _ _ _ 19%nat _ _ 60 1100 Hset)).
Defined.

(** X2: a cache built with [max_items <= 0] never holds anything: from
    the fresh cache every [set] raises [StopIteration] (the eviction asks
    the empty ordered map for its first key) and leaves the cache as it
    was, so after any calls the cache is still the fresh one and every
    [get] returns [None]. *)
Theorem X2_no_capacity_no_entries {K : Type} `{Countable K} {V : Type}
    (n : Z) (ops : list (TTLCache.op K V)) (k : K) (v : V) (ttl now : Z) :
  n ≤ 0 →
  let c := TTLCache.run (TTLCache.init n) ops in
  c = TTLCache.init n
  ∧ TTLCache.set c k v ttl now = (Raise StopIteration, c)
  ∧ TTLCache.get c k ttl now = (Ok None, c)
  ∧ TTLCache.size c = 0.
Proof.
  intros Hn c. unfold c. rewrite init_stuck by done.
  split_and!; [done| |done..]. by apply set_on_empty_full.
Qed.

Lemma X2_no_capacity_no_entries_witness :
  0 ≤ 0
  ∧ TTLCache.set
      (TTLCache.run (TTLCache.init 0)
         [TTLCache.Set_ "a" 1%nat 300 0; TTLCache.Get "a" 300 1])
      "b" 2%nat 300 2
    = (Raise StopIteration,
       TTLCache.run (TTLCache.init 0)
         [TTLCache.Set_ "a" 1%nat 300 0; TTLCache.Get "a" 300 1]).
Proof.
  split; [lia|].
  refine (proj1 (proj2 (X2_no_capacity_no_entries 0
    [TTLCache.Set_ "a" 1%nat 300 0; TTLCache.Get "a" 300 1] "b" 2%nat 300 2 _))).
  lia.
Defined.


(** ** More on the rate limiter *)

Section RateLimiter_more.
Implicit Types (l : RateLimiter.t) (clk : Clock.t) (ev hist : list Z).
Implicit Types (q : Q) (w now : Z) (s : RateLimiter.session).

Local Arguments RateLimiter.prune : simpl never.
Local Arguments last : simpl never.
Local Arguments app : simpl never.

Lemma int_positive_rps q : 1 ≤ RateLimiter.int q → Qle_bool q 0 = false.
Proof.
  intros Hm. destruct (Qle_bool q 0) eqn:Hb; [|done].
  apply Qle_bool_iff in Hb. unfold Qle, RateLimiter.int in *. simpl in *.
  assert (Qnum q ≤ 0) as Hneg by lia.
  pose proof (Z.quot_le_mono (Qnum q) 0 (Z.pos (Qden q))) as Hmono.
  rewrite Z.quot_0_l in Hmono by lia. lia.
Qed.

Lemma prune_length cutoff ev :
  (length (RateLimiter.prune cutoff ev) ≤ length ev)%nat.
Proof.
  destruct (prune_split cutoff ev) as (dropped & Hev & _).
  rewrite Hev at 2. rewrite length_app. lia.
Qed.

Lemma prune_Forall (P : Z → Prop) cutoff ev :
  Forall P ev → Forall P (RateLimiter.prune cutoff ev).
Proof.
  destruct (prune_split cutoff ev) as (dropped & Hev & _).
  rewrite Hev at 1. by intros [_ ?]%Forall_app.
Qed.

Lemma Forall_past now now' hist :
  now ≤ now' → Forall (λ e, e ≤ now) hist → Forall (λ e, e ≤ now') hist.
Proof.
  intros Hnow Hpast. eapply Forall_impl; [exact Hpast|]. simpl. intros. lia.
Qed.

Lemma sorted_snoc hist now stamp :
  now ≤ stamp → Forall (λ e, e ≤ now) hist → StronglySorted Z.le hist →
  StronglySorted Z.le (hist ++ [stamp]).
Proof.
  intros Hstamp Hpast Hs. apply StronglySorted_app. split_and!; [|done|].
  - intros e1 e2 He1 He2. apply list_elem_of_singleton in He2 as ->.
    rewrite Forall_forall in Hpast. specialize (Hpast e1 He1). simpl in *. lia.
  - repeat constructor.
Qed.

(** The first calls, as many as the window has room for, go through
    without sleeping. *)
Lemma fast_calls q w clk n :
  Z.of_nat n ≤ RateLimiter.int q →
  let s := RateLimiter.calls n (RateLimiter.start (RateLimiter.init q w) clk) in
  RateLimiter.rps (RateLimiter.limiter s) = q
  ∧ RateLimiter.window_sec (RateLimiter.limiter s) = w
  ∧ RateLimiter.raised s = []
  ∧ Clock.slept (RateLimiter.clock s) = Clock.slept clk
  ∧ Clock.calls (RateLimiter.clock s) = (Clock.calls clk + 2 * n)%nat
  ∧ length (RateLimiter.admitted s) = n
  ∧ (length (RateLimiter.events (RateLimiter.limiter s)) ≤ n)%nat.
Proof.
  induction n as [|n IH]; intros Hn s.
  - unfold s. simpl. split_and!; try done; lia.
  - destruct IH as (Hq & Hw & Hraised & Hslept & Hreads & Hadm & Hlen); [lia|].
    unfold s. unfold RateLimiter.calls in *. simpl.
    set (s0 := Nat.iter n RateLimiter.call
                 (RateLimiter.start (RateLimiter.init q w) clk)) in *.
    destruct s0 as [[q' w' ev] [now lt reads slept] hist raised].
    simpl in *. subst q' w' raised.
    unfold RateLimiter.call, RateLimiter.wait, RateLimiter.record. simpl.
    rewrite int_positive_rps by lia.
    pose proof (prune_length (now + lt reads - w) ev).
    rewrite bool_decide_eq_false_2 by lia. simpl.
    rewrite int_positive_rps by lia. rewrite last_snoc. simpl.
    split_and!; try done.
    + lia.
    + rewrite length_app. simpl. lia.
    + rewrite length_app. simpl. lia.
Qed.

Lemma timely_start q w lt start_time :
  timely w lt (RateLimiter.start (RateLimiter.init q w) (Clock.init start_time lt)).
Proof. unfold timely. simpl. split_and!; try done; constructor. Qed.

Lemma timely_call w lt s :
  (∀ i, 0 ≤ lt i) → timely w lt s →
  timely w lt (RateLimiter.call s)
  ∧ (length (Clock.slept (RateLimiter.clock (RateLimiter.call s)))
     ≤ S (length (Clock.slept (RateLimiter.clock s))))%nat.
Proof.
  intros Hlat (Hw & Hlt & Hev & Hadm & Hsorted & Hslept).
  destruct s as [[q w' ev] [now lt' n slept] hist raised].
  simpl in *. subst w' lt'.
  pose proof (Hlat n) as Hl0. pose proof (Hlat (S n)) as Hl1.
  pose proof (Hlat (S (S n))) as Hl2. pose proof (Hlat (S (S (S n)))) as Hl3.
  unfold RateLimiter.call, RateLimiter.wait, RateLimiter.record. simpl.
  destruct (Qle_bool q 0) eqn:Hoff.
  { simpl. rewrite Hoff. unfold timely. simpl. split; [by split_and!|lia]. }
  pose proof (prune_Forall _ (now + lt n - w) ev Hev) as Hev1.
  case_bool_decide as Hfull.
  - destruct (RateLimiter.prune (now + lt n - w) ev) as [|oldest rest] eqn:Hpruned.
    { simpl. unfold timely. simpl. split; [|lia].
      split_and!; try done. by apply Forall_past with now; [lia|]. }
    assert (oldest ≤ now) as Hold by (by apply Forall_cons in Hev1 as [? _]).
    case_bool_decide as Hsleep; simpl.
    + rewrite Hoff, last_snoc. simpl.
      remember (now + lt n + (oldest + w - (now + lt n)) + lt (S n) + lt (S (S n)))
        as now2 eqn:Hnow2.
      unfold timely. simpl. split; [|rewrite length_app; simpl; lia].
      split_and!; try done.
      * apply Forall_app. split; [|repeat constructor; lia].
        apply prune_Forall. apply Forall_past with now; [lia|done].
      * apply Forall_app. split; [|repeat constructor; lia].
        apply Forall_past with now; [lia|done].
      * apply sorted_snoc with now; [lia|done..].
      * apply Forall_app. split; [done|]. repeat constructor; lia.
    + rewrite Hoff, last_snoc. simpl.
      unfold timely. simpl. split; [|lia].
      split_and!; try done.
      * apply Forall_app. split; [|repeat constructor; lia].
        apply Forall_past with now; [lia|done].
      * apply Forall_app. split; [|repeat constructor; lia].
        apply Forall_past with now; [lia|done].
      * apply sorted_snoc with now; [lia|done..].
  - simpl. rewrite Hoff, last_snoc. simpl.
    unfold timely. simpl. split; [|lia].
    split_and!; try done.
    * apply Forall_app. split; [|repeat constructor; lia].
      apply Forall_past with now; [lia|done].
    * apply Forall_app. split; [|repeat constructor; lia].
      apply Forall_past with now; [lia|done].
    * apply sorted_snoc with now; [lia|done..].
Qed.

Lemma timely_calls w lt s n :
  (∀ i, 0 ≤ lt i) → timely w lt s →
  timely w lt (RateLimiter.calls n s)
  ∧ (length (Clock.slept (RateLimiter.clock (RateLimiter.calls n s)))
     ≤ n + length (Clock.slept (RateLimiter.clock s)))%nat.
Proof.
  intros Hlat Hs. induction n as [|n [IH Hlen]]; simpl; [split; [done|lia]|].
  destruct (timely_call w lt (RateLimiter.calls n s) Hlat IH) as [Hcall Hlen'].
  split; [done|]. unfold RateLimiter.calls in *. simpl in *. lia.
Qed.

(** In a history in the order of time where no closed window of width
    [w] holds more than [m] timestamps, the timestamp [m] places after
    another is more than [w] later. *)
Lemma sorted_window_spacing hist (m : nat) w i a b :
  StronglySorted Z.le hist →
  (∀ τ, RateLimiter.count_in (τ - w) τ hist ≤ Z.of_nat m) →
  (1 ≤ m)%nat → 0 ≤ w →
  hist !! i = Some a → hist !! (i + m)%nat = Some b →
  a + w < b.
Proof.
  intros Hsorted Hcount Hm Hw Ha Hb.
  destruct (decide (a + w < b)) as [|Hclose]; [done|]. exfalso.
  pose proof (take_drop_middle hist i a Ha) as Hsplit1.
  set (l2 := drop (S i) hist) in *.
  assert (l2 !! (m - 1)%nat = Some b) as Hb2.
  { unfold l2. rewrite lookup_drop. rewrite <-Hb. f_equal. lia. }
  pose proof (take_drop_middle l2 (m - 1) b Hb2) as Hsplit2.
  rewrite <-Hsplit1, <-Hsplit2 in Hsorted.
  apply StronglySorted_app_1_r in Hsorted.
  apply StronglySorted_cons in Hsorted as [Hafter Hsorted2].
  assert (Forall (λ x, a ≤ x ≤ a + w) (take (m - 1) l2 ++ [b])) as Hin.
  { apply Forall_app. split.
    - apply Forall_forall. intros x Hx.
      rewrite Forall_forall in Hafter. split.
      + apply Hafter. apply elem_of_app. by left.
      + assert (x ≤ b); [|lia].
        apply (StronglySorted_app_1_elem_of Z.le (take (m - 1) l2)
                 (b :: drop (S (m - 1)) l2)); [done..|]. by left.
    - repeat constructor; [|lia].
      rewrite Forall_forall in Hafter. apply Hafter.
      apply elem_of_app. right. by left. }
  specialize (Hcount (a + w)). replace (a + w - w) with a in Hcount by lia.
  rewrite <-Hsplit1, <-Hsplit2 in Hcount.
  rewrite (count_in_app _ _ (take i hist)) in Hcount.
  change (a :: take (m - 1) l2 ++ b :: drop (S (m - 1)) l2)
    with ([a] ++ (take (m - 1) l2 ++ b :: drop (S (m - 1)) l2)) in Hcount.
  rewrite (count_in_app _ _ [a]) in Hcount.
  replace (take (m - 1) l2 ++ b :: drop (S (m - 1)) l2)
    with ((take (m - 1) l2 ++ [b]) ++ drop (S (m - 1)) l2) in Hcount
    by (by rewrite <-app_assoc).
  rewrite (count_in_app _ _ (take (m - 1) l2 ++ [b])) in Hcount.
  rewrite (count_in_inside _ _ (take (m - 1) l2 ++ [b]) Hin) in Hcount.
  rewrite count_in_singleton, bool_decide_eq_true_2 in Hcount by lia.
  pose proof (count_in_nonneg a (a + w) (take i hist)).
  pose proof (count_in_nonneg a (a + w) (drop (S (m - 1)) l2)).
  rewrite length_app, length_take_le in Hcount.
  - simpl in Hcount. lia.
  - apply lookup_lt_Some in Hb2. lia.
Qed.
End RateLimiter_more.

(** X4: on a fresh limiter the first [int(rps)] calls of [wait()] return
    at once, whatever the clock does: none raises, none sleeps, each
    reads the clock twice and records its admission. *)
Theorem X4_first_calls_do_not_sleep (q : Q) (w : Z) (clk : Clock.t) (n : nat) :
  Z.of_nat n ≤ RateLimiter.int q →
  let s := RateLimiter.calls n (RateLimiter.start (RateLimiter.init q w) clk) in
  RateLimiter.raised s = []
  ∧ Clock.slept (RateLimiter.clock s) = Clock.slept clk
  ∧ Clock.calls (RateLimiter.clock s) = (Clock.calls clk + 2 * n)%nat
  ∧ length (RateLimiter.admitted s) = n.
Proof.
  intros Hn s. destruct (fast_calls q w clk n Hn) as (_ & _ & ? & ? & ? & ? & _).
  by split_and!.
Qed.

Lemma X4_first_calls_do_not_sleep_witness :
  Z.of_nat 5 ≤ RateLimiter.int 5
  ∧ Clock.slept
      (RateLimiter.clock
         (RateLimiter.calls 5
            (RateLimiter.start (RateLimiter.init 5 1) (Clock.init 0 (λ _, 0)))))
    = [].
Proof.
  assert (Z.of_nat 5 ≤ RateLimiter.int 5) as Hn by (vm_compute; discriminate).
  split; [exact Hn|].
  exact (proj1 (proj2 (X4_first_calls_do_not_sleep 5 1 (Clock.init 0 (λ _, 0)) 5 Hn))).
Defined.

(** X5: on a clock that never runs backwards, whatever the rate is, a
    call of [wait()] sleeps at most once, every sleep is positive and at
    most [window_sec] long, and the admissions are recorded in the order
    of time and never in the future. *)
Theorem X5_sleeps_bounded_by_window (q : Q) (w start : Z) (lt : nat → Z) (n : nat) :
  (∀ i, 0 ≤ lt i) →
  let s := RateLimiter.calls n
             (RateLimiter.start (RateLimiter.init q w) (Clock.init start lt)) in
  Forall (λ d, 0 < d ≤ w) (Clock.slept (RateLimiter.clock s))
  ∧ (length (Clock.slept (RateLimiter.clock s)) ≤ n)%nat
  ∧ StronglySorted Z.le (RateLimiter.admitted s)
  ∧ Forall (λ e, e ≤ Clock.now (RateLimiter.clock s)) (RateLimiter.admitted s).
Proof.
  intros Hlat s.
  destruct (timely_calls w lt
              (RateLimiter.start (RateLimiter.init q w) (Clock.init start lt)) n Hlat
              (timely_start q w lt start))
    as [(_ & _ & _ & Hadm & Hsorted & Hslept) Hlen].
  fold s in Hadm, Hsorted, Hslept, Hlen. simpl in Hlen.
  split_and!; [done|lia|done..].
Qed.

Lemma X5_sleeps_bounded_by_window_witness :
  (∀ i : nat, 0 ≤ 0)
  ∧ Forall (λ d, 0 < d ≤ 10)
      (Clock.slept
         (RateLimiter.clock
            (RateLimiter.calls 4
               (RateLimiter.start (RateLimiter.init 1 10) (Clock.init 0 (λ _, 0)))))).
Proof.
  assert (∀ i : nat, 0 ≤ (λ _ : nat, 0) i) as Hlat by (intros _; lia).
  split; [exact Hlat|].
  exact (proj1 (X5_sleeps_bounded_by_window 1 10 0 (λ _, 0) 4 Hlat)).
Defined.

(** X6: throughput. When every call on the clock takes time and
    [rps >= 1], the admission recorded [int(rps)] calls after another one
    is more than [window_sec] later. *)
Theorem X6_admissions_spaced (q : Q) (w start : Z) (lt : nat → Z) (n i : nat)
    (a b : Z) :
  (1 <= q)%Q → 0 < w → (∀ i, 0 < lt i) →
  let s := RateLimiter.calls n
             (RateLimiter.start (RateLimiter.init q w) (Clock.init start lt)) in
  RateLimiter.admitted s !! i = Some a →
  RateLimiter.admitted s !! (i + Z.to_nat (RateLimiter.int q))%nat = Some b →
  a + w < b.
Proof.
  intros Hq Hw Hlat s Ha Hb.
  pose proof (int_lower_bound q Hq) as Hm.
  destruct (admitting_calls q w lt
              (RateLimiter.start (RateLimiter.init q w) (Clock.init start lt)) n)
    as [(_ & _ & _ & _ & (_ & _ & _ & Hcount)) _];
    [done..|by apply admitting_start|].
  destruct (timely_calls w lt
              (RateLimiter.start (RateLimiter.init q w) (Clock.init start lt)) n)
    as [(_ & _ & _ & _ & Hsorted & _) _];
    [intros j; specialize (Hlat j); lia|apply timely_start|].
  apply (sorted_window_spacing (RateLimiter.admitted s)
           (Z.to_nat (RateLimiter.int q)) w i a b); [done| |lia|lia|done..].
  intros τ. rewrite Z2Nat.id by lia. apply Hcount.
Qed.

Lemma X6_admissions_spaced_witness :
  (1 <= 2)%Q ∧ 0 < 10 ∧ (∀ i : nat, 0 < 1)
  ∧ RateLimiter.admitted
      (RateLimiter.calls 5
         (RateLimiter.start (RateLimiter.init 2 10) (Clock.init 0 (λ _, 1))))
    !! 0%nat = Some 2
  ∧ 2 + 10 < 15.
Proof.
  assert ((1 <= 2)%Q) as Hq by (vm_compute; discriminate).
  assert (0 < 10) as Hw by lia.
  assert (∀ i : nat, 0 < (λ _ : nat, 1) i) as Hlat by (intros _; lia).
  split_and!; [exact Hq|exact Hw|exact Hlat|reflexivity|].
  exact (X6_admissions_spaced 2 10 0 (λ _, 1) 5 0 2 15 Hq Hw Hlat eq_refl eq_refl).
Defined.

(** ** Requests and the limiter *)

Section Weather_requests.
Variable float_of_str : string → option Q.
Variable str_of_float : Q → string.
Variable cfg : Config.t.
Implicit Types (w : Weather.world) (city units text : string) (lat lon : Q).

Ltac run_call :=
  unfold Weather.bind, Weather.geocode_get, Weather.weather_get,
    Weather.forecast_get, Weather.geocode_set, Weather.weather_set,
    Weather.forecast_set, Weather.rate_limiter_wait, Weather.try_except,
    Weather.fetch, Weather.lift, Weather.ret, Weather.raise;
  repeat (case_match; simplify_eq; simpl in * ).

Ltac account :=
  split_and!;
    [done
    |first
       [by left
       |right; eexists _, _, _, _; split_and!; [reflexivity| |reflexivity];
        match goal with
        | H : RateLimiter.wait _ _ = (Ok ?a, _, _) |- _ => destruct a; exact H
        end]
    |done|done].

Lemma get_coordinates_requests w city :
  let res := Weather.get_coordinates float_of_str cfg city w in
  at_most_one_request "https://nominatim.openstreetmap.org/search" w res
  ∧ Weather.weather_cache res.2 = Weather.weather_cache w
  ∧ Weather.forecast_cache res.2 = Weather.forecast_cache w.
Proof.
  unfold at_most_one_request, Weather.get_coordinates. run_call; account.
Qed.

Lemma get_current_weather_requests w lat lon units :
  let res := Weather.get_current_weather str_of_float cfg lat lon units w in
  at_most_one_request "https://api.open-meteo.com/v1/forecast" w res
  ∧ Weather.geocode_cache res.2 = Weather.geocode_cache w
  ∧ Weather.forecast_cache res.2 = Weather.forecast_cache w.
Proof.
  unfold at_most_one_request, Weather.get_current_weather. run_call; account.
Qed.

Lemma get_weather_forecast_requests w lat lon days units :
  let res := Weather.get_weather_forecast str_of_float cfg lat lon days units w in
  at_most_one_request "https://api.open-meteo.com/v1/forecast" w res
  ∧ Weather.geocode_cache res.2 = Weather.geocode_cache w
  ∧ Weather.weather_cache res.2 = Weather.weather_cache w.
Proof.
  unfold at_most_one_request, Weather.get_weather_forecast. run_call; account.
Qed.

(** *** The exceptions that leave a call *)












(** *** A value that was fetched is served from the cache *)

Lemma cache_set_Ok {V : Type} (c : TTLCache.t string V) key value ttl clk c' clk' :
  Weather.cache_set c key value ttl clk = (Ok (), c', clk') →
  clk' = (Clock.time clk).2
  ∧ ∃ c1, c' = written c c1 key value ttl (Clock.now clk').
Proof.
  unfold Weather.cache_set, Clock.time. simpl.
  destruct (TTLCache.set c key value ttl _) as [[[]|e] c2] eqn:Hset.
  - intros. simplify_eq. split; [done|]. simpl. by eapply set_Ok_written.
  - destruct e; intros; simplify_eq.
Qed.

Lemma cache_get_written {V : Type} (c c1 : TTLCache.t string V) key value ttl now o clk :
  (Clock.time clk).1 ≤ now + ttl →
  Weather.cache_get (written c c1 key value ttl now) key o clk
  = (Ok (Some value), written c c1 key value ttl now, (Clock.time clk).2).
Proof.
  intros Hfresh. unfold Weather.cache_get.
  pose proof (written_keys c c1 key value ttl now) as Hin.
  apply contains_true in Hin. rewrite Hin.
  destruct (Clock.time clk) as [t clk2]. simpl in *.
  by rewrite get_written_hit.
Qed.

Lemma get_coordinates_fetched w city coords :
  let res := Weather.get_coordinates float_of_str cfg city w in
  res.1 = Ok coords → Weather.sent res.2 ≠ Weather.sent w →
  ∃ c c1,
    Weather.geocode_cache res.2
    = written c c1 ("geo_" +:+ city) coords (Config.GEOCODE_TTL cfg)
        (Clock.now (Weather.clock res.2)).
Proof.
  unfold Weather.get_coordinates. run_call; intros; simplify_eq; try done.
  match goal with
  | H : Weather.cache_set _ _ _ _ _ = (Ok ?a, _, _) |- _ =>
      destruct a; apply cache_set_Ok in H as [-> [c1 ->]]
  end.
  by eexists _, _.
Qed.

Lemma get_current_weather_fetched w lat lon units data :
  let res := Weather.get_current_weather str_of_float cfg lat lon units w in
  res.1 = Ok data → Weather.sent res.2 ≠ Weather.sent w →
  ∃ c c1,
    Weather.weather_cache res.2
    = written c c1
        ("weather_" +:+ str_of_float lat +:+ "_" +:+ str_of_float lon
           +:+ "_" +:+ units)
        data (Config.WEATHER_TTL cfg) (Clock.now (Weather.clock res.2)).
Proof.
  unfold Weather.get_current_weather. run_call; intros; simplify_eq; try done.
  match goal with
  | H : Weather.cache_set _ _ _ _ _ = (Ok ?a, _, _) |- _ =>
      destruct a; apply cache_set_Ok in H as [-> [c1 ->]]
  end.
  by eexists _, _.
Qed.

Lemma get_weather_forecast_fetched w lat lon days units data :
  let res := Weather.get_weather_forecast str_of_float cfg lat lon days units w in
  res.1 = Ok data → Weather.sent res.2 ≠ Weather.sent w →
  ∃ c c1,
    Weather.forecast_cache res.2
    = written c c1
        ("forecast_" +:+ str_of_float lat +:+ "_" +:+ str_of_float lon
           +:+ "_" +:+ pretty days +:+ "_" +:+ units)
        data (Config.FORECAST_TTL cfg) (Clock.now (Weather.clock res.2)).
Proof.
  unfold Weather.get_weather_forecast. run_call; intros; simplify_eq; try done.
  match goal with
  | H : Weather.cache_set _ _ _ _ _ = (Ok ?a, _, _) |- _ =>
      destruct a; apply cache_set_Ok in H as [-> [c1 ->]]
  end.
  by eexists _, _.
Qed.

(** *** A limiter that admits less than one call per window *)

Lemma wait_fractional q win clk :
  (0 < q)%Q → (q < 1)%Q →
  RateLimiter.wait (RateLimiter.init q win) clk
  = (Raise IndexError, RateLimiter.init q win, (Clock.time clk).2).
Proof.
  intros Hpos Hfrac. unfold RateLimiter.wait. simpl.
  destruct (Qle_bool q 0) eqn:Hoff.
  { apply Qle_bool_iff in Hoff. exfalso. by apply (Qlt_not_le 0 q). }
  rewrite int_fraction by done. simpl. done.
Qed.

Lemma perform_fractional q win w c :
  (0 < q)%Q → (q < 1)%Q →
  Weather.rate_limiter w = RateLimiter.init q win →
  TTLCache.cache (Weather.geocode_cache w) = [] →
  TTLCache.cache (Weather.weather_cache w) = [] →
  TTLCache.cache (Weather.forecast_cache w) = [] →
  perform float_of_str str_of_float cfg c w
  = (Some IndexError,
     Weather.mk (Weather.geocode_cache w) (Weather.weather_cache w)
       (Weather.forecast_cache w) (Weather.rate_limiter w)
       (Clock.time (Weather.clock w)).2 (Weather.net w) (Weather.sent w)).
Proof.
  intros Hpos Hfrac Hl Hg Hw Hf.
  assert (∀ {V} (c : TTLCache.t string V) key ttl clk,
            TTLCache.cache c = [] →
            Weather.cache_get c key ttl clk = (Ok None, c, clk)) as Hmiss.
  { intros V c0 key ttl clk Hc. apply cache_get_absent.
    unfold TTLCache.keys. rewrite Hc. apply not_elem_of_nil. }
  destruct c as [city|lat lon units|lat lon days units]; unfold perform.
  - unfold Weather.get_coordinates, Weather.bind, Weather.geocode_get,
      Weather.rate_limiter_wait.
    rewrite Hmiss by done. simpl. rewrite Hl, wait_fractional by done. done.
  - unfold Weather.get_current_weather, Weather.bind, Weather.weather_get,
      Weather.rate_limiter_wait.
    rewrite Hmiss by done. simpl. rewrite Hl, wait_fractional by done. done.
  - unfold Weather.get_weather_forecast, Weather.bind, Weather.forecast_get,
      Weather.rate_limiter_wait.
    rewrite Hmiss by done. simpl. rewrite Hl, wait_fractional by done. done.
Qed.

Lemma perform_all_fractional q win cs w :
  (0 < q)%Q → (q < 1)%Q →
  Weather.rate_limiter w = RateLimiter.init q win →
  TTLCache.cache (Weather.geocode_cache w) = [] →
  TTLCache.cache (Weather.weather_cache w) = [] →
  TTLCache.cache (Weather.forecast_cache w) = [] →
  let res := perform_all float_of_str str_of_float cfg cs w in
  res.1 = replicate (length cs) (Some IndexError)
  ∧ Weather.sent res.2 = Weather.sent w
  ∧ Weather.geocode_cache res.2 = Weather.geocode_cache w
  ∧ Weather.weather_cache res.2 = Weather.weather_cache w
  ∧ Weather.forecast_cache res.2 = Weather.forecast_cache w
  ∧ Weather.rate_limiter res.2 = Weather.rate_limiter w
  ∧ Clock.calls (Weather.clock res.2) = (Clock.calls (Weather.clock w) + length cs)%nat
  ∧ Clock.slept (Weather.clock res.2) = Clock.slept (Weather.clock w).
Proof.
  intros Hpos Hfrac. revert w.
  induction cs as [|c cs IH]; intros w Hl Hg Hw Hf; simpl.
  { split_and!; try done; lia. }
  rewrite (perform_fractional q win) by done.
  specialize (IH (Weather.mk (Weather.geocode_cache w) (Weather.weather_cache w)
       (Weather.forecast_cache w) (Weather.rate_limiter w)
       (Clock.time (Weather.clock w)).2 (Weather.net w) (Weather.sent w))
       Hl Hg Hw Hf).
  destruct (perform_all _ _ _ cs _) as [rs w2]. simpl in *.
  destruct IH as (-> & -> & -> & -> & -> & -> & -> & ->).
  split_and!; try done; lia.
Qed.
End Weather_requests.

(** X7: a call of [get_coordinates], [get_current_weather] or
    [get_weather_forecast] sends at most one request, whatever the state
    of the caches, the limiter, the clock and the network: either nothing
    is sent, or one request to the function's own address is added to the
    requests sent, after [rate_limiter.wait()] has returned, and the
    limiter is the one that call of [wait()] left. The caches of the two
    other functions are left as they were. *)
Theorem X7_at_most_one_request_per_call
    (float_of_str : string → option Q) (str_of_float : Q → string)
    (cfg : Config.t) (w : Weather.world)
    (city units : string) (lat lon : Q) (days : Z) :
  (let res := Weather.get_coordinates float_of_str cfg city w in
   at_most_one_request "https://nominatim.openstreetmap.org/search" w res
   ∧ Weather.weather_cache res.2 = Weather.weather_cache w
   ∧ Weather.forecast_cache res.2 = Weather.forecast_cache w)
  ∧ (let res := Weather.get_current_weather str_of_float cfg lat lon units w in
     at_most_one_request "https://api.open-meteo.com/v1/forecast" w res
     ∧ Weather.geocode_cache res.2 = Weather.geocode_cache w
     ∧ Weather.forecast_cache res.2 = Weather.forecast_cache w)
  ∧ (let res := Weather.get_weather_forecast str_of_float cfg lat lon days units w in
     at_most_one_request "https://api.open-meteo.com/v1/forecast" w res
     ∧ Weather.geocode_cache res.2 = Weather.geocode_cache w
     ∧ Weather.weather_cache res.2 = Weather.weather_cache w).
Proof.
  split_and!.
  - apply get_coordinates_requests.
  - apply get_current_weather_requests.
  - apply get_weather_forecast_requests.
Qed.


(** X9: coordinates that were fetched are served from the cache. When
    [get_coordinates] returns after sending a request, the entry of the
    city holds the coordinates returned and expires [GEOCODE_TTL] after
    the clock reading of the write, which is the time the call ends at.
    In every later world with that geocoding cache (the other two
    functions leave it alone) a call for the same city whose clock
    reading is not past the expiry returns the same coordinates without
    sending anything or touching the limiter, and leaves the expiry as
    it is: a hit does not extend the life of the entry. *)
Theorem X9_fetched_coordinates_are_cached
    (float_of_str : string → option Q) (cfg : Config.t)
    (w : Weather.world) (city : string) (coords : Q * Q) :
  let first := Weather.get_coordinates float_of_str cfg city w in
  let e := Clock.now (Weather.clock first.2) + Config.GEOCODE_TTL cfg in
  first.1 = Ok coords →
  Weather.sent first.2 ≠ Weather.sent w →
  holds (Weather.geocode_cache first.2) ("geo_" +:+ city) coords e
  ∧ ∀ w', Weather.geocode_cache w' = Weather.geocode_cache first.2 →
          (Clock.time (Weather.clock w')).1 ≤ e →
          let second := Weather.get_coordinates float_of_str cfg city w' in
          second.1 = Ok coords
          ∧ served_from_cache w' second
          ∧ holds (Weather.geocode_cache second.2) ("geo_" +:+ city) coords e.
Proof.
  intros first e Hok Hsent.
  destruct (get_coordinates_fetched float_of_str cfg w city coords Hok Hsent)
    as (c & c1 & Hc).
  fold first in Hc. split.
  { rewrite Hc. apply holds_written. }
  intros w' Hw' Hfresh second.
  assert (Weather.get_coordinates float_of_str cfg city w'
          = (Ok coords,
             Weather.mk (Weather.geocode_cache first.2) (Weather.weather_cache w')
               (Weather.forecast_cache w') (Weather.rate_limiter w')
               (Clock.time (Weather.clock w')).2 (Weather.net w')
               (Weather.sent w'))) as Hsecond.
  { apply get_coordinates_hit. rewrite Hw', Hc. by apply cache_get_written. }
  unfold second. rewrite Hsecond. simpl.
  split_and!; [done| |rewrite Hc; apply holds_written].
  split_and!; [by eexists|done..].
Qed.

Lemma X9_fetched_coordinates_are_cached_witness :
  let w := Weather.init Config.default (Clock.init 0 (λ _, 1)) net_one_answer in
  let first := Weather.get_coordinates sample_float_of_str Config.default "Paris" w in
  let second :=
    Weather.get_coordinates sample_float_of_str Config.default "Paris" first.2 in
  holds (Weather.geocode_cache first.2) "geo_Paris"
    ((4885 # 100)%Q, (235 # 100)%Q) 3603
  ∧ second.1 = Ok ((4885 # 100)%Q, (235 # 100)%Q)
  ∧ served_from_cache first.2 second.
Proof.
  intros w first second.
  assert (first.1 = Ok ((4885 # 100)%Q, (235 # 100)%Q)) as Hok by reflexivity.
  assert (Weather.sent first.2 ≠ Weather.sent w) as Hsent by (vm_compute; discriminate).
  destruct (X9_fetched_coordinates_are_cached sample_float_of_str Config.default
              w "Paris" _ Hok Hsent) as [Hholds Hlater].
  split; [exact Hholds|].
  assert ((Clock.time (Weather.clock first.2)).1
          ≤ Clock.now (Weather.clock first.2) + Config.GEOCODE_TTL Config.default)
    as Hfresh by (vm_compute; discriminate).
  destruct (Hlater first.2 eq_refl Hfresh) as (Hres & Hserved & _).
  split; [exact Hres|exact Hserved].
Defined.

(** X10: a weather or forecast payload that was fetched, and that Python
    takes as true, is served from the cache. When [get_current_weather]
    or [get_weather_forecast] returns a payload after sending a request,
    the entry of its key holds that payload and expires [WEATHER_TTL]
    ([FORECAST_TTL]) after the time the call ends at; in every later
    world with that cache, a call with the same arguments whose clock
    reading is not past the expiry returns the same payload without
    sending anything or touching the limiter. *)
Theorem X10_fetched_payloads_are_cached
    (str_of_float : Q → string) (cfg : Config.t)
    (w : Weather.world) (lat lon : Q) (days : Z) (units : string) (data : Json.t) :
  Json.truthy data = true →
  (let first := Weather.get_current_weather str_of_float cfg lat lon units w in
   let e := Clock.now (Weather.clock first.2) + Config.WEATHER_TTL cfg in
   first.1 = Ok data → Weather.sent first.2 ≠ Weather.sent w →
   holds (Weather.weather_cache first.2)
     ("weather_" +:+ str_of_float lat +:+ "_" +:+ str_of_float lon
        +:+ "_" +:+ units) data e
   ∧ ∀ w', Weather.weather_cache w' = Weather.weather_cache first.2 →
           (Clock.time (Weather.clock w')).1 ≤ e →
           let second := Weather.get_current_weather str_of_float cfg lat lon units w' in
           second.1 = Ok data ∧ served_from_cache w' second)
  ∧ (let first := Weather.get_weather_forecast str_of_float cfg lat lon days units w in
     let e := Clock.now (Weather.clock first.2) + Config.FORECAST_TTL cfg in
     first.1 = Ok data → Weather.sent first.2 ≠ Weather.sent w →
     holds (Weather.forecast_cache first.2)
       ("forecast_" +:+ str_of_float lat +:+ "_" +:+ str_of_float lon
          +:+ "_" +:+ pretty days +:+ "_" +:+ units) data e
     ∧ ∀ w', Weather.forecast_cache w' = Weather.forecast_cache first.2 →
             (Clock.time (Weather.clock w')).1 ≤ e →
             let second :=
               Weather.get_weather_forecast str_of_float cfg lat lon days units w' in
             second.1 = Ok data ∧ served_from_cache w' second).
Proof.
  intros Htrue. split.
  - intros first e Hok Hsent.
    destruct (get_current_weather_fetched str_of_float cfg w lat lon units data
                Hok Hsent) as (c & c1 & Hc).
    fold first in Hc. split.
    { rewrite Hc. apply holds_written. }
    intros w' Hw' Hfresh second.
    assert (Weather.get_current_weather str_of_float cfg lat lon units w'
            = (Ok data,
               Weather.mk (Weather.geocode_cache w') (Weather.weather_cache first.2)
                 (Weather.forecast_cache w') (Weather.rate_limiter w')
                 (Clock.time (Weather.clock w')).2 (Weather.net w')
                 (Weather.sent w'))) as Hsecond.
    { apply get_current_weather_hit; [|done].
      rewrite Hw', Hc. by apply cache_get_written. }
    unfold second. rewrite Hsecond. simpl.
    split; [done|]. split_and!; [by eexists|done..].
  - intros first e Hok Hsent.
    destruct (get_weather_forecast_fetched str_of_float cfg w lat lon days units data
                Hok Hsent) as (c & c1 & Hc).
    fold first in Hc. split.
    { rewrite Hc. apply holds_written. }
    intros w' Hw' Hfresh second.
    assert (Weather.get_weather_forecast str_of_float cfg lat lon days units w'
            = (Ok data,
               Weather.mk (Weather.geocode_cache w') (Weather.weather_cache w')
                 (Weather.forecast_cache first.2) (Weather.rate_limiter w')
                 (Clock.time (Weather.clock w')).2 (Weather.net w')
                 (Weather.sent w'))) as Hsecond.
    { apply get_weather_forecast_hit; [|done].
      rewrite Hw', Hc. by apply cache_get_written. }
    unfold second. rewrite Hsecond. simpl.
    split; [done|]. split_and!; [by eexists|done..].
Qed.

Lemma X10_fetched_payloads_are_cached_witness :
  let w := Weather.init Config.default (Clock.init 0 (λ _, 1))
             net_no_current_weather in
  let data := Json.Obj [("latitude", Json.Num (4885 # 100)%Q)] in
  let first :=
    Weather.get_weather_forecast sample_str_of_float Config.default
      (4885 # 100)%Q (235 # 100)%Q 7 "metric" w in
  let second :=
    Weather.get_weather_forecast sample_str_of_float Config.default
      (4885 # 100)%Q (235 # 100)%Q 7 "metric" first.2 in
  Json.truthy data = true
  ∧ TTLCache.expirations (Weather.forecast_cache first.2)
      !! ("forecast_" +:+ sample_str_of_float (4885 # 100)%Q +:+ "_"
            +:+ sample_str_of_float (235 # 100)%Q +:+ "_" +:+ pretty 7
            +:+ "_" +:+ "metric")
    = Some 903
  ∧ second.1 = Ok data
  ∧ served_from_cache first.2 second.
Proof.
  intros w data first second.
  assert (Json.truthy data = true) as Htrue by reflexivity.
  assert (first.1 = Ok data) as Hok by reflexivity.
  assert (Weather.sent first.2 ≠ Weather.sent w) as Hsent by (vm_compute; discriminate).
  destruct (proj2 (X10_fetched_payloads_are_cached sample_str_of_float Config.default
                     w (4885 # 100)%Q (235 # 100)%Q 7 "metric" data Htrue)
              Hok Hsent) as [[_ Hexp] Hlater].
  split; [exact Htrue|]. split; [exact Hexp|].
  assert ((Clock.time (Weather.clock first.2)).1
          ≤ Clock.now (Weather.clock first.2) + Config.FORECAST_TTL Config.default)
    as Hfresh by (vm_compute; discriminate).
  exact (Hlater first.2 eq_refl Hfresh).
Defined.

(** X11: with a rate between 0 and 1 exclusive (for instance
    [ADK_RATE_LIMIT_RPS=0.5]) the module serves nothing. From the state
    at import time, every call of every sequence of calls of the three
    functions raises [IndexError]: none sends a request, none sleeps,
    the caches stay empty and the limiter records nothing, so no later
    call fares better. Each call reads the clock once. *)
Theorem X11_fractional_rate_serves_nothing
    (float_of_str : string → option Q) (str_of_float : Q → string)
    (cfg : Config.t) (clk : Clock.t) (net : nat → Weather.response)
    (cs : list api_call) :
  (0 < Config.RATE_LIMIT_RPS cfg)%Q → (Config.RATE_LIMIT_RPS cfg < 1)%Q →
  let w := Weather.init cfg clk net in
  let res := perform_all float_of_str str_of_float cfg cs w in
  res.1 = replicate (length cs) (Some IndexError)
  ∧ Weather.sent res.2 = []
  ∧ Weather.geocode_cache res.2 = Weather.geocode_cache w
  ∧ Weather.weather_cache res.2 = Weather.weather_cache w
  ∧ Weather.forecast_cache res.2 = Weather.forecast_cache w
  ∧ Weather.rate_limiter res.2 = Weather.rate_limiter w
  ∧ Clock.calls (Weather.clock res.2) = (Clock.calls clk + length cs)%nat
  ∧ Clock.slept (Weather.clock res.2) = Clock.slept clk.
Proof.
  intros Hpos Hfrac w res.
  by apply (perform_all_fractional float_of_str str_of_float cfg
              (Config.RATE_LIMIT_RPS cfg) (Config.RL_WINDOW_SEC cfg) cs w).
Qed.

Lemma X11_fractional_rate_serves_nothing_witness :
  let cfg := Config.mk 3600 300 900 (1 # 2)%Q 1 1000 in
  let res :=
    perform_all sample_float_of_str sample_str_of_float cfg
      [Coordinates "Paris"; Current_weather (4885 # 100)%Q (235 # 100)%Q "metric";
       Coordinates "Paris"]
      (Weather.init cfg (Clock.init 0 (λ _, 1)) net_one_answer) in
  res.1 = [Some IndexError; Some IndexError; Some IndexError]
  ∧ Weather.sent res.2 = [].
Proof.
  intros cfg res.
  assert ((0 < Config.RATE_LIMIT_RPS cfg)%Q) as Hpos by reflexivity.
  assert ((Config.RATE_LIMIT_RPS cfg < 1)%Q) as Hfrac by reflexivity.
  destruct (X11_fractional_rate_serves_nothing sample_float_of_str
              sample_str_of_float cfg (Clock.init 0 (λ _, 1)) net_one_answer
              [Coordinates "Paris";
               Current_weather (4885 # 100)%Q (235 # 100)%Q "metric";
               Coordinates "Paris"] Hpos Hfrac) as (Hres & Hsent & _).
  split; [exact Hres|exact Hsent].
Defined.

(** ** Weather texts and reports *)

Section WeatherReport_facts.
Variable float_of_str : string → option Q.
Variable str_of_float : Q → string.
Variable str_of_json : Json.t → string.
Variable cfg : Config.t.

Lemma translation_covers z :
  match WeatherCodeTranslator.dict_get z WeatherCodeTranslator.WEATHER_CODES with
  | Some _ =>
      ∃ table,
        WeatherCodeTranslator.dict_get "zh" WeatherCodeTranslator.TRANSLATIONS
        = Some table
        ∧ is_Some (WeatherCodeTranslator.dict_get z table)
  | None =>
      ∀ language table,
        WeatherCodeTranslator.dict_get language WeatherCodeTranslator.TRANSLATIONS
        = Some table →
        WeatherCodeTranslator.dict_get z table = None
  end.
Proof.
  unfold WeatherCodeTranslator.WEATHER_CODES, WeatherCodeTranslator.TRANSLATIONS.
  cbn [WeatherCodeTranslator.dict_get].
  repeat (case_decide; [subst; eexists; split; [reflexivity|by eexists]|]).
  intros language table. case_decide; [|done]. intros; simplify_eq.
  cbn [WeatherCodeTranslator.dict_get].
  repeat (case_decide; [done|]). done.
Qed.
Lemma dict_get_language language :
  WeatherCodeTranslator.dict_get language WeatherCodeTranslator.TRANSLATIONS
  = if decide (language = "zh")
    then WeatherCodeTranslator.dict_get "zh" WeatherCodeTranslator.TRANSLATIONS
    else None.
Proof. unfold WeatherCodeTranslator.TRANSLATIONS. simpl. by case_decide. Qed.

Local Arguments WeatherCodeTranslator.dict_get : simpl never.

Lemma get_weather_text_cases code language :
  match WeatherCodeTranslator.int_key code with
  | Raise _ =>
      WeatherCodeTranslator.get_weather_text str_of_json code language
      = Raise TypeError
  | Ok k =>
      match k ≫= λ z, WeatherCodeTranslator.dict_get z
                        WeatherCodeTranslator.WEATHER_CODES with
      | Some en =>
          ∃ table zh,
            WeatherCodeTranslator.dict_get "zh" WeatherCodeTranslator.TRANSLATIONS
            = Some table
            ∧ (k ≫= λ z, WeatherCodeTranslator.dict_get z table) = Some zh
            ∧ WeatherCodeTranslator.get_weather_text str_of_json code language
              = Ok (if decide (language = "zh") then zh else en)
      | None =>
          WeatherCodeTranslator.get_weather_text str_of_json code language
          = Ok ("Unknown code " +:+ WeatherCodeTranslator.fstr str_of_json code)
      end
  end.
Proof.
  unfold WeatherCodeTranslator.get_weather_text.
  rewrite (dict_get_language language).
  destruct (WeatherCodeTranslator.int_key code) as [[z|]|e] eqn:Hkey.
  - pose proof (translation_covers z) as Hcov. simpl.
    destruct (WeatherCodeTranslator.dict_get z WeatherCodeTranslator.WEATHER_CODES)
      as [en|] eqn:Hen.
    + destruct Hcov as (table & Htable & [zh Hzh]). exists table, zh.
      split_and!; [done..|]. rewrite Htable.
      case_decide; [by rewrite Hzh|done].
    + case_decide; [|done].
      destruct (WeatherCodeTranslator.dict_get "zh" WeatherCodeTranslator.TRANSLATIONS)
        as [table|] eqn:Htable; [|done].
      by rewrite (Hcov "zh" table Htable).
  - simpl. case_decide; [|done].
    by destruct (WeatherCodeTranslator.dict_get "zh" WeatherCodeTranslator.TRANSLATIONS).
  - assert (e = TypeError) as ->.
    { destruct code; simpl in Hkey; by simplify_eq. }
    case_decide; [|done].
    by destruct (WeatherCodeTranslator.dict_get "zh" WeatherCodeTranslator.TRANSLATIONS).
Qed.


Lemma get_current_weather_info_unfold w city units language :
  WeatherReport.get_current_weather_info float_of_str str_of_float str_of_json cfg
    city units language w
  = match Weather.get_coordinates float_of_str cfg city w with
    | (Raise e, w1) => (Raise e, w1)
    | (Ok coords, w1) =>
        match Weather.get_current_weather str_of_float cfg coords.1 coords.2
                units w1 with
        | (Raise e, w2) => (Raise e, w2)
        | (Ok weather_data, w2) =>
            (WeatherReport.format_weather_report str_of_json weather_data city
               language, w2)
        end
    end.
Proof.
  unfold WeatherReport.get_current_weather_info, Weather.try_except,
    Weather.bind, Weather.lift, Weather.raise.
  destruct (Weather.get_coordinates _ _ _ _) as [[coords|e] w1]; [|done].
  destruct (Weather.get_current_weather _ _ _ _ _ _) as [[data|e] w2]; [|done].
  by destruct (WeatherReport.format_weather_report _ _ _ _).
Qed.

Lemma get_current_weather_info_requests w city units language :
  let res :=
    WeatherReport.get_current_weather_info float_of_str str_of_float str_of_json
      cfg city units language w in
  Weather.net res.2 = Weather.net w
  ∧ Weather.forecast_cache res.2 = Weather.forecast_cache w
  ∧ ∃ reqs,
      Weather.sent res.2 = Weather.sent w ++ reqs
      ∧ (Weather.url <$> reqs) `sublist_of` [geocoder_url; weather_url].
Proof.
  intros res. unfold res. rewrite get_current_weather_info_unfold.
  pose proof (get_coordinates_requests float_of_str cfg w city) as Hgeo.
  destruct (Weather.get_coordinates _ _ _ _) as [[coords|e] w1]; simpl in Hgeo.
  - pose proof (get_current_weather_requests str_of_float cfg w1
                  coords.1 coords.2 units) as Hwx.
    cbv zeta in Hwx.
    destruct (Weather.get_current_weather _ _ _ _ _ _) as [o w2].
    assert (∀ r : outcome string * Weather.world, r.2 = w2 →
              Weather.net r.2 = Weather.net w
              ∧ Weather.forecast_cache r.2 = Weather.forecast_cache w
              ∧ ∃ reqs,
                  Weather.sent r.2 = Weather.sent w ++ reqs
                  ∧ (Weather.url <$> reqs) `sublist_of` [geocoder_url; weather_url])
      as Hall; [|by destruct o; apply Hall].
    intros r ->. unfold at_most_one_request in *. simpl in *.
    destruct Hgeo as ((Hnet1 & Hsent1) & _ & Hf1).
    destruct Hwx as ((Hnet2 & Hsent2) & _ & Hf2).
    split_and!; [congruence..|].
    destruct Hsent1 as [Hs1|(ps1 & ? & ? & ? & Hs1 & _)];
      destruct Hsent2 as [Hs2|(ps2 & ? & ? & ? & Hs2 & _)];
      rewrite Hs2, Hs1.
    + exists []. rewrite app_nil_r. split; [done|]. apply sublist_nil_l.
    + eexists [_]. split; [done|]. simpl.
      apply sublist_cons, sublist_skip, sublist_nil_l.
    + eexists [_]. split; [done|]. simpl.
      apply sublist_skip, sublist_nil_l.
    + eexists [_; _]. rewrite <-app_assoc. split; [done|]. simpl.
      apply sublist_skip, sublist_skip, sublist_nil_l.
  - unfold at_most_one_request in *. simpl in *.
    destruct Hgeo as ((Hnet1 & Hsent1) & _ & Hf1).
    split_and!; [done..|].
    destruct Hsent1 as [Hs1|(ps1 & ? & ? & ? & Hs1 & _)]; rewrite Hs1.
    + exists []. rewrite app_nil_r. split; [done|]. apply sublist_nil_l.
    + eexists [_]. split; [done|]. simpl.
      apply sublist_skip, sublist_nil_l.
Qed.
End WeatherReport_facts.

(** X12: [get_weather_text] on every decoded value and every language.
    A list or a dict as code raises [TypeError] (it is unhashable). A
    code equal to one of the 28 integers of [WEATHER_CODES] has a
    Chinese text as well, and the result is the Chinese text when the
    language is ["zh"] and the English text for every other language,
    known or not: for a known code the Chinese caller never gets English.
    Every other code gives ["Unknown code "] followed by the code, in
    English whatever the language. *)
Theorem X12_weather_text_by_code_and_language
    (str_of_json : Json.t → string) (code : Json.t) (language : string) :
  match WeatherCodeTranslator.int_key code with
  | Raise _ =>
      WeatherCodeTranslator.get_weather_text str_of_json code language
      = Raise TypeError
  | Ok k =>
      match k ≫= λ z, WeatherCodeTranslator.dict_get z
                        WeatherCodeTranslator.WEATHER_CODES with
      | Some en =>
          ∃ table zh,
            WeatherCodeTranslator.dict_get "zh" WeatherCodeTranslator.TRANSLATIONS
            = Some table
            ∧ (k ≫= λ z, WeatherCodeTranslator.dict_get z table) = Some zh
            ∧ WeatherCodeTranslator.get_weather_text str_of_json code language
              = Ok (if decide (language = "zh") then zh else en)
      | None =>
          WeatherCodeTranslator.get_weather_text str_of_json code language
          = Ok ("Unknown code " +:+ WeatherCodeTranslator.fstr str_of_json code)
      end
  end.
Proof. apply get_weather_text_cases. Qed.


(** X14: the report of a payload that lacks the four fields, such as the
    empty object that [get_current_weather] returns and caches when the
    body has no ["current_weather"]: the temperature, the wind speed and
    the wind direction read "N/A" and the weather reads as code 0,
    "Clear sky" (in Chinese for the language ["zh"]). Data that is
    missing is reported as a clear sky. *)
Theorem X14_report_of_missing_fields
    (str_of_json : Json.t → string) (fields : list (string * Json.t))
    (city language : string) :
  Json.lookup_field "temperature" fields = None →
  Json.lookup_field "weathercode" fields = None →
  Json.lookup_field "windspeed" fields = None →
  Json.lookup_field "winddirection" fields = None →
  WeatherReport.format_weather_report str_of_json (Json.Obj fields) city language
  = Ok (if decide (language = "zh")
        then city +:+ "的当前天气:" +:+ WeatherReport.nl
             +:+ "- 温度: N/A°" +:+ WeatherReport.nl
             +:+ "- 天气状况: 晴空" +:+ WeatherReport.nl
             +:+ "- 风速: N/A km/h" +:+ WeatherReport.nl
             +:+ "- 风向: N/A°"
        else "Current weather in " +:+ city +:+ ":" +:+ WeatherReport.nl
             +:+ "- Temperature: N/A°" +:+ WeatherReport.nl
             +:+ "- Weather: Clear sky" +:+ WeatherReport.nl
             +:+ "- Wind speed: N/A km/h" +:+ WeatherReport.nl
             +:+ "- Wind direction: N/A°").
Proof.
  intros Ht Hc Hs Hd. unfold WeatherReport.format_weather_report. simpl.
  rewrite Ht, Hc, Hs, Hd. simpl.
  unfold WeatherCodeTranslator.get_weather_text.
  rewrite (dict_get_language language).
  destruct (decide (language = "zh")) as [->|Hne]; reflexivity.
Qed.

Lemma X14_report_of_missing_fields_witness :
  WeatherReport.format_weather_report sample_str_of_json (Json.Obj []) "Paris" "en"
  = Ok ("Current weather in Paris:" +:+ WeatherReport.nl
        +:+ "- Temperature: N/A°" +:+ WeatherReport.nl
        +:+ "- Weather: Clear sky" +:+ WeatherReport.nl
        +:+ "- Wind speed: N/A km/h" +:+ WeatherReport.nl
        +:+ "- Wind direction: N/A°").
Proof.
  exact (X14_report_of_missing_fields sample_str_of_json [] "Paris" "en"
           eq_refl eq_refl eq_refl eq_refl).
Defined.

(** X15: [get_current_weather_info] is the three steps in sequence and
    nothing more. An exception of [get_coordinates] leaves the function
    unchanged and ends it in the state [get_coordinates] left, before any
    weather lookup; an exception of [get_current_weather] or of the
    formatting leaves it unchanged as well. The call sends at most two
    requests, to the geocoder first and to the weather service second,
    and never touches the forecast cache. *)
Theorem X15_weather_info_is_the_sequence
    (float_of_str : string → option Q) (str_of_float : Q → string)
    (str_of_json : Json.t → string) (cfg : Config.t)
    (w : Weather.world) (city units language : string) :
  let res :=
    WeatherReport.get_current_weather_info float_of_str str_of_float str_of_json
      cfg city units language w in
  res = match Weather.get_coordinates float_of_str cfg city w with
        | (Raise e, w1) => (Raise e, w1)
        | (Ok coords, w1) =>
            match Weather.get_current_weather str_of_float cfg coords.1 coords.2
                    units w1 with
            | (Raise e, w2) => (Raise e, w2)
            | (Ok weather_data, w2) =>
                (WeatherReport.format_weather_report str_of_json weather_data city
                   language, w2)
            end
        end
  ∧ Weather.net res.2 = Weather.net w
  ∧ Weather.forecast_cache res.2 = Weather.forecast_cache w
  ∧ ∃ reqs,
      Weather.sent res.2 = Weather.sent w ++ reqs
      ∧ (Weather.url <$> reqs) `sublist_of` [geocoder_url; weather_url].
Proof.
  intros res. split.
  - apply get_current_weather_info_unfold.
  - apply get_current_weather_info_requests.
Qed.

(** ** Time zones *)

Section TimeUtils_facts.
Variable str_of_float : Q → string.
Variable all_timezones : list string.
Implicit Types (w : TimeUtils.world) (lat lon : Q).




Lemma estimated_timezone_not_empty lon : TimeUtils.estimated_timezone lon ≠ "".
Proof. unfold TimeUtils.estimated_timezone. simpl. discriminate. Qed.

Lemma cache_set_returns {V : Type} (c : TTLCache.t string V) key value ttl clk :
  0 < TTLCache.max_items c →
  ∃ c1, Weather.cache_set c key value ttl clk
        = (Ok (), written c c1 key value ttl (Clock.now (Clock.time clk).2),
           (Clock.time clk).2).
Proof.
  intros Hmax. unfold Weather.cache_set, Clock.time. simpl.
  destruct (set_cases c key value ttl
              (Clock.now clk + Clock.lat clk (Clock.calls clk)))
    as [[_ ->]|[(k0 & v0 & rest & _ & _ & _ & ->)|(_ & Hle & _)]];
    [by eexists..|lia].
Qed.

Lemma get_timezone_hit w lat lon zone c clk :
  Weather.cache_get (TimeUtils.timezone_cache w)
    ("tz_" +:+ str_of_float lat +:+ "_" +:+ str_of_float lon) 3600
    (Weather.clock (TimeUtils.base w)) = (Ok (Some zone), c, clk) →
  zone ≠ "" →
  TimeUtils.get_timezone str_of_float all_timezones lat lon w
  = (Ok zone, TimeUtils.mk (TimeUtils.with_clock (TimeUtils.base w) clk) c).
Proof.
  intros Hget Hne.
  unfold TimeUtils.get_timezone, TimeUtils.bind, TimeUtils.timezone_get.
  rewrite Hget. simpl. by rewrite bool_decide_eq_false_2.
Qed.

Lemma get_timezone_fetched w lat lon l clk' fields :
  "tz_" +:+ str_of_float lat +:+ "_" +:+ str_of_float lon
    ∉ TTLCache.keys (TimeUtils.timezone_cache w) →
  0 < TTLCache.max_items (TimeUtils.timezone_cache w) →
  RateLimiter.wait (Weather.rate_limiter (TimeUtils.base w))
    (Weather.clock (TimeUtils.base w)) = (Ok (), l, clk') →
  Weather.net (TimeUtils.base w) (length (Weather.sent (TimeUtils.base w)))
  = Weather.Body (Json.Obj fields) →
  let zone :=
    match default (Json.Str "UTC") (Json.lookup_field "timezone" fields) with
    | Json.Str s =>
        if bool_decide (s ∈ all_timezones) then s
        else TimeUtils.estimated_timezone lon
    | _ => TimeUtils.estimated_timezone lon
    end in
  ∃ req c1,
    TimeUtils.get_timezone str_of_float all_timezones lat lon w
    = (Ok zone,
       TimeUtils.mk
         (Weather.mk (Weather.geocode_cache (TimeUtils.base w))
            (Weather.weather_cache (TimeUtils.base w))
            (Weather.forecast_cache (TimeUtils.base w)) l (Clock.time clk').2
            (Weather.net (TimeUtils.base w))
            (Weather.sent (TimeUtils.base w) ++ [req]))
         (written (TimeUtils.timezone_cache w) c1
            ("tz_" +:+ str_of_float lat +:+ "_" +:+ str_of_float lon) zone 3600
            (Clock.now (Clock.time clk').2))).
Proof.
  intros Hmiss Hmax Hwait Hnet zone.
  destruct (cache_set_returns (TimeUtils.timezone_cache w)
              ("tz_" +:+ str_of_float lat +:+ "_" +:+ str_of_float lon)
              zone 3600 clk' Hmax) as [c1 Hset].
  eexists _, c1.
  unfold TimeUtils.get_timezone, TimeUtils.bind, TimeUtils.timezone_get,
    TimeUtils.on_base, Weather.rate_limiter_wait, TimeUtils.try_except,
    Weather.fetch, TimeUtils.lift, TimeUtils.timezone_set.
  rewrite cache_get_absent by done. simpl. rewrite Hwait. simpl.
  rewrite Hnet. simpl. fold zone. rewrite Hset. simpl. done.
Qed.
End TimeUtils_facts.

(** X16: a time-zone request that fails is swallowed. On a miss, with a
    limiter that admits, when the request fails [get_timezone] does not
    raise: it returns the zone estimated from the longitude, having sent
    one request, and leaves the cache of time zones as it was. The
    estimate is not cached, so the next call for the same coordinates
    goes to the limiter and the network again. *)
Theorem X16_failed_timezone_request_gives_uncached_estimate
    (str_of_float : Q → string) (all_timezones : list string)
    (w : TimeUtils.world) (lat lon : Q) (text : string) :
  "tz_" +:+ str_of_float lat +:+ "_" +:+ str_of_float lon
    ∉ TTLCache.keys (TimeUtils.timezone_cache w) →
  limiter_admits (TimeUtils.base w) →
  Weather.net (TimeUtils.base w) (length (Weather.sent (TimeUtils.base w)))
  = Weather.Failed text →
  let res := TimeUtils.get_timezone str_of_float all_timezones lat lon w in
  res.1 = Ok (TimeUtils.estimated_timezone lon)
  ∧ TimeUtils.timezone_cache res.2 = TimeUtils.timezone_cache w
  ∧ (∃ req, Weather.sent (TimeUtils.base res.2)
            = Weather.sent (TimeUtils.base w) ++ [req]
            ∧ Weather.url req = weather_url)
  ∧ Weather.geocode_cache (TimeUtils.base res.2)
    = Weather.geocode_cache (TimeUtils.base w)
  ∧ Weather.weather_cache (TimeUtils.base res.2)
    = Weather.weather_cache (TimeUtils.base w)
  ∧ Weather.forecast_cache (TimeUtils.base res.2)
    = Weather.forecast_cache (TimeUtils.base w).
Proof.
  intros Hmiss Hlim Hnet res.
  destruct (wait_returns (Weather.rate_limiter (TimeUtils.base w))
              (Weather.clock (TimeUtils.base w)) Hlim) as (l & clk' & Hwait).
  unfold res.
  unfold TimeUtils.get_timezone, TimeUtils.bind, TimeUtils.timezone_get,
    TimeUtils.on_base, Weather.rate_limiter_wait, TimeUtils.try_except,
    Weather.fetch in *.
  rewrite cache_get_absent in * by done. simpl in *. rewrite Hwait in *.
  simpl in *. rewrite Hnet in *. simpl in *.
  split_and!; try done. by eexists.
Qed.

Lemma X16_failed_timezone_request_gives_uncached_estimate_witness :
  let w := TimeUtils.mk
             (Weather.init Config.default (Clock.init 0 (λ _, 1))
                (λ _, Weather.Failed "timeout"))
             (TTLCache.init 1000) in
  let res := TimeUtils.get_timezone sample_str_of_float ["UTC"; "Europe/Paris"]
               (4885 # 100)%Q (235 # 100)%Q w in
  res.1 = Ok "Etc/GMT+0"
  ∧ TimeUtils.timezone_cache res.2 = TimeUtils.timezone_cache w.
Proof.
  intros w res.
  assert ("tz_" +:+ sample_str_of_float (4885 # 100)%Q +:+ "_"
            +:+ sample_str_of_float (235 # 100)%Q
          ∉ TTLCache.keys (TimeUtils.timezone_cache w)) as Hmiss
    by apply not_elem_of_nil.
  assert (limiter_admits (TimeUtils.base w)) as Hlim
    by (right; vm_compute; discriminate).
  destruct (X16_failed_timezone_request_gives_uncached_estimate
              sample_str_of_float ["UTC"; "Europe/Paris"] w
              (4885 # 100)%Q (235 # 100)%Q "timeout" Hmiss Hlim eq_refl)
    as (Hres & Hcache & _).
  split; [exact Hres|exact Hcache].
Defined.

(** X17: a time zone that the service answered is cached for an hour. On
    a miss, with a limiter that admits and a cache with room, when the
    body is an object the call returns its ["timezone"] (["UTC"] when the
    field is missing) if [pytz] lists it and the zone estimated from the
    longitude otherwise, and caches what it returns, the estimate
    included, until 3600 after the time the call ends at. Since no zone
    listed is empty, in every later world with that cache a call for the
    same coordinates whose clock reading is not past the expiry returns
    the same zone without sending anything or touching the limiter. *)
Theorem X17_answered_timezone_is_cached
    (str_of_float : Q → string) (all_timezones : list string)
    (w : TimeUtils.world) (lat lon : Q) (fields : list (string * Json.t)) :
  let key := "tz_" +:+ str_of_float lat +:+ "_" +:+ str_of_float lon in
  let zone :=
    match default (Json.Str "UTC") (Json.lookup_field "timezone" fields) with
    | Json.Str s =>
        if bool_decide (s ∈ all_timezones) then s
        else TimeUtils.estimated_timezone lon
    | _ => TimeUtils.estimated_timezone lon
    end in
  "" ∉ all_timezones →
  key ∉ TTLCache.keys (TimeUtils.timezone_cache w) →
  0 < TTLCache.max_items (TimeUtils.timezone_cache w) →
  limiter_admits (TimeUtils.base w) →
  Weather.net (TimeUtils.base w) (length (Weather.sent (TimeUtils.base w)))
  = Weather.Body (Json.Obj fields) →
  let first := TimeUtils.get_timezone str_of_float all_timezones lat lon w in
  let e := Clock.now (Weather.clock (TimeUtils.base first.2)) + 3600 in
  first.1 = Ok zone
  ∧ holds (TimeUtils.timezone_cache first.2) key zone e
  ∧ ∀ w', TimeUtils.timezone_cache w' = TimeUtils.timezone_cache first.2 →
          (Clock.time (Weather.clock (TimeUtils.base w'))).1 ≤ e →
          let second := TimeUtils.get_timezone str_of_float all_timezones lat lon w' in
          second.1 = Ok zone
          ∧ Weather.sent (TimeUtils.base second.2) = Weather.sent (TimeUtils.base w')
          ∧ Weather.rate_limiter (TimeUtils.base second.2)
            = Weather.rate_limiter (TimeUtils.base w')
          ∧ TimeUtils.timezone_cache second.2 = TimeUtils.timezone_cache first.2.
Proof.
  intros key zone Hempty Hmiss Hmax Hlim Hnet first e.
  destruct (wait_returns (Weather.rate_limiter (TimeUtils.base w))
              (Weather.clock (TimeUtils.base w)) Hlim) as (l & clk' & Hwait).
  destruct (get_timezone_fetched str_of_float all_timezones w lat lon l clk'
              fields Hmiss Hmax Hwait Hnet) as (req & c1 & Hfirst).
  fold key zone in Hfirst. unfold e, first. rewrite Hfirst.
  cbn [fst snd TimeUtils.base TimeUtils.timezone_cache Weather.clock].
  split; [done|]. split; [apply holds_written|].
  intros w' Hw' Hfresh.
  assert (zone ≠ "") as Hzone.
  { unfold zone.
    destruct (default (Json.Str "UTC") (Json.lookup_field "timezone" fields));
      try apply estimated_timezone_not_empty.
    case_bool_decide; [|apply estimated_timezone_not_empty].
    intros ->. done. }
  rewrite (get_timezone_hit str_of_float all_timezones w' lat lon zone
             (TimeUtils.timezone_cache w')
             (Clock.time (Weather.clock (TimeUtils.base w'))).2);
    [simpl; by rewrite Hw'| |done].
  rewrite Hw'. fold key. by apply cache_get_written.
Qed.

Lemma X17_answered_timezone_is_cached_witness :
  let w := TimeUtils.mk
             (Weather.init Config.default (Clock.init 0 (λ _, 1))
                (λ _, Weather.Body
                        (Json.Obj [("timezone", Json.Str "Europe/Paris")])))
             (TTLCache.init 1000) in
  let first := TimeUtils.get_timezone sample_str_of_float ["UTC"; "Europe/Paris"]
                 (4885 # 100)%Q (235 # 100)%Q w in
  let second := TimeUtils.get_timezone sample_str_of_float ["UTC"; "Europe/Paris"]
                  (4885 # 100)%Q (235 # 100)%Q first.2 in
  first.1 = Ok "Europe/Paris"
  ∧ second.1 = Ok "Europe/Paris"
  ∧ Weather.sent (TimeUtils.base second.2) = Weather.sent (TimeUtils.base first.2).
Proof.
  intros w first second.
  assert ("" ∉ ["UTC"; "Europe/Paris"]) as Hempty.
  { intros Hin. apply list_elem_of_In in Hin. simpl in Hin.
    destruct Hin as [Hin|[Hin|[]]]; discriminate Hin. }
  assert ("tz_" +:+ sample_str_of_float (4885 # 100)%Q +:+ "_"
            +:+ sample_str_of_float (235 # 100)%Q
          ∉ TTLCache.keys (TimeUtils.timezone_cache w)) as Hmiss
    by apply not_elem_of_nil.
  assert (0 < TTLCache.max_items (TimeUtils.timezone_cache w)) as Hmax
    by reflexivity.
  assert (limiter_admits (TimeUtils.base w)) as Hlim
    by (right; vm_compute; discriminate).
  destruct (X17_answered_timezone_is_cached sample_str_of_float
              ["UTC"; "Europe/Paris"] w (4885 # 100)%Q (235 # 100)%Q
              [("timezone", Json.Str "Europe/Paris")]
              Hempty Hmiss Hmax Hlim eq_refl) as (Hfirst & _ & Hlater).
  split; [exact Hfirst|].
  assert ((Clock.time (Weather.clock (TimeUtils.base first.2))).1
          ≤ Clock.now (Weather.clock (TimeUtils.base first.2)) + 3600) as Hfresh
    by (vm_compute; discriminate).
  destruct (Hlater first.2 eq_refl Hfresh) as (Hsecond & Hsent & _).
  split; [exact Hsecond|exact Hsent].
Defined.



(** ** Sequences of calls on a world in good order *)

Section Weather_sessions.
Variable float_of_str : string → option Q.
Variable str_of_float : Q → string.
Variable cfg : Config.t.
Implicit Types (w : Weather.world) (city units text : string) (lat lon : Q).





Ltac run_call :=
  unfold Weather.bind, Weather.geocode_get, Weather.weather_get,
    Weather.forecast_get, Weather.geocode_set, Weather.weather_set,
    Weather.forecast_set, Weather.rate_limiter_wait, Weather.try_except,
    Weather.fetch, Weather.lift, Weather.ret, Weather.raise;
  repeat (case_match; simplify_eq; simpl in * ).





End Weather_sessions.



(** ** Forecast reports *)

Section ForecastReport_facts.
Variable float_of_str : string → option Q.
Variable str_of_float : Q → string.
Variable str_of_json : Json.t → string.
Variable cfg : Config.t.
Variable chars : string → list string.
Variable datetime : Type.
Variable fromisoformat : Json.t → outcome datetime.
Variable strftime : datetime → string → string.

Lemma append_empty (s : string) : s +:+ "" = s.
Proof.
  induction s as [|a s IH]; [done|].
  change (String a s +:+ "") with (String a (s +:+ "")). by rewrite IH.
Qed.

Lemma append_append (a b c : string) : (a +:+ b) +:+ c = a +:+ (b +:+ c).
Proof.
  induction a as [|x a IH]; [done|].
  change ((String x a +:+ b) +:+ c) with (String x ((a +:+ b) +:+ c)).
  by rewrite IH.
Qed.

(** The loop adds the blocks of the days one after the other. *)
Lemma day_blocks_app tmax tmin codes language i dates report blocks :
  Forall2 (λ j_date block,
             ForecastReport.day_block str_of_json chars datetime fromisoformat
               strftime tmax tmin codes language j_date.1 j_date.2 = Ok block)
    (imap (λ j d, (i + Z.of_nat j, d)) dates) blocks →
  ForecastReport.day_blocks str_of_json chars datetime fromisoformat strftime
    tmax tmin codes language i dates report
  = Ok (report +:+ String.concat "" blocks).
Proof.
  revert i report blocks.
  induction dates as [|d dates IH]; intros i report blocks Hall.
  - inversion Hall; subst. simpl. by rewrite append_empty.
  - simpl in Hall. inversion Hall as [|? block ? blocks' Hd Hrest]; subst.
    simpl in Hd. rewrite Z.add_0_r in Hd.
    cbn [ForecastReport.day_blocks]. rewrite Hd. cbn [ForecastReport.and_then].
    rewrite (IH (i + 1) (report +:+ block) blocks').
    + f_equal. rewrite append_append. f_equal.
      destruct blocks' as [|b bs]; simpl; [by rewrite append_empty|done].
    + erewrite imap_ext; [exact Hrest|].
      intros j x _. simpl. f_equal. lia.
Qed.
Lemma index_or_list (items : list Json.t) (i : nat) (dflt : Json.t) :
  ForecastReport.index_or chars (Json.Arr items) (Z.of_nat i) dflt
  = Ok (default dflt (items !! i)).
Proof.
  unfold ForecastReport.index_or, ForecastReport.and_then, ForecastReport.len,
    ForecastReport.index.
  rewrite Nat2Z.id. case_bool_decide as Hi.
  - destruct (lookup_lt_is_Some_2 items i ltac:(lia)) as [v ->]. done.
  - by rewrite lookup_ge_None_2 by lia.
Qed.

Lemma get_weather_text_hashable code language k :
  WeatherCodeTranslator.int_key code = Ok k →
  ∃ text, WeatherCodeTranslator.get_weather_text str_of_json code language = Ok text.
Proof.
  intros Hk. pose proof (get_weather_text_cases str_of_json code language) as Hc.
  rewrite Hk in Hc. destruct (k ≫= _).
  - destruct Hc as (? & ? & _ & _ & ->). by eexists.
  - rewrite Hc. by eexists.
Qed.

Lemma day_block_list tmax tmin codes language (i : nat) d t text :
  fromisoformat d = Ok t →
  WeatherCodeTranslator.get_weather_text str_of_json
    (default (Json.Num 0) (codes !! i)) language = Ok text →
  ForecastReport.day_block str_of_json chars datetime fromisoformat strftime
    (Json.Arr tmax) (Json.Arr tmin) (Json.Arr codes) language (Z.of_nat i) d
  = Ok (forecast_day language (strftime t "%Y年%m月%d日") (strftime t "%B %d, %Y")
          (WeatherCodeTranslator.fstr str_of_json
             (default (Json.Str "N/A") (tmax !! i)))
          (WeatherCodeTranslator.fstr str_of_json
             (default (Json.Str "N/A") (tmin !! i)))
          text).
Proof.
  intros Hd Htext. unfold ForecastReport.day_block.
  rewrite Hd, !index_or_list. cbn [ForecastReport.and_then].
  rewrite Htext. cbn [ForecastReport.and_then].
  unfold forecast_day. by case_decide.
Qed.

Lemma get_weather_forecast_info_unfold w city days units language :
  ForecastReport.get_weather_forecast_info float_of_str str_of_float str_of_json cfg
    chars datetime fromisoformat strftime city days units language w
  = match Weather.get_coordinates float_of_str cfg city w with
    | (Raise e, w1) => (Raise e, w1)
    | (Ok coords, w1) =>
        match Weather.get_weather_forecast str_of_float cfg coords.1 coords.2
                days units w1 with
        | (Raise e, w2) => (Raise e, w2)
        | (Ok forecast_data, w2) =>
            (ForecastReport.format_forecast_report str_of_json chars datetime
               fromisoformat strftime forecast_data city language, w2)
        end
    end.
Proof.
  unfold ForecastReport.get_weather_forecast_info, Weather.try_except,
    Weather.bind, Weather.lift, Weather.raise.
  destruct (Weather.get_coordinates _ _ _ _) as [[coords|e] w1]; [|done].
  destruct (Weather.get_weather_forecast _ _ _ _ _ _ _) as [[data|e] w2]; [|done].
  by destruct (ForecastReport.format_forecast_report _ _ _ _ _ _ _ _).
Qed.
End ForecastReport_facts.

(** X20: a forecast without days. When the payload is an object whose
    ["daily"] has no dates (no ["daily"] at all, no ["time"], or an
    empty one), [format_forecast_report] returns the first line alone,
    and the line announces a forecast for 0 days: the number on it is
    the number of dates of the payload. *)
Theorem X20_forecast_report_without_days
    (str_of_json : Json.t → string) (chars : string → list string)
    (datetime : Type) (fromisoformat : Json.t → outcome datetime)
    (strftime : datetime → string → string)
    (fields dfields : list (string * Json.t)) (city language : string) :
  default (Json.Obj []) (Json.lookup_field "daily" fields) = Json.Obj dfields →
  ForecastReport.iter chars
    (default (Json.Arr []) (Json.lookup_field "time" dfields)) = Ok [] →
  ForecastReport.format_forecast_report str_of_json chars datetime fromisoformat
    strftime (Json.Obj fields) city language
  = Ok (if decide (language = "zh")
        then city +:+ "的0天天气预报:" +:+ WeatherReport.nl +:+ WeatherReport.nl
        else "0-day weather forecast for " +:+ city +:+ ":"
             +:+ WeatherReport.nl +:+ WeatherReport.nl).
Proof.
  intros Hdaily Hdates. unfold ForecastReport.format_forecast_report.
  cbn [Json.get ForecastReport.and_then]. rewrite Hdaily.
  cbn [Json.get ForecastReport.and_then].
  destruct (default (Json.Arr []) (Json.lookup_field "time" dfields))
    as [| | |s|items|fs]; try discriminate Hdates;
    simpl in Hdates; injection Hdates as Hnil;
    cbn [ForecastReport.len ForecastReport.iter ForecastReport.and_then].
  - apply fmap_nil_inv in Hnil. rewrite Hnil. simpl. by case_decide.
  - subst items. simpl. by case_decide.
  - apply fmap_nil_inv in Hnil. subst fs. simpl. by case_decide.
Qed.

Lemma X20_forecast_report_without_days_witness :
  ForecastReport.format_forecast_report sample_str_of_json (λ _, []) unit
    (λ _, Ok ()) (λ _ _, "") (Json.Obj [("latitude", Json.Num (4885 # 100)%Q)])
    "Paris" "en"
  = Ok ("0-day weather forecast for Paris:" +:+ WeatherReport.nl +:+ WeatherReport.nl).
Proof.
  exact (X20_forecast_report_without_days sample_str_of_json (λ _, []) unit
           (λ _, Ok ()) (λ _ _, "") [("latitude", Json.Num (4885 # 100)%Q)] []
           "Paris" "en" eq_refl eq_refl).
Defined.

(** X21: a forecast report day by day. When the payload has a list of
    dates that all parse, lists of temperatures and of codes, and
    hashable codes, [format_forecast_report] returns the first line,
    which counts the dates of the payload, followed by one block per
    date, in the order of the dates. The block of day [i] shows the
    [i]-th maximum and minimum, or "N/A" where the list is too short,
    and the text of the [i]-th code, or of code 0 (clear sky) where
    there is none. *)
Theorem X21_forecast_report_day_by_day
    (str_of_json : Json.t → string) (chars : string → list string)
    (datetime : Type) (fromisoformat : Json.t → outcome datetime)
    (strftime : datetime → string → string)
    (fields dfields : list (string * Json.t)) (dates tmax tmin codes : list Json.t)
    (parsed : list datetime) (city language : string) :
  default (Json.Obj []) (Json.lookup_field "daily" fields) = Json.Obj dfields →
  default (Json.Arr []) (Json.lookup_field "time" dfields) = Json.Arr dates →
  default (Json.Arr []) (Json.lookup_field "temperature_2m_max" dfields)
  = Json.Arr tmax →
  default (Json.Arr []) (Json.lookup_field "temperature_2m_min" dfields)
  = Json.Arr tmin →
  default (Json.Arr []) (Json.lookup_field "weathercode" dfields) = Json.Arr codes →
  Forall2 (λ d t, fromisoformat d = Ok t) dates parsed →
  Forall (λ c, ∃ k, WeatherCodeTranslator.int_key c = Ok k) codes →
  ∃ blocks,
    ForecastReport.format_forecast_report str_of_json chars datetime fromisoformat
      strftime (Json.Obj fields) city language
    = Ok (forecast_header city language (Z.of_nat (length dates))
          +:+ String.concat "" blocks)
    ∧ length blocks = length dates
    ∧ ∀ i t, parsed !! i = Some t →
        ∃ text,
          WeatherCodeTranslator.get_weather_text str_of_json
            (default (Json.Num 0) (codes !! i)) language = Ok text
          ∧ blocks !! i
            = Some (forecast_day language (strftime t "%Y年%m月%d日")
                      (strftime t "%B %d, %Y")
                      (WeatherCodeTranslator.fstr str_of_json
                         (default (Json.Str "N/A") (tmax !! i)))
                      (WeatherCodeTranslator.fstr str_of_json
                         (default (Json.Str "N/A") (tmin !! i)))
                      text).
Proof.
  intros Hdaily Hdates Hmax Hmin Hcodes Hparsed Hhash.
  assert (∀ i, ∃ text,
            WeatherCodeTranslator.get_weather_text str_of_json
              (default (Json.Num 0) (codes !! i)) language = Ok text) as Htext.
  { intros i. destruct (codes !! i) as [c|] eqn:Hc.
    - destruct (proj1 (Forall_lookup _ _) Hhash i c Hc) as [k Hk].
      by apply (get_weather_text_hashable str_of_json c language k).
    - by apply (get_weather_text_hashable str_of_json (Json.Num 0) language
                  (Some 0)). }
  set (block := λ (i : nat) (t : datetime),
         forecast_day language (strftime t "%Y年%m月%d日") (strftime t "%B %d, %Y")
           (WeatherCodeTranslator.fstr str_of_json
              (default (Json.Str "N/A") (tmax !! i)))
           (WeatherCodeTranslator.fstr str_of_json
              (default (Json.Str "N/A") (tmin !! i)))
           (match WeatherCodeTranslator.get_weather_text str_of_json
                    (default (Json.Num 0) (codes !! i)) language with
            | Ok text => text
            | Raise _ => ""
            end)).
  exists (imap block parsed). split_and!.
  - unfold ForecastReport.format_forecast_report.
    cbn [Json.get ForecastReport.and_then]. rewrite Hdaily.
    cbn [Json.get ForecastReport.and_then]. rewrite Hdates, Hmax, Hmin, Hcodes.
    cbn [ForecastReport.len ForecastReport.iter ForecastReport.and_then].
    apply (day_blocks_app str_of_json chars datetime fromisoformat strftime).
    apply Forall2_same_length_lookup_2.
    { rewrite !length_imap. by eapply Forall2_length. }
    intros i [j d] b Hjd Hb.
    rewrite list_lookup_imap in Hjd. rewrite list_lookup_imap in Hb.
    destruct (dates !! i) as [d'|] eqn:Hd; simpl in Hjd; simplify_eq.
    destruct (parsed !! i) as [t|] eqn:Ht; simpl in Hb; simplify_eq.
    simpl. rewrite Z.add_0_l.
    destruct (Htext i) as [text Hok].
    rewrite (day_block_list str_of_json chars datetime fromisoformat strftime
               tmax tmin codes language i d t text); [|
      exact (Forall2_lookup_lr _ _ _ _ _ _ Hparsed Hd Ht)|done].
    unfold block. by rewrite Hok.
  - rewrite length_imap. symmetry. by eapply Forall2_length.
  - intros i t Ht. destruct (Htext i) as [text Hok]. exists text.
    split; [done|]. rewrite list_lookup_imap, Ht. simpl. unfold block.
    by rewrite Hok.
Qed.

Lemma X21_forecast_report_day_by_day_witness :
  ∃ blocks,
    ForecastReport.format_forecast_report sample_str_of_json (λ _, []) string
      (λ d, match d with Json.Str s => Ok s | _ => Raise TypeError end)
      (λ t _, t)
      (Json.Obj
         [("daily",
           Json.Obj [("time", Json.Arr [Json.Str "2025-01-01"; Json.Str "2025-01-02"]);
                     ("temperature_2m_max", Json.Arr [Json.Num 5%Q]);
                     ("weathercode", Json.Arr [Json.Num 3%Q])])])
      "Paris" "en"
    = Ok (forecast_header "Paris" "en" 2 +:+ String.concat "" blocks)
    ∧ length blocks = 2%nat
    ∧ blocks !! 1%nat
      = Some (forecast_day "en" "2025-01-02" "2025-01-02" "N/A" "N/A" "Clear sky").
Proof.
  destruct (X21_forecast_report_day_by_day sample_str_of_json (λ _, []) string
              (λ d, match d with Json.Str s => Ok s | _ => Raise TypeError end)
              (λ t _, t)
              [("daily",
                Json.Obj [("time", Json.Arr [Json.Str "2025-01-01";
                                             Json.Str "2025-01-02"]);
                          ("temperature_2m_max", Json.Arr [Json.Num 5%Q]);
                          ("weathercode", Json.Arr [Json.Num 3%Q])])]
              [("time", Json.Arr [Json.Str "2025-01-01"; Json.Str "2025-01-02"]);
               ("temperature_2m_max", Json.Arr [Json.Num 5%Q]);
               ("weathercode", Json.Arr [Json.Num 3%Q])]
              [Json.Str "2025-01-01"; Json.Str "2025-01-02"]
              [Json.Num 5%Q] [] [Json.Num 3%Q]
              ["2025-01-01"; "2025-01-02"] "Paris" "en"
              eq_refl eq_refl eq_refl eq_refl eq_refl
              ltac:(repeat constructor)
              ltac:(repeat constructor; by eexists))
    as (blocks & Hreport & Hlen & Hday).
  exists blocks. split; [exact Hreport|]. split; [exact Hlen|].
  destruct (Hday 1%nat "2025-01-02" eq_refl) as (text & Htext & Hblock).
  rewrite Hblock. vm_compute in Htext. by simplify_eq.
Defined.

(** X22: [get_weather_forecast_info] is the three steps in sequence and
    nothing more: an exception of [get_coordinates], of
    [get_weather_forecast] or of the formatting reaches the caller
    unchanged, and a geocoding failure ends the call before any forecast
    lookup. The call sends at most two requests, to the geocoder first
    and to the weather service second, and never touches the cache of
    current weather. *)
Theorem X22_forecast_info_is_the_sequence
    (float_of_str : string → option Q) (str_of_float : Q → string)
    (str_of_json : Json.t → string) (cfg : Config.t)
    (chars : string → list string)
    (datetime : Type) (fromisoformat : Json.t → outcome datetime)
    (strftime : datetime → string → string)
    (w : Weather.world) (city : string) (days : Z) (units language : string) :
  let res :=
    ForecastReport.get_weather_forecast_info float_of_str str_of_float
      str_of_json cfg chars datetime fromisoformat strftime
      city days units language w in
  res = match Weather.get_coordinates float_of_str cfg city w with
        | (Raise e, w1) => (Raise e, w1)
        | (Ok coords, w1) =>
            match Weather.get_weather_forecast str_of_float cfg coords.1 coords.2
                    days units w1 with
            | (Raise e, w2) => (Raise e, w2)
            | (Ok forecast_data, w2) =>
                (ForecastReport.format_forecast_report str_of_json chars datetime
                   fromisoformat strftime forecast_data city language, w2)
            end
        end
  ∧ Weather.net res.2 = Weather.net w
  ∧ Weather.weather_cache res.2 = Weather.weather_cache w
  ∧ ∃ reqs,
      Weather.sent res.2 = Weather.sent w ++ reqs
      ∧ (Weather.url <$> reqs) `sublist_of` [geocoder_url; weather_url].
Proof.
  intros res.
  pose proof (get_weather_forecast_info_unfold float_of_str str_of_float
                str_of_json cfg chars datetime fromisoformat strftime
                w city days units language) as Hunfold.
  fold res in Hunfold. split; [exact Hunfold|]. rewrite Hunfold. clear Hunfold res.
  pose proof (get_coordinates_requests float_of_str cfg w city) as Hgeo.
  cbv zeta in Hgeo.
  destruct (Weather.get_coordinates _ _ _ _) as [[coords|e] w1].
  - pose proof (get_weather_forecast_requests str_of_float cfg w1
                  coords.1 coords.2 days units) as Hfc.
    cbv zeta in Hfc.
    destruct (Weather.get_weather_forecast _ _ _ _ _ _ _) as [o w2].
    assert (∀ r : outcome string * Weather.world, r.2 = w2 →
              Weather.net r.2 = Weather.net w
              ∧ Weather.weather_cache r.2 = Weather.weather_cache w
              ∧ ∃ reqs,
                  Weather.sent r.2 = Weather.sent w ++ reqs
                  ∧ (Weather.url <$> reqs) `sublist_of` [geocoder_url; weather_url])
      as Hall; [|by destruct o; apply Hall].
    intros r ->. unfold at_most_one_request in *. simpl in *.
    destruct Hgeo as ((Hnet1 & Hsent1) & Hw1 & _).
    destruct Hfc as ((Hnet2 & Hsent2) & _ & Hw2).
    split_and!; [congruence..|].
    destruct Hsent1 as [Hs1|(ps1 & ? & ? & ? & Hs1 & _)];
      destruct Hsent2 as [Hs2|(ps2 & ? & ? & ? & Hs2 & _)];
      rewrite Hs2, Hs1.
    + exists []. rewrite app_nil_r. split; [done|]. apply sublist_nil_l.
    + eexists [_]. split; [done|]. simpl.
      apply sublist_cons, sublist_skip, sublist_nil_l.
    + eexists [_]. split; [done|]. simpl.
      apply sublist_skip, sublist_nil_l.
    + eexists [_; _]. rewrite <-app_assoc. split; [done|]. simpl.
      apply sublist_skip, sublist_skip, sublist_nil_l.
  - unfold at_most_one_request in *. simpl in *.
    destruct Hgeo as ((Hnet1 & Hsent1) & Hw1 & _).
    split_and!; [done..|].
    destruct Hsent1 as [Hs1|(ps1 & ? & ? & ? & Hs1 & _)]; rewrite Hs1.
    + exists []. rewrite app_nil_r. split; [done|]. apply sublist_nil_l.
    + eexists [_]. split; [done|]. simpl.
      apply sublist_skip, sublist_nil_l.
Qed.

(** ** The local time of a city *)

Section TimeReport_facts.
Variable float_of_str : string → option Q.
Variable str_of_float : Q → string.
Variable cfg : Config.t.
Variable all_timezones : list string.
Variable tzinfo : Type.
Variable datetime : Type.
Variable timezone : string → option tzinfo.
Variable UTC : tzinfo.
Variable now : Z → tzinfo → datetime.
Variable format_time_report : datetime → string → string → string.

Lemma get_timezone_fetch_failed (w : TimeUtils.world) lat lon l clk' text :
  "tz_" +:+ str_of_float lat +:+ "_" +:+ str_of_float lon
    ∉ TTLCache.keys (TimeUtils.timezone_cache w) →
  RateLimiter.wait (Weather.rate_limiter (TimeUtils.base w))
    (Weather.clock (TimeUtils.base w)) = (Ok (), l, clk') →
  Weather.net (TimeUtils.base w) (length (Weather.sent (TimeUtils.base w)))
  = Weather.Failed text →
  ∃ req,
    TimeUtils.get_timezone str_of_float all_timezones lat lon w
    = (Ok (TimeUtils.estimated_timezone lon),
       TimeUtils.mk
         (Weather.mk (Weather.geocode_cache (TimeUtils.base w))
            (Weather.weather_cache (TimeUtils.base w))
            (Weather.forecast_cache (TimeUtils.base w)) l clk'
            (Weather.net (TimeUtils.base w))
            (Weather.sent (TimeUtils.base w) ++ [req]))
         (TimeUtils.timezone_cache w)).
Proof.
  intros Hmiss Hwait Hnet. eexists.
  unfold TimeUtils.get_timezone, TimeUtils.bind, TimeUtils.timezone_get,
    TimeUtils.on_base, Weather.rate_limiter_wait, TimeUtils.try_except,
    Weather.fetch.
  rewrite cache_get_absent by done. simpl. rewrite Hwait. simpl.
  rewrite Hnet. simpl. done.
Qed.
End TimeReport_facts.

(** X23: the local time of a city is served when the time-zone service is
    down, and not when the geocoder fails. An exception of
    [get_coordinates] reaches the caller of [get_local_time_info]
    unchanged, before any time-zone lookup. When the coordinates are
    there, the zone is not cached, the limiter admits and the request
    for the zone fails, the call returns the report of the time in the
    zone estimated from the longitude (the time in UTC if [pytz] does
    not know that name), having sent one request, and caches no zone. *)
Theorem X23_local_time_without_the_timezone_service
    (float_of_str : string → option Q) (str_of_float : Q → string)
    (cfg : Config.t) (all_timezones : list string)
    (tzinfo datetime : Type) (timezone : string → option tzinfo) (UTC : tzinfo)
    (now : Z → tzinfo → datetime)
    (format_time_report : datetime → string → string → string)
    (w : TimeUtils.world) (city language text : string)
    (r : outcome (Q * Q)) (b : Weather.world) :
  Weather.get_coordinates float_of_str cfg city (TimeUtils.base w) = (r, b) →
  let res :=
    TimeReport.get_local_time_info float_of_str str_of_float cfg all_timezones
      tzinfo datetime timezone UTC now format_time_report city language w in
  match r with
  | Raise e => res = (Raise e, TimeUtils.mk b (TimeUtils.timezone_cache w))
  | Ok coords =>
      "tz_" +:+ str_of_float coords.1 +:+ "_" +:+ str_of_float coords.2
        ∉ TTLCache.keys (TimeUtils.timezone_cache w) →
      limiter_admits b →
      Weather.net b (length (Weather.sent b)) = Weather.Failed text →
      res.1
      = Ok (format_time_report
              (now (Clock.now (Weather.clock (TimeUtils.base res.2)))
                 (default UTC (timezone (TimeUtils.estimated_timezone coords.2))))
              city language)
      ∧ TimeUtils.timezone_cache res.2 = TimeUtils.timezone_cache w
      ∧ length (Weather.sent (TimeUtils.base res.2)) = S (length (Weather.sent b))
  end.
Proof.
  intros Hgeo res. unfold res, TimeReport.get_local_time_info,
    TimeUtils.try_except, TimeUtils.bind, TimeUtils.on_base.
  rewrite Hgeo. destruct r as [coords|e]; [|done].
  intros Hmiss Hadm Hnet.
  destruct (wait_returns (Weather.rate_limiter b) (Weather.clock b) Hadm)
    as (l & clk' & Hwait).
  destruct (get_timezone_fetch_failed str_of_float all_timezones
              (TimeUtils.mk b (TimeUtils.timezone_cache w)) coords.1 coords.2
              l clk' text Hmiss Hwait Hnet) as [req ->].
  unfold TimeReport.get_local_time, TimeUtils.ret. simpl.
  destruct (timezone (TimeUtils.estimated_timezone coords.2)); simpl;
    (split_and!; [done|done|rewrite length_app; simpl; lia]).
Qed.

Lemma X23_local_time_without_the_timezone_service_witness :
  let w := TimeUtils.mk
             (Weather.init Config.default (Clock.init 0 (λ _, 1)) net_one_answer)
             (TTLCache.init 1000) in
  let res :=
    TimeReport.get_local_time_info sample_float_of_str sample_str_of_float
      Config.default ["UTC"] unit (Z * string) (λ _, None) () (λ t _, (t, "UTC"))
      (λ d city _, city +:+ ": " +:+ d.2) "Paris" "en" w in
  res.1 = Ok "Paris: UTC"
  ∧ TimeUtils.timezone_cache res.2 = TimeUtils.timezone_cache w.
Proof.
  intros w res.
  pose proof (X23_local_time_without_the_timezone_service sample_float_of_str
                sample_str_of_float Config.default ["UTC"] unit (Z * string)
                (λ _, None) () (λ t _, (t, "UTC"))
                (λ d city _, city +:+ ": " +:+ d.2) w "Paris" "en" "timeout"
                _ _ eq_refl) as Hcall.
  cbv zeta in Hcall. fold w res in Hcall.
  destruct Hcall as (Hres & Hcache & _).
  - apply not_elem_of_nil.
  - right. vm_compute. discriminate.
  - reflexivity.
  - split; [exact Hres|exact Hcache].
Defined.
